(** * Parallel2D_HeatTransferSimulation: grid reconstruction and the explicit
      diffusion step

    A shallow embedding of the numerical core of the Python scripts:

    - [load_block] (heat_pro_visualization.py, visualize_1d.py, plot_heat.py,
      visualize_ranks_overlay.py): the tolerant parser of one rank's CSV dump;
    - [full_grid] (heat_pro_visualization.py, visualize2.py,
      visualize_ranks_overlay.py): the 2 x 2 reassembly with [hstack] and
      [vstack];
    - [step_heat] (animate_heat.py and heat_pro_visualization.py): one explicit
      step of the 5-point stencil followed by the re-stamped boundaries, and the
      loops that iterate it;
    - [step_heat] of visualize_ranks_overlay.py: the same stencil on the array
      padded with its edge values, with the two hot bands only;
    - the repair of fix_csv.py and the name it writes to;
    - the names of the step files of visualize.py and advanced_visualize.py,
      written and read back;
    - [merge_configs] and the axes of [create_comparison_plot] of
      advanced_visualize.py.

    Temperatures are binary64 numbers, as numpy's float64: the kernel's
    primitive floats with their IEEE operations.  A two-dimensional array is the
    list of its rows; numpy's slices, slice assignments and element-wise
    arithmetic are written with [take], [drop], [zip_with] and list insertion.
    A Python exception is a [Raise] in the [result] type. *)

From Stdlib Require Import ZArith Ascii String Uint63 Floats DecimalNat DecimalString.
From stdpp Require Import base option list strings.

Set Warnings "-inexact-float".
Set Warnings "-register-all".

(** ** Exceptions and results *)

Inductive exn : Set :=
  | ValueError
  | IndexError
  | ZeroDivisionError.

Inductive result (A : Type) : Type :=
  | Ok (a : A)
  | Raise (e : exn).
Global Arguments Ok {A} a.
Global Arguments Raise {A} e.

#[global] Instance result_ret : MRet result := @Ok.
#[global] Instance result_bind : MBind result := λ A B f m,
  match m with
  | Ok a => f a
  | Raise e => Raise e
  end.

Definition returns {A} (r : result A) : bool :=
  match r with
  | Ok _ => true
  | Raise _ => false
  end.

(** ** Two-dimensional float64 arrays *)

Abbreviation ndarray := (list (list float)).

(** [arr.shape[1]].  An array without rows is the empty list, so its second
    dimension reads 0: arrays of shape (0, n) with n > 0 are not told apart from
    shape (0, 0); every theorem below is about arrays with at least one row. *)
Definition ncols (u : ndarray) : nat :=
  match u with
  | [] => 0
  | r :: _ => length r
  end.

(** [u[i, j]], read with a default outside the array. *)
Definition cell (u : ndarray) (i j : nat) : float := nth j (nth i u []) 0%float.

(** The same read as an option: [None] outside the array. *)
Definition cell_opt (u : ndarray) (i j : nat) : option float :=
  r ← u !! i; r !! j.

(** The array has shape (NX, NY). *)
Definition Shape (u : ndarray) (NX NY : nat) : Prop :=
  length u = NX ∧ Forall (λ r, length r = NY) u.

Section slices.
Context {A B : Type}.

(** [l[1:-1]] *)
Definition mid (l : list A) : list A := take (length l - 2) (drop 1 l).

(** [l[2:]] *)
Definition from2 (l : list A) : list A := drop 2 l.

(** [l[:-2]] *)
Definition upto_m2 (l : list A) : list A := take (length l - 2) l.

(** [l[1:-1] = v] along one axis, each selected entry combined with the
    matching entry of [v] by [f] (the assignment itself one level down). *)
Definition assign_mid (f : A → B → A) (l : list A) (v : list B) : list A :=
  match l with
  | [] => []
  | x :: t => x :: zip_with f (take (length t - 1) t) v ++ drop (length t - 1) t
  end.
End slices.

(** [u[rs, cs]] for two slices. *)
Definition slice2 (rs : ndarray → ndarray) (cs : list float → list float)
    (u : ndarray) : ndarray := cs <$> rs u.

(** Element-wise arithmetic of arrays of one shape, and scalar times array. *)
Definition arr_add (a b : ndarray) : ndarray := zip_with (zip_with PrimFloat.add) a b.
Definition arr_sub (a b : ndarray) : ndarray := zip_with (zip_with PrimFloat.sub) a b.
Definition scal_mul (c : float) (a : ndarray) : ndarray :=
  (λ row : list float, PrimFloat.mul c <$> row) <$> a.

(** [new[1:-1, 1:-1] = v] *)
Definition assign_interior (new v : ndarray) : ndarray :=
  assign_mid (assign_mid (λ _ y, y)) new v.

(** [row[:] = c] *)
Definition fill (c : float) (row : list float) : list float := (λ _, c) <$> row.

(** The start of the slice [-b:] on an axis of length [n]; [-0] is [0]. *)
Definition neg_start (b n : nat) : nat := if decide (b = 0) then 0 else n - b.

(** [new[0:t, :] = c] *)
Definition set_rows_upto (t : nat) (c : float) (new : ndarray) : ndarray :=
  (fill c <$> take t new) ++ drop t new.

(** [new[-b:, :] = c] *)
Definition set_rows_last (b : nat) (c : float) (new : ndarray) : ndarray :=
  take (neg_start b (length new)) new ++ (fill c <$> drop (neg_start b (length new)) new).

(** [new[0, :] = c] and [new[-1, :] = c], on an array that has such a row. *)
Definition set_row_first (c : float) (new : ndarray) : ndarray := alter (fill c) 0 new.
Definition set_row_last (c : float) (new : ndarray) : ndarray :=
  alter (fill c) (length new - 1) new.

(** [new[:, 0] = c] and [new[:, -1] = c], on an array that has such a column. *)
Definition set_col_first (c : float) (new : ndarray) : ndarray :=
  (λ row : list float, <[0 := c]> row) <$> new.
Definition set_col_last (c : float) (new : ndarray) : ndarray :=
  (λ row : list float, <[length row - 1 := c]> row) <$> new.

(** The right-hand side of the interior update of both [step_heat]s:
<<
    u[1:-1, 1:-1] + dt * (u[2:, 1:-1] + u[:-2, 1:-1] +
                          u[1:-1, 2:] + u[1:-1, :-2] - 4.0 * u[1:-1, 1:-1])
>> *)
Definition stencil_rhs (dt : float) (u : ndarray) : ndarray :=
  arr_add (slice2 mid mid u)
    (scal_mul dt
       (arr_sub
          (arr_add
             (arr_add (arr_add (slice2 from2 mid u) (slice2 upto_m2 mid u))
                (slice2 mid from2 u))
             (slice2 mid upto_m2 u))
          (scal_mul 4%float (slice2 mid mid u)))).

(** [new = u.copy(); new[1:-1, 1:-1] = ...] *)
Definition interior_update (dt : float) (u : ndarray) : ndarray :=
  assign_interior u (stencil_rhs dt u).

(** The value the specification gives an interior cell, with the code's
    coefficient [dt] (the scripts have no separate diffusivity factor). *)
Definition five_point (dt : float) (u : ndarray) (i j : nat) : float :=
  (cell u i j
   + dt * (cell u (i + 1) j + cell u (i - 1) j + cell u i (j + 1) + cell u i (j - 1)
           - 4 * cell u i j))%float.

(** ** heat_pro_visualization.py: thick hot bands, cold sides *)

Module HeatPro.
Section params.
(** The module-level names [step_heat] reads. *)
Variables (dt hot_T cold_T : float) (top_band bottom_band : nat).

(** Lines 79-83, "re-apply thick boundaries every step": top, bottom, left,
    right.  The two column assignments index column 0 and column -1, which
    numpy refuses on an array without columns. *)
Definition reapply_boundaries (new : ndarray) : result ndarray :=
  let new := set_rows_upto top_band hot_T new in
  let new := set_rows_last bottom_band hot_T new in
  if decide (ncols new = 0) then Raise IndexError
  else
    let new := set_col_first cold_T new in
    let new := set_col_last cold_T new in
    Ok new.

Definition step_heat (u_arr : ndarray) : result ndarray :=
  reapply_boundaries (interior_update dt u_arr).

(** Lines 87-90: [for step in range(steps_total)] with the snapshot taken
    when [step % snap_every == 0]; [step] counts from [k]. *)
Fixpoint run_loop (snap_every : nat) (n k : nat) (u : ndarray)
    (snapshots : list ndarray) : result (ndarray * list ndarray) :=
  match n with
  | 0 => Ok (u, snapshots)
  | S n' =>
      u' ← step_heat u;
      if decide (snap_every = 0) then Raise ZeroDivisionError
      else
        run_loop snap_every n' (S k) u'
          (if decide (k mod snap_every = 0) then snapshots ++ [u'] else snapshots)
  end.

(** Lines 62 and 87-90. *)
Definition simulate (steps_total snap_every : nat) (u : ndarray)
    : result (ndarray * list ndarray) :=
  run_loop snap_every steps_total 0 u [u].
End params.

(** The constants of the script. *)
Definition dt : float := 0.15%float.
Definition hot_T : float := 100%float.
Definition cold_T : float := 0%float.
Definition top_band : nat := 30.
Definition bottom_band : nat := 30.
Definition steps_total : nat := 2000.
Definition snap_every : nat := 10.
End HeatPro.

(** ** animate_heat.py (and the loop of plot_heat.py): one hot row at the top
       and at the bottom, cold sides *)

Module AnimateHeat.
Section params.
Variables (dt hot_T cold_T : float).

(** Lines 44-48.  Row 0 and row -1 exist only in an array with a row,
    column 0 and column -1 only in one with a column. *)
Definition reapply_boundaries (new : ndarray) : result ndarray :=
  if decide (length new = 0) then Raise IndexError
  else
    let new := set_row_first hot_T new in
    let new := set_row_last hot_T new in
    if decide (ncols new = 0) then Raise IndexError
    else
      let new := set_col_first cold_T new in
      let new := set_col_last cold_T new in
      Ok new.

Definition step_heat (u : ndarray) : result ndarray :=
  reapply_boundaries (interior_update dt u).

(** [update]: [snap_every] solver steps between two frames. *)
Fixpoint steps (n : nat) (u : ndarray) : result ndarray :=
  match n with
  | 0 => Ok u
  | S n' => u' ← step_heat u; steps n' u'
  end.
End params.

Definition dt : float := 0.2%float.
Definition hot_T : float := 100%float.
Definition cold_T : float := 0%float.
Definition snap_every : nat := 3.
End AnimateHeat.

(** ** load_block: the parser of one rank's dump *)

(** [str.isspace] on the code points below 256: tab to carriage return, the four
    separators 28-31, space, NEL and the no-break space. *)
Definition py_isspace (c : ascii) : bool :=
  let n := nat_of_ascii c in
  ((9 <=? n) && (n <=? 13)) || ((28 <=? n) && (n <=? 32)) || (n =? 133) || (n =? 160).

Fixpoint lstrip (s : string) : string :=
  match s with
  | EmptyString => EmptyString
  | String c s' => if py_isspace c then lstrip s' else s
  end.

Fixpoint rstrip (s : string) : string :=
  match s with
  | EmptyString => EmptyString
  | String c s' =>
      match rstrip s' with
      | EmptyString => if py_isspace c then EmptyString else String c EmptyString
      | t => String c t
      end
  end.

(** [line.strip()] *)
Definition strip (s : string) : string := rstrip (lstrip s).

(** [line.endswith(sep)] for a one-character [sep]. *)
Fixpoint endswith (s : string) (sep : ascii) : bool :=
  match s with
  | EmptyString => false
  | String c EmptyString => bool_decide (c = sep)
  | String _ s' => endswith s' sep
  end.

(** [line[:-1]] *)
Fixpoint drop_last (s : string) : string :=
  match s with
  | EmptyString => EmptyString
  | String _ EmptyString => EmptyString
  | String c s' => String c (drop_last s')
  end.

(** [line.split(sep)] for a one-character [sep]: never an empty list. *)
Fixpoint split (s : string) (sep : ascii) : list string :=
  match s with
  | EmptyString => [EmptyString]
  | String c s' =>
      if decide (c = sep) then EmptyString :: split s' sep
      else
        match split s' sep with
        | [] => [String c EmptyString]
        | p :: ps => String c p :: ps
        end
  end.

(** [sep.join(parts)], to state what [split] returns. *)
Fixpoint join (sep : ascii) (parts : list string) : string :=
  match parts with
  | [] => EmptyString
  | [p] => p
  | p :: ps => p +:+ String sep (join sep ps)
  end.

(** The characters of a string. *)
Fixpoint chars (s : string) : list ascii :=
  match s with
  | EmptyString => []
  | String c s' => c :: chars s'
  end.

Definition comma : ascii := "," % char.

(** The line terminator the file iterator leaves at the end of a line. *)
Definition nl : string := String (ascii_of_nat 10) EmptyString.

(** numpy's [np.array] on a list of rows of floats, as numpy 1.24 and later
    have it: rows of one length give the array of these rows (no row gives the
    empty array, rows of length zero an array with no column), and rows of
    different lengths raise ValueError, "setting an array element with a
    sequence. The requested array has an inhomogeneous shape".  Older versions
    of numpy warned and built an array of list objects instead. *)
Definition np_array (rows : list (list float)) : result ndarray :=
  match rows with
  | [] => Ok []
  | r :: rest =>
      if forallb (λ r' : list float, length r' =? length r) rest then Ok rows
      else Raise ValueError
  end.

Section load_block.
(** Python's [float(p)]; [None] stands for its ValueError. *)
Variable py_float : string → option float.

(** [[float(p) for p in parts]] *)
Fixpoint floats (parts : list string) : result (list float) :=
  match parts with
  | [] => Ok []
  | p :: ps =>
      match py_float p with
      | None => Raise ValueError
      | Some x =>
          match floats ps with
          | Ok xs => Ok (x :: xs)
          | Raise e => Raise e
          end
      end
  end.

(** The body of the loop after the blank-line test, on the stripped line:
    [parts] of lines 16-18. *)
Definition parts_of (line : string) : list string :=
  let line := if endswith line comma then drop_last line else line in
  filter (λ p, p ≠ EmptyString) (split line comma).

(** Lines 12-19: [for line in f], with [rows] as built so far. *)
Fixpoint load_loop (rows : list (list float)) (f : list string)
    : result (list (list float)) :=
  match f with
  | [] => Ok rows
  | line :: rest =>
      let line := strip line in
      if decide (line = EmptyString) then load_loop rows rest
      else
        match floats (parts_of line) with
        | Ok row => load_loop (rows ++ [row]) rest
        | Raise e => Raise e
        end
  end.

(** Lines 10-19: the rows handed to [np.array]. *)
Definition load_rows (f : list string) : result (list (list float)) :=
  load_loop [] f.

(** [load_block], on the lines of the file: line 20, [return np.array(rows)]. *)
Definition load_block (f : list string) : result ndarray :=
  rows ← load_rows f; np_array rows.
End load_block.

(** The digits of a decimal literal. *)
Definition digit_of (c : ascii) : option Z :=
  let n := nat_of_ascii c in
  if (48 <=? n) && (n <=? 57) then Some (Z.of_nat (n - 48)) else None.

(** The digits at the front of [s]: their value, their number, and the rest. *)
Fixpoint read_digits (s : string) (m : Z) (k : nat) : Z * nat * string :=
  match s with
  | EmptyString => (m, k, EmptyString)
  | String c s' =>
      match digit_of c with
      | Some d => read_digits s' (10 * m + d)%Z (S k)
      | None => (m, k, s)
      end
  end.

Definition float_of_Z (m : Z) : float := PrimFloat.of_uint63 (Uint63.of_Z m).

(** An ASCII letter in lower case. *)
Definition lower (c : ascii) : ascii :=
  let n := nat_of_ascii c in
  if (65 <=? n) && (n <=? 90) then ascii_of_nat (n + 32) else c.

Fixpoint lowercase (s : string) : string :=
  match s with
  | EmptyString => EmptyString
  | String c s' => String (lower c) (lowercase s')
  end.

(** An optional sign in front of [s]: whether it is a minus, and the rest. *)
Definition read_sign (s : string) : bool * string :=
  match s with
  | String c s' =>
      if decide (c = "-" % char) then (true, s')
      else if decide (c = "+" % char) then (false, s')
      else (false, s)
  | EmptyString => (false, s)
  end.

(** The exponent part of a literal: nothing, or [e] or [E], an optional sign
    and at least one digit. *)
Definition exponent (s : string) : option Z :=
  match s with
  | EmptyString => Some 0%Z
  | String c s' =>
      if decide (lower c = "e" % char) then
        let '(neg, t) := read_sign s' in
        let '(e, k, rest) := read_digits t 0%Z 0 in
        match rest with
        | EmptyString => if decide (0 < k) then Some (if neg then (- e)%Z else e) else None
        | _ => None
        end
      else None
  end.

(** [m] times the power [e] of ten, for a power of at most 18: both factors
    are integers a float represents exactly, so their product or quotient is
    the correctly rounded value. *)
Definition scale (m e : Z) : option float :=
  if decide (0 ≤ e ≤ 18)%Z then Some (float_of_Z m * float_of_Z (10 ^ e))%float
  else if decide (-18 ≤ e < 0)%Z then Some (float_of_Z m / float_of_Z (10 ^ (- e)))%float
  else None.

(** Digits, an optional point and digits, an optional exponent. *)
Definition unsigned_literal (s : string) : option float :=
  let '(m, k, rest) := read_digits s 0%Z 0 in
  let '(m', k', rest') :=
    match rest with
    | String c t => if decide (c = "." % char) then read_digits t m 0 else (m, 0, rest)
    | EmptyString => (m, 0, rest)
    end in
  if decide (0 < k + k' ≤ 15) then
    e ← exponent rest'; scale m' (e - Z.of_nat k')
  else None.

(** The words [float] reads besides numbers, in any case. *)
Definition special_literal (s : string) : option float :=
  let w := lowercase s in
  if decide (w = "inf" ∨ w = "infinity") then Some infinity
  else if decide (w = "nan") then Some nan
  else None.

(** [float] on the literals the examples of this development use: white space
    around the text is dropped, as [float] drops it; then come an optional sign
    and either one of the words inf, infinity and nan, or a decimal number with
    at most 15 digits and, the exponent counted in, a power of ten of at most
    18, whose value [scale] rounds as [float] does.  [None] is [float]'s
    ValueError on a text that is no number; it is also the answer on the
    numbers outside this range (more digits, larger powers, underscores between
    digits), which [float] accepts: the examples hold no such field. *)
Definition float_literal (s : string) : option float :=
  let '(neg, body) := read_sign (strip s) in
  let value :=
    match special_literal body with
    | Some x => Some x
    | None => unsigned_literal body
    end in
  (if neg then PrimFloat.opp else id) <$> value.

(** ** The reassembly of the four rank blocks *)

(** [np.hstack] on two-dimensional arrays: concatenation along axis 1, which
    numpy refuses unless all arrays have the same number of rows. *)
Definition hstack (tup : list ndarray) : result ndarray :=
  match tup with
  | [] => Raise ValueError
  | a :: rest =>
      if forallb (λ b : ndarray, length b =? length a) rest
      then Ok (foldl (zip_with app) a rest)
      else Raise ValueError
  end.

(** [np.vstack] on two-dimensional arrays: concatenation along axis 0, which
    numpy refuses unless all arrays have the same number of columns. *)
Definition vstack (tup : list ndarray) : result ndarray :=
  match tup with
  | [] => Raise ValueError
  | a :: rest =>
      if forallb (λ b : ndarray, ncols b =? ncols a) rest
      then Ok (concat tup)
      else Raise ValueError
  end.

(** heat_pro_visualization.py, lines 28-30 (visualize2.py, lines 18-20). *)
Definition top_row (b0 b1 : ndarray) : result ndarray := hstack [b0; b1].
Definition bottom_row (b2 b3 : ndarray) : result ndarray := hstack [b2; b3].
Definition full_grid (b0 b1 b2 b3 : ndarray) : result ndarray :=
  top ← top_row b0 b1;
  bottom ← bottom_row b2 b3;
  vstack [top; bottom].

(** visualize_1d.py, line 34: the four stripes stacked in rank order. *)
Definition full_grid_1d (b0 b1 b2 b3 : ndarray) : result ndarray :=
  vstack [b0; b1; b2; b3].

(** A block of shape (h, w) filled with one value. *)
Definition constant_block (h w : nat) (c : float) : ndarray :=
  replicate h (replicate w c).

(** ** fix_csv.py *)

(** What [np.genfromtxt] returns.  It squeezes its result: a text of two or
    more lines with two or more columns gives an array of two dimensions, a
    text of one line or of one column (and an empty text) an array of one
    dimension, a single value an array of no dimension. *)
Inductive parsed : Type :=
  | Scalar (x : float)
  | Vector (v : list float)
  | Matrix (arr : ndarray).

Section fix_csv.
(** numpy's [np.genfromtxt(f, delimiter=..., filling_values=...)] on the text
    of a file. *)
Variable genfromtxt : list string → ascii → float → result parsed.

(** [arr.shape[1]]: the tuple [arr.shape] has an entry 1 only for an array of
    two dimensions, "IndexError: tuple index out of range" otherwise. *)
Definition shape_1 (arr : parsed) : result nat :=
  match arr with
  | Matrix a => Ok (ncols a)
  | _ => Raise IndexError
  end.

(** [arr[:, :100]], two indices, which an array of fewer dimensions refuses
    with IndexError. *)
Definition first_100_columns (arr : parsed) : result parsed :=
  match arr with
  | Matrix a => Ok (Matrix (take 100 <$> a))
  | _ => Raise IndexError
  end.

(** Lines 16-17: [if arr.shape[1] == 101: arr = arr[:, :100]]. *)
Definition truncate (arr : parsed) : result parsed :=
  w ← shape_1 arr;
  if decide (w = 101) then first_100_columns arr else Ok arr.

(** Lines 13-21 for one file: the array handed to [np.savetxt]. *)
Definition fix_file (f : list string) : result parsed :=
  arr ← genfromtxt f comma 0%float;
  truncate arr.
End fix_csv.

(** The value [step_heat] of visualize_ranks_overlay.py gives a cell outside
    the bands of an array of shape (NX, NY): the 5-point update in the order
    up, down, left, right, a neighbour outside the array being replaced by the
    cell of the edge it is padded with. *)
Definition mirrored_five_point (dt : float) (u : ndarray) (NX NY i j : nat) : float :=
  (cell u i j
   + dt * (cell u (i - 1) j + cell u (Nat.min (i + 1) (NX - 1)) j + cell u i (j - 1)
           + cell u i (Nat.min (j + 1) (NY - 1)) - 4 * cell u i j))%float.

(** ** Repeated steps *)

(** [n] calls of a script's [step_heat] in a row, each on the result of the
    one before; used to say which grid a loop holds after [n] steps. *)
Fixpoint iterate (step : ndarray → result ndarray) (n : nat) (u : ndarray)
    : result ndarray :=
  match n with
  | 0 => Ok u
  | S n' => u' ← step u; iterate step n' u'
  end.

(** animate_heat.py, lines 68-76: [update] called [k] times in a row, each call
    making [snap_every] solver steps on the global [u]. *)
Fixpoint animate_frames (dt hot_T cold_T : float) (snap_every k : nat) (u : ndarray)
    : result ndarray :=
  match k with
  | 0 => Ok u
  | S k' =>
      u' ← AnimateHeat.steps dt hot_T cold_T snap_every u;
      animate_frames dt hot_T cold_T snap_every k' u'
  end.

(** ** visualize_ranks_overlay.py: hot bands, free sides *)

Module Overlay.
(** One axis of [np.pad(a, 1, mode="edge")]: the first and the last entry are
    repeated once; numpy refuses to extend an empty axis in this mode. *)
Definition pad_axis {A} (l : list A) : result (list A) :=
  match l with
  | [] => Raise ValueError
  | x :: _ => Ok (x :: l ++ [default x (last l)])
  end.

(** [np.pad(u_arr, 1, mode="edge")]: every row, then the list of rows. *)
Definition pad_edge (u : ndarray) : result ndarray :=
  rows ← mapM pad_axis u;
  pad_axis rows.

Section params.
Variables (dt hot_T : float) (top_band bottom_band : nat).

(** Lines 58-81.  The sides are free: only the two bands are re-stamped. *)
Definition step_heat (u_arr : ndarray) : result ndarray :=
  p ← pad_edge u_arr;
  let center := slice2 mid mid p in
  let up := slice2 upto_m2 mid p in
  let down := slice2 from2 mid p in
  let left := slice2 mid upto_m2 p in
  let right := slice2 mid from2 p in
  let lap :=
    arr_sub (arr_add (arr_add (arr_add up down) left) right) (scal_mul 4%float center) in
  let new := arr_add u_arr (scal_mul dt lap) in
  let new := set_rows_upto top_band hot_T new in
  let new := set_rows_last bottom_band hot_T new in
  Ok new.

(** Lines 84-87: the loop of heat_pro_visualization.py over this [step_heat]. *)
Fixpoint run_loop (snap_every : nat) (n k : nat) (u : ndarray)
    (snapshots : list ndarray) : result (ndarray * list ndarray) :=
  match n with
  | 0 => Ok (u, snapshots)
  | S n' =>
      u' ← step_heat u;
      if decide (snap_every = 0) then Raise ZeroDivisionError
      else
        run_loop snap_every n' (S k) u'
          (if decide (k mod snap_every = 0) then snapshots ++ [u'] else snapshots)
  end.

(** Lines 55 and 84-87. *)
Definition simulate (steps_total snap_every : nat) (u : ndarray)
    : result (ndarray * list ndarray) :=
  run_loop snap_every steps_total 0 u [u].
End params.

(** The constants of the script. *)
Definition dt : float := 0.15%float.
Definition hot_T : float := 100%float.
Definition top_band : nat := 30.
Definition bottom_band : nat := 30.
Definition steps_total : nat := 800.
Definition snap_every : nat := 8.
End Overlay.

(** ** The scripts from the loaded grid to the snapshots *)

(** heat_pro_visualization.py, lines 38-55: the initial condition.  The copy of
    the loaded grid is overwritten by [u[:, :] = 0.0]; the four assignments
    that follow are those of lines 80-83. *)
Definition heat_pro_initial (hot_T cold_T : float) (top_band bottom_band : nat)
    (full_grid : ndarray) : result ndarray :=
  let u := fill 0%float <$> full_grid in
  HeatPro.reapply_boundaries hot_T cold_T top_band bottom_band u.

(** heat_pro_visualization.py, lines 38-90. *)
Definition heat_pro_script (dt hot_T cold_T : float)
    (top_band bottom_band steps_total snap_every : nat) (full_grid : ndarray)
    : result (ndarray * list ndarray) :=
  u ← heat_pro_initial hot_T cold_T top_band bottom_band full_grid;
  HeatPro.simulate dt hot_T cold_T top_band bottom_band steps_total snap_every u.

(** visualize_ranks_overlay.py, lines 39-46: [np.zeros_like(full_grid)] and
    the two bands. *)
Definition overlay_initial (hot_T : float) (top_band bottom_band : nat)
    (full_grid : ndarray) : ndarray :=
  let u := fill 0%float <$> full_grid in
  let u := set_rows_upto top_band hot_T u in
  set_rows_last bottom_band hot_T u.

(** visualize_ranks_overlay.py, lines 39-87. *)
Definition overlay_script (dt hot_T : float)
    (top_band bottom_band steps_total snap_every : nat) (full_grid : ndarray)
    : result (ndarray * list ndarray) :=
  Overlay.simulate dt hot_T top_band bottom_band steps_total snap_every
    (overlay_initial hot_T top_band bottom_band full_grid).

(** ** File names: fix_csv.py, visualize.py and advanced_visualize.py *)

(** [s.startswith(p)] *)
Definition startswith (s p : string) : bool := String.prefix p s.

(** [s.endswith(suffix)] for a suffix of any length. *)
Fixpoint str_endswith (s suffix : string) : bool :=
  String.eqb s suffix ||
  match s with
  | EmptyString => false
  | String _ s' => str_endswith s' suffix
  end.

(** [s.replace(old, new)] for a non-empty [old]: the occurrences of [old] are
    taken from the left, without overlap, and each gives way to [new].  [skip]
    counts the characters of the occurrence just replaced that are still to be
    passed over. *)
Fixpoint replace_from (skip : nat) (s old new : string) : string :=
  match s with
  | EmptyString => EmptyString
  | String c s' =>
      match skip with
      | S k => replace_from k s' old new
      | 0 =>
          if String.prefix old s
          then new +:+ replace_from (String.length old - 1) s' old new
          else String c (replace_from 0 s' old new)
      end
  end.

(** With an empty [old], [new] is put before every character and at the end. *)
Fixpoint replace_empty (s new : string) : string :=
  match s with
  | EmptyString => new
  | String c s' => new +:+ String c (replace_empty s' new)
  end.

Definition str_replace (s old new : string) : string :=
  match old with
  | EmptyString => replace_empty s new
  | _ => replace_from 0 s old new
  end.

(** fix_csv.py, lines 3-8 and line 20. *)
Definition fix_csv_files : list string :=
  ["output_rank_0.csv"; "output_rank_1.csv"; "output_rank_2.csv"; "output_rank_3.csv"].
Definition out_file (f : string) : string := str_replace f ".csv" "_fixed.csv".

(** visualize2.py, lines 4-9. *)
Definition visualize2_files : list string :=
  ["output_rank_0_fixed.csv"; "output_rank_1_fixed.csv"; "output_rank_2_fixed.csv";
   "output_rank_3_fixed.csv"].

(** [f"{step:04d}"] for a step that is not negative: its decimal digits, with
    zeros in front up to four characters. *)
Fixpoint zeros (n : nat) : string :=
  match n with
  | 0 => EmptyString
  | S n' => String "0" (zeros n')
  end.
Definition format_04d (step : nat) : string :=
  let digits := NilEmpty.string_of_uint (Nat.to_uint step) in
  zeros (4 - String.length digits) +:+ digits.

(** visualize.py, line 155 (advanced_visualize.py, lines 90 and 125):
    [f"output_step_{step:04d}.txt"]. *)
Definition step_file (step : nat) : string :=
  "output_step_" +:+ format_04d step +:+ ".txt".

(** visualize.py, line 57: the files [create_animation] keeps. *)
Definition is_step_file (file : string) : bool :=
  startswith file "output_step_" && str_endswith file ".txt".

(** visualize.py, line 71: [filename.split('_')[2].split('.')[0]]; [None]
    stands for the IndexError of [[2]]. *)
Definition step_num (filename : string) : option string :=
  p ← split filename "_" !! 2;
  split p "." !! 0.

(** [int(s)] on a string of one-byte characters: white space at both ends is
    dropped, then come an optional sign and decimal digits, where single
    underscores may stand between two digits; [None] stands for the
    ValueError.  (The limit recent Python versions put on the number of digits
    is left out.) *)
Fixpoint digits_value (s : string) (acc : Z) (after_digit : bool) : option Z :=
  match s with
  | EmptyString => if after_digit then Some acc else None
  | String c s' =>
      match digit_of c with
      | Some d => digits_value s' (10 * acc + d)%Z true
      | None =>
          if decide (c = "_" % char)
          then if after_digit then digits_value s' acc false else None
          else None
      end
  end.
Definition py_int (s : string) : option Z :=
  match strip s with
  | String c t =>
      if decide (c = "-" % char) then Z.opp <$> digits_value t 0 false
      else if decide (c = "+" % char) then digits_value t 0 false
      else digits_value (String c t) 0 false
  | EmptyString => None
  end.

(** advanced_visualize.py, lines 184 and 295:
    [int(filename.split('_')[2].split('.')[0])]. *)
Definition step_of_file (filename : string) : option Z :=
  p ← step_num filename;
  py_int p.

(** ** advanced_visualize.py: the configuration *)

(** A value as [json.load] returns it.  A dict is the list of its items in
    the order of insertion, each key once. *)
Inductive json : Type :=
  | JNull
  | JBool (b : bool)
  | JInt (n : Z)
  | JFloat (x : float)
  | JStr (s : string)
  | JList (l : list json)
  | JDict (items : list (string * json)).

(** [d[key]], [None] when [key not in d]. *)
Fixpoint dict_get (key : string) (items : list (string * json)) : option json :=
  match items with
  | [] => None
  | (k, v) :: rest => if decide (k = key) then Some v else dict_get key rest
  end.

(** [d[key] = value]: the value of a key of [d] is replaced where it stands, a
    new key is put at the end. *)
Fixpoint dict_set (key : string) (value : json) (items : list (string * json))
    : list (string * json) :=
  match items with
  | [] => [(key, value)]
  | (k, v) :: rest =>
      if decide (k = key) then (k, value) :: rest else (k, v) :: dict_set key value rest
  end.

(** What a call of [merge_configs] leaves: the updated [default], or the
    exception it raises. *)
Inductive merge_result : Type :=
  | Merged (default : json)
  | TypeError
  | AttributeError.

(** Lines 49-55.  [default] is updated in place; the items of [user] are
    taken in order.  On a [default] that is no dict both [key in default] with
    a dict at hand and [default[key] = value] raise a TypeError; [user.items()]
    on a [user] that is no dict raises an AttributeError. *)
Fixpoint merge_configs (default user : json) {struct user} : merge_result :=
  match user with
  | JDict items =>
      (fix go (default : json) (items : list (string * json)) {struct items}
           : merge_result :=
         match items with
         | [] => Merged default
         | (key, value) :: rest =>
             match default with
             | JDict d =>
                 match value, dict_get key d with
                 | JDict _, Some sub =>
                     match merge_configs sub value with
                     | Merged sub' => go (JDict (dict_set key sub' d)) rest
                     | e => e
                     end
                 | _, _ => go (JDict (dict_set key value d)) rest
                 end
             | _ => TypeError
             end
         end) default items
  | _ => AttributeError
  end.

(** Lines 18-39. *)
Definition default_config : json :=
  JDict
    [("simulation",
      JDict [("nx", JInt 100); ("ny", JInt 100); ("alpha", JFloat 0.1);
             ("steps", JInt 1000); ("output_interval", JInt 100)]);
     ("boundary_conditions",
      JDict [("top_temp", JFloat 100); ("bottom_temp", JFloat 100);
             ("left_temp", JFloat 0); ("right_temp", JFloat 0)]);
     ("visualization",
      JDict [("colormap", JStr "hot"); ("output_format", JStr "png");
             ("create_animation", JBool true); ("animation_fps", JInt 10);
             ("dpi", JInt 150)])].

(** Lines 16-47, on what [json.load] returned for the file, [None] when the
    file does not exist. *)
Definition load_config (config_file : option json) : merge_result :=
  match config_file with
  | Some user_config => merge_configs default_config user_config
  | None => Merged default_config
  end.

(** The number of values in a value, itself included. *)
Fixpoint json_size (v : json) : nat :=
  match v with
  | JList l => S (foldr (λ x n, json_size x + n) 0 l)
  | JDict items => S (foldr (λ kv n, json_size kv.2 + n) 0 items)
  | _ => 1
  end.

(** The values [json.load] builds: in every dict, at every depth, a key
    stands once. *)
Inductive json_wf : json → Prop :=
  | wf_null : json_wf JNull
  | wf_bool b : json_wf (JBool b)
  | wf_int n : json_wf (JInt n)
  | wf_float x : json_wf (JFloat x)
  | wf_str s : json_wf (JStr s)
  | wf_list l : Forall json_wf l → json_wf (JList l)
  | wf_dict items :
      NoDup (items.*1) → Forall (λ kv, json_wf kv.2) items → json_wf (JDict items).

(** ** advanced_visualize.py: the axes of the comparison plot *)

(** What the method does to an axis: [imshow] puts an image on it,
    [set_visible(False)] hides it. *)
Record axis : Type := { has_image : bool; visible : bool }.

(** Lines 81-104: the loop over [enumerate(steps)], from index [idx] on.
    [loaded] tells for each step whether its file exists and was read. *)
Fixpoint plot_steps (idx : nat) (loaded : list bool) (axes : list axis)
    (plots_created : nat) : list axis * nat :=
  match loaded with
  | [] => (axes, plots_created)
  | ok :: rest =>
      if decide (length axes ≤ idx) then (axes, plots_created)
      else if ok then
        plot_steps (S idx) rest
          (alter (λ a, {| has_image := true; visible := visible a |}) idx axes)
          (S plots_created)
      else plot_steps (S idx) rest axes plots_created
  end.

(** Lines 106-108: [for idx in range(plots_created, len(axes))]. *)
Definition hide_unused (plots_created : nat) (axes : list axis) : list axis :=
  take plots_created axes
  ++ ((λ a, {| has_image := has_image a; visible := false |}) <$> drop plots_created axes).

(** Lines 78-108, on the six axes of the 2 x 3 figure. *)
Definition create_comparison_plot (loaded : list bool) : list axis :=
  let '(axes, plots_created) :=
    plot_steps 0 loaded (replicate 6 {| has_image := false; visible := true |}) 0 in
  hide_unused plots_created axes.

(** * Facts about arrays and slices *)

Section array_facts.
Implicit Types (u v new : ndarray) (r row : list float).

Lemma Shape_row u NX NY i r : Shape u NX NY → u !! i = Some r → length r = NY.
Proof. intros [_ H] Hi. exact (Forall_lookup_1 _ _ _ _ H Hi). Qed.

Lemma Shape_lookup u NX NY i :
  Shape u NX NY → i < NX → ∃ r, u !! i = Some r ∧ length r = NY.
Proof.
  intros HS Hi. destruct (lookup_lt_is_Some_2 u i) as [r Hr].
  - destruct HS as [-> _]. exact Hi.
  - exists r. split; [done|]. by eapply Shape_row.
Qed.

Lemma Shape_intro u NX NY :
  length u = NX → (∀ i r, u !! i = Some r → length r = NY) → Shape u NX NY.
Proof. intros Hl Hr. split; [done|]. by apply Forall_lookup_2. Qed.

Lemma cell_opt_cell u i j x : cell_opt u i j = Some x → cell u i j = x.
Proof.
  unfold cell_opt, cell. rewrite !nth_lookup.
  destruct (u !! i) as [r|]; simpl; [|done]. by intros ->.
Qed.

Lemma Shape_cell_opt u NX NY i j :
  Shape u NX NY → i < NX → j < NY → cell_opt u i j = Some (cell u i j).
Proof.
  intros HS Hi Hj. destruct (Shape_lookup _ _ _ _ HS Hi) as (r & Hr & Hlen).
  destruct (lookup_lt_is_Some_2 r j) as [x Hx]; [lia|].
  assert (cell_opt u i j = Some x) as H by (unfold cell_opt; rewrite Hr; done).
  by rewrite (cell_opt_cell _ _ _ _ H).
Qed.

(** Two arrays of one shape with the same cells are the same array. *)
Lemma Shape_ext u v NX NY :
  Shape u NX NY → Shape v NX NY →
  (∀ i j, i < NX → j < NY → cell u i j = cell v i j) → u = v.
Proof.
  intros Hu Hv Hc. apply list_eq. intros i.
  destruct (decide (i < NX)) as [Hi|Hi].
  - destruct (Shape_lookup _ _ _ _ Hu Hi) as (r & Hr & Hlr).
    destruct (Shape_lookup _ _ _ _ Hv Hi) as (s & Hs & Hls).
    rewrite Hr, Hs. f_equal. apply list_eq. intros j.
    destruct (decide (j < NY)) as [Hj|Hj].
    + pose proof (Shape_cell_opt _ _ _ _ _ Hu Hi Hj) as H1.
      pose proof (Shape_cell_opt _ _ _ _ _ Hv Hi Hj) as H2.
      unfold cell_opt in H1, H2. rewrite Hr in H1. rewrite Hs in H2.
      simpl in H1, H2. rewrite H1, H2. f_equal. by apply Hc.
    + rewrite !lookup_ge_None_2; [done|lia|lia].
  - destruct Hu as [Hu _], Hv as [Hv _].
    rewrite !lookup_ge_None_2; [done|lia|lia].
Qed.
End array_facts.

Section slice_facts.
Context {A B : Type}.
Implicit Types (l : list A) (v : list B).

Lemma length_mid l : length (mid l) = length l - 2.
Proof. unfold mid. rewrite length_take, length_drop. lia. Qed.

Lemma lookup_mid l k : k < length l - 2 → mid l !! k = l !! S k.
Proof. intros Hk. unfold mid. by rewrite lookup_take_lt, lookup_drop. Qed.

Lemma length_from2 l : length (from2 l) = length l - 2.
Proof. unfold from2. by rewrite length_drop. Qed.

Lemma lookup_from2 l k : from2 l !! k = l !! S (S k).
Proof. unfold from2. by rewrite lookup_drop. Qed.

Lemma length_upto_m2 l : length (upto_m2 l) = length l - 2.
Proof. unfold upto_m2. rewrite length_take. lia. Qed.

Lemma lookup_upto_m2 l k : k < length l - 2 → upto_m2 l !! k = l !! k.
Proof. intros Hk. unfold upto_m2. by rewrite lookup_take_lt. Qed.

Lemma length_assign_mid (f : A → B → A) l v :
  length v = length l - 2 → length (assign_mid f l v) = length l.
Proof.
  destruct l as [|x t]; simpl; [done|]. intros Hv.
  rewrite length_app, length_zip_with, length_take, length_drop. lia.
Qed.

(** Inside the slice the entry comes from [v], elsewhere it is kept. *)
Lemma lookup_assign_mid_in (f : A → B → A) l v i x y :
  length v = length l - 2 → 1 ≤ i → i + 1 < length l →
  l !! i = Some x → v !! (i - 1) = Some y →
  assign_mid f l v !! i = Some (f x y).
Proof.
  destruct l as [|x0 t]; simpl; [lia|]. intros Hv H1 H2 Hx Hy.
  destruct i as [|i]; [lia|]. simpl in *. rewrite Nat.sub_0_r in Hy.
  rewrite lookup_app_l.
  - rewrite lookup_zip_with, lookup_take_lt, Hx, Hy by lia. done.
  - rewrite length_zip_with, length_take. lia.
Qed.

Lemma lookup_assign_mid_out (f : A → B → A) l v i :
  length v = length l - 2 → i = 0 ∨ length l ≤ i + 1 →
  assign_mid f l v !! i = l !! i.
Proof.
  destruct l as [|x0 t]; simpl; [done|]. intros Hv Hi.
  destruct i as [|i]; [done|]. simpl.
  destruct Hi as [?|Hi]; [lia|].
  rewrite lookup_app_r; rewrite length_zip_with, length_take.
  - rewrite lookup_drop. f_equal. lia.
  - lia.
Qed.
End slice_facts.

Section stencil_facts.
Implicit Types (u a b : ndarray).

Lemma cell_opt_zip_with (f : float → float → float) a b i j :
  cell_opt (zip_with (zip_with f) a b) i j
  = (x ← cell_opt a i j; y ← cell_opt b i j; Some (f x y)).
Proof.
  unfold cell_opt. rewrite lookup_zip_with.
  destruct (a !! i) as [ra|], (b !! i) as [rb|]; simpl; try done.
  - by rewrite lookup_zip_with.
  - by destruct (ra !! j).
Qed.

Lemma cell_opt_scal_mul c a i j :
  cell_opt (scal_mul c a) i j = PrimFloat.mul c <$> cell_opt a i j.
Proof.
  unfold cell_opt, scal_mul. rewrite list_lookup_fmap.
  destruct (a !! i) as [ra|]; simpl; [|done]. by rewrite list_lookup_fmap.
Qed.

Lemma Shape_zip_with (f : float → float → float) a b n m :
  Shape a n m → Shape b n m → Shape (zip_with (zip_with f) a b) n m.
Proof.
  intros [Ha Hra] [Hb Hrb]. apply Shape_intro.
  - rewrite length_zip_with. lia.
  - intros i r. rewrite lookup_zip_with.
    destruct (a !! i) as [ra|] eqn:Ea; simpl; [|done].
    destruct (b !! i) as [rb|] eqn:Eb; simpl; [|done].
    intros [= <-]. rewrite length_zip_with.
    rewrite (Forall_lookup_1 _ _ _ _ Hra Ea), (Forall_lookup_1 _ _ _ _ Hrb Eb). lia.
Qed.

Lemma Shape_scal_mul c a n m : Shape a n m → Shape (scal_mul c a) n m.
Proof.
  intros [Ha Hra]. apply Shape_intro.
  - unfold scal_mul. by rewrite length_fmap.
  - intros i r. unfold scal_mul. rewrite list_lookup_fmap.
    destruct (a !! i) as [ra|] eqn:Ea; simpl; [|done].
    intros [= <-]. rewrite length_fmap. exact (Forall_lookup_1 _ _ _ _ Hra Ea).
Qed.

(** A slice that keeps [length - 2] entries on each axis. *)
Lemma Shape_slice2 (rs : ndarray → ndarray) (cs : list float → list float) u NX NY :
  (∀ l, length (rs l) = length l - 2) →
  (∀ (P : list float → Prop) l, Forall P l → Forall P (rs l)) →
  (∀ r, length (cs r) = length r - 2) →
  Shape u NX NY → Shape (slice2 rs cs u) (NX - 2) (NY - 2).
Proof.
  intros Hrs HP Hcs [Hu Hr]. split.
  - unfold slice2. rewrite length_fmap, Hrs. lia.
  - unfold slice2. apply Forall_fmap. apply HP.
    eapply Forall_impl; [exact Hr|]. intros r Hlen. unfold compose. rewrite Hcs. simpl in Hlen. lia.
Qed.

Lemma Forall_mid (P : list float → Prop) (l : ndarray) : Forall P l → Forall P (mid l).
Proof. intros H. unfold mid. by apply Forall_take, Forall_drop. Qed.

Lemma Forall_from2 (P : list float → Prop) (l : ndarray) : Forall P l → Forall P (from2 l).
Proof. intros H. unfold from2. by apply Forall_drop. Qed.

Lemma Forall_upto_m2 (P : list float → Prop) (l : ndarray) :
  Forall P l → Forall P (upto_m2 l).
Proof. intros H. unfold upto_m2. by apply Forall_take. Qed.

Lemma Shape_stencil_rhs dt u NX NY :
  Shape u NX NY → Shape (stencil_rhs dt u) (NX - 2) (NY - 2).
Proof.
  intros HS. unfold stencil_rhs, arr_add, arr_sub.
  repeat first
    [ apply Shape_zip_with | apply Shape_scal_mul ];
    (apply Shape_slice2;
      [ first [ apply length_mid | apply length_from2 | apply length_upto_m2 ]
      | first [ apply Forall_mid | apply Forall_from2 | apply Forall_upto_m2 ]
      | first [ apply length_mid | apply length_from2 | apply length_upto_m2 ]
      | exact HS ]).
Qed.

Section in_range.
Context (u : ndarray) (NX NY i j : nat).
Hypothesis HS : Shape u NX NY.
Hypothesis Hi : i < NX - 2.
Hypothesis Hj : j < NY - 2.

Lemma cell_opt_mid_mid : cell_opt (slice2 mid mid u) i j = Some (cell u (S i) (S j)).
Proof.
  destruct (Shape_lookup _ _ _ (S i) HS) as (r & Hr & Hlen); [lia|].
  unfold cell_opt, slice2. rewrite list_lookup_fmap, lookup_mid by (destruct HS; lia).
  rewrite Hr. simpl. rewrite lookup_mid by lia.
  rewrite <- (Shape_cell_opt u NX NY (S i) (S j)) by (done || lia).
  unfold cell_opt. by rewrite Hr.
Qed.

Lemma cell_opt_from2_mid : cell_opt (slice2 from2 mid u) i j = Some (cell u (S (S i)) (S j)).
Proof.
  destruct (Shape_lookup _ _ _ (S (S i)) HS) as (r & Hr & Hlen); [lia|].
  unfold cell_opt, slice2. rewrite list_lookup_fmap, lookup_from2.
  rewrite Hr. simpl. rewrite lookup_mid by lia.
  rewrite <- (Shape_cell_opt u NX NY (S (S i)) (S j)) by (done || lia).
  unfold cell_opt. by rewrite Hr.
Qed.

Lemma cell_opt_upto_m2_mid : cell_opt (slice2 upto_m2 mid u) i j = Some (cell u i (S j)).
Proof.
  destruct (Shape_lookup _ _ _ i HS) as (r & Hr & Hlen); [lia|].
  unfold cell_opt, slice2. rewrite list_lookup_fmap, lookup_upto_m2 by (destruct HS; lia).
  rewrite Hr. simpl. rewrite lookup_mid by lia.
  rewrite <- (Shape_cell_opt u NX NY i (S j)) by (done || lia).
  unfold cell_opt. by rewrite Hr.
Qed.

Lemma cell_opt_mid_from2 : cell_opt (slice2 mid from2 u) i j = Some (cell u (S i) (S (S j))).
Proof.
  destruct (Shape_lookup _ _ _ (S i) HS) as (r & Hr & Hlen); [lia|].
  unfold cell_opt, slice2. rewrite list_lookup_fmap, lookup_mid by (destruct HS; lia).
  rewrite Hr. simpl. rewrite lookup_from2.
  rewrite <- (Shape_cell_opt u NX NY (S i) (S (S j))) by (done || lia).
  unfold cell_opt. by rewrite Hr.
Qed.

Lemma cell_opt_mid_upto_m2 : cell_opt (slice2 mid upto_m2 u) i j = Some (cell u (S i) j).
Proof.
  destruct (Shape_lookup _ _ _ (S i) HS) as (r & Hr & Hlen); [lia|].
  unfold cell_opt, slice2. rewrite list_lookup_fmap, lookup_mid by (destruct HS; lia).
  rewrite Hr. simpl. rewrite lookup_upto_m2 by lia.
  rewrite <- (Shape_cell_opt u NX NY (S i) j) by (done || lia).
  unfold cell_opt. by rewrite Hr.
Qed.

(** Entry (i, j) of the right-hand side is the 5-point value of cell
    (i + 1, j + 1), every operand read from [u]. *)
Lemma cell_opt_stencil_rhs dt :
  cell_opt (stencil_rhs dt u) i j = Some (five_point dt u (S i) (S j)).
Proof.
  unfold stencil_rhs, arr_add, arr_sub.
  rewrite !cell_opt_zip_with, !cell_opt_scal_mul, !cell_opt_zip_with,
    !cell_opt_scal_mul.
  rewrite cell_opt_mid_mid, cell_opt_from2_mid, cell_opt_upto_m2_mid,
    cell_opt_mid_from2, cell_opt_mid_upto_m2.
  simpl. unfold five_point.
  replace (S i + 1) with (S (S i)) by lia.
  replace (S i - 1) with i by lia.
  replace (S j + 1) with (S (S j)) by lia.
  replace (S j - 1) with j by lia.
  reflexivity.
Qed.
End in_range.
End stencil_facts.

Section interior_facts.
Context (dt : float) (u : ndarray) (NX NY : nat).
Hypothesis HS : Shape u NX NY.

(** Row [i] of the updated copy. *)
Lemma lookup_interior_update_in i x :
  1 ≤ i → i + 1 < NX → u !! i = Some x →
  ∃ y, stencil_rhs dt u !! (i - 1) = Some y ∧ length y = NY - 2 ∧
       interior_update dt u !! i = Some (assign_mid (λ _ b, b) x y).
Proof.
  intros H1 H2 Hx.
  pose proof (Shape_stencil_rhs dt u NX NY HS) as HV.
  destruct (Shape_lookup _ _ _ (i - 1) HV) as (y & Hy & Hleny); [lia|].
  exists y. split; [done|]. split; [done|].
  unfold interior_update, assign_interior.
  apply lookup_assign_mid_in; try done.
  - destruct HV as [-> _], HS as [-> _]. done.
  - destruct HS as [-> _]. done.
Qed.

Lemma lookup_interior_update_out i :
  i = 0 ∨ NX ≤ i + 1 → interior_update dt u !! i = u !! i.
Proof.
  intros Hi.
  pose proof (Shape_stencil_rhs dt u NX NY HS) as HV.
  unfold interior_update, assign_interior.
  apply lookup_assign_mid_out.
  - destruct HV as [-> _], HS as [-> _]. done.
  - destruct HS as [-> _]. done.
Qed.

Lemma Shape_interior_update : Shape (interior_update dt u) NX NY.
Proof.
  pose proof (Shape_stencil_rhs dt u NX NY HS) as HV.
  apply Shape_intro.
  - unfold interior_update, assign_interior. rewrite length_assign_mid.
    + by destruct HS.
    + destruct HV as [-> _], HS as [-> _]. done.
  - intros i r Hr.
    destruct (decide (1 ≤ i ∧ i + 1 < NX)) as [[H1 H2]|Hout].
    + destruct (Shape_lookup _ _ _ i HS) as (x & Hx & Hlenx); [lia|].
      destruct (lookup_interior_update_in i x H1 H2 Hx) as (y & _ & Hleny & Hrow).
      rewrite Hrow in Hr. injection Hr as <-.
      rewrite length_assign_mid; [done|lia].
    + rewrite lookup_interior_update_out in Hr by lia.
      by eapply Shape_row.
Qed.

(** The interior cells take the 5-point value computed from [u]; the cells of
    the first and last row and column are copied. *)
Lemma cell_interior_update i j :
  i < NX → j < NY →
  cell (interior_update dt u) i j
  = if decide (1 ≤ i ∧ i + 1 < NX ∧ 1 ≤ j ∧ j + 1 < NY)
    then five_point dt u i j else cell u i j.
Proof.
  intros Hi Hj. apply cell_opt_cell.
  destruct (Shape_lookup _ _ _ i HS Hi) as (x & Hx & Hlenx).
  pose proof (Shape_cell_opt u NX NY i j HS Hi Hj) as Hc.
  unfold cell_opt in Hc. rewrite Hx in Hc. simpl in Hc.
  unfold cell_opt.
  destruct (decide (1 ≤ i ∧ i + 1 < NX)) as [[H1 H2]|Hout].
  - destruct (lookup_interior_update_in i x H1 H2 Hx) as (y & Hy & Hleny & Hrow).
    rewrite Hrow. simpl.
    destruct (decide (1 ≤ j ∧ j + 1 < NY)) as [[H3 H4]|Hjout].
    + rewrite decide_True by lia.
      pose proof (cell_opt_stencil_rhs u NX NY (i - 1) (j - 1) HS
                    ltac:(lia) ltac:(lia) dt) as Hst.
      unfold cell_opt in Hst. rewrite Hy in Hst. simpl in Hst.
      replace (S (i - 1)) with i in Hst by lia.
      replace (S (j - 1)) with j in Hst by lia.
      apply (lookup_assign_mid_in (λ _ b : float, b) x y j (cell u i j)
               (five_point dt u i j)); [lia|lia|lia|done|done].
    + rewrite decide_False by lia.
      rewrite lookup_assign_mid_out by lia. done.
  - rewrite decide_False by lia.
    rewrite lookup_interior_update_out by lia. rewrite Hx. done.
Qed.
End interior_facts.

Section stamp_facts.
Implicit Types (u v new : ndarray) (r row : list float) (c : float).

Lemma length_fill c r : length (fill c r) = length r.
Proof. unfold fill. by rewrite length_fmap. Qed.

Lemma lookup_fill c r j : j < length r → fill c r !! j = Some c.
Proof.
  intros Hj. unfold fill. rewrite list_lookup_fmap.
  destruct (lookup_lt_is_Some_2 r j Hj) as [x ->]. done.
Qed.

Lemma neg_start_le b n : neg_start b n ≤ n.
Proof. unfold neg_start. case_decide; lia. Qed.

Lemma length_set_rows_upto t c new : length (set_rows_upto t c new) = length new.
Proof.
  unfold set_rows_upto. rewrite length_app, length_fmap, length_take, length_drop. lia.
Qed.

Lemma lookup_set_rows_upto t c new i r :
  new !! i = Some r →
  set_rows_upto t c new !! i = Some (if decide (i < t) then fill c r else r).
Proof.
  intros Hr. pose proof (lookup_lt_Some _ _ _ Hr) as Hi. unfold set_rows_upto.
  case_decide.
  - rewrite lookup_app_l by (rewrite length_fmap, length_take; lia).
    by rewrite list_lookup_fmap, lookup_take_lt, Hr.
  - rewrite lookup_app_r by (rewrite length_fmap, length_take; lia).
    rewrite length_fmap, length_take, lookup_drop, <- Hr. f_equal. lia.
Qed.

Lemma length_set_rows_last b c new : length (set_rows_last b c new) = length new.
Proof.
  unfold set_rows_last. pose proof (neg_start_le b (length new)).
  rewrite length_app, length_fmap, length_take, length_drop. lia.
Qed.

Lemma lookup_set_rows_last b c new i r :
  new !! i = Some r →
  set_rows_last b c new !! i
  = Some (if decide (neg_start b (length new) ≤ i) then fill c r else r).
Proof.
  intros Hr. pose proof (lookup_lt_Some _ _ _ Hr) as Hi. unfold set_rows_last.
  pose proof (neg_start_le b (length new)).
  case_decide.
  - rewrite lookup_app_r by (rewrite length_take; lia).
    rewrite length_take, list_lookup_fmap, lookup_drop.
    replace (_ + _) with i by lia. by rewrite Hr.
  - rewrite lookup_app_l by (rewrite length_take; lia).
    by rewrite lookup_take_lt by lia.
Qed.

(** [row[0] = c; row[-1] = c] on a row with an entry. *)
Lemma lookup_sides c r j :
  j < length r →
  <[length (<[0:=c]> r) - 1 := c]> (<[0:=c]> r) !! j
  = if decide (j = 0 ∨ j = length r - 1) then Some c else r !! j.
Proof.
  intros Hj. rewrite length_insert.
  rewrite list_lookup_insert, length_insert.
  case_decide as H1.
  - rewrite decide_True by lia. done.
  - rewrite list_lookup_insert. case_decide as H2.
    + rewrite decide_True by lia. done.
    + rewrite decide_False by lia. done.
Qed.

(** An array built row by row from [u] by length-preserving functions keeps
    the shape of [u]. *)
Lemma Shape_rowwise (F : nat → list float → list float) u v NX NY :
  Shape u NX NY → length v = length u →
  (∀ i r, u !! i = Some r → v !! i = Some (F i r)) →
  (∀ i r, length (F i r) = length r) →
  Shape v NX NY.
Proof.
  intros HS Hlen Hrow HF. apply Shape_intro.
  - destruct HS as [<- _]. done.
  - intros i r Hr. pose proof (lookup_lt_Some _ _ _ Hr) as Hi.
    destruct (lookup_lt_is_Some_2 u i) as [x Hx]; [lia|].
    rewrite (Hrow _ _ Hx) in Hr. injection Hr as <-.
    rewrite HF. by eapply Shape_row.
Qed.

Lemma ncols_Shape u NX NY : Shape u NX NY → 0 < NX → ncols u = NY.
Proof.
  intros [Hl Hr] HNX. destruct u as [|r t]; simpl in *; [lia|].
  by inversion Hr.
Qed.
End stamp_facts.

(** * The boundary stamps and the step of heat_pro_visualization.py *)

Section heat_pro_facts.
Context (dt hot_T cold_T : float) (top_band bottom_band : nat).

Local Abbreviation reapply := (HeatPro.reapply_boundaries hot_T cold_T top_band bottom_band).
Local Abbreviation step := (HeatPro.step_heat dt hot_T cold_T top_band bottom_band).

(** On an array with a row and a column the four assignments go through, keep
    the shape, and leave in each cell the value of the last assignment that
    covers it: the side columns hold [cold_T], the rest of the two bands
    [hot_T], every other cell its old value. *)
Lemma reapply_boundaries_cells new NX NY :
  Shape new NX NY → 0 < NX → 0 < NY →
  ∃ g, reapply new = Ok g ∧ Shape g NX NY ∧
    ∀ i j, i < NX → j < NY →
      cell g i j
      = if decide (j = 0 ∨ j = NY - 1) then cold_T
        else if decide (i < top_band ∨ neg_start bottom_band NX ≤ i) then hot_T
        else cell new i j.
Proof.
  intros HS HNX HNY.
  set (F := λ (i : nat) (r : list float),
    let r1 := if decide (i < top_band) then fill hot_T r else r in
    let r2 := if decide (neg_start bottom_band NX ≤ i) then fill hot_T r1 else r1 in
    <[length (<[0:=cold_T]> r2) - 1 := cold_T]> (<[0:=cold_T]> r2)).
  set (n2 := set_rows_last bottom_band hot_T (set_rows_upto top_band hot_T new)).
  set (g := set_col_last cold_T (set_col_first cold_T n2)).
  assert (length new = NX) as Hlen by (by destruct HS).
  assert (Hrow : ∀ i r, new !! i = Some r → g !! i = Some (F i r)).
  { intros i r Hr. unfold g, set_col_last, set_col_first, n2.
    rewrite !list_lookup_fmap.
    rewrite (lookup_set_rows_last _ _ _ _ _ (lookup_set_rows_upto top_band hot_T _ _ _ Hr)).
    rewrite length_set_rows_upto, Hlen. done. }
  assert (HF : ∀ i r, length (F i r) = length r).
  { intros i r. unfold F. simpl. rewrite !length_insert.
    repeat case_decide; rewrite ?length_fill; done. }
  assert (Hlg : length g = length new).
  { unfold g, set_col_last, set_col_first, n2.
    by rewrite !length_fmap, length_set_rows_last, length_set_rows_upto. }
  assert (Shape n2 NX NY) as HS2.
  { apply (Shape_rowwise
      (λ i r, let r1 := if decide (i < top_band) then fill hot_T r else r in
              if decide (neg_start bottom_band NX ≤ i) then fill hot_T r1 else r1)
      new); [done| | |].
    - unfold n2. by rewrite length_set_rows_last, length_set_rows_upto.
    - intros i r Hr. unfold n2.
      rewrite (lookup_set_rows_last _ _ _ _ _ (lookup_set_rows_upto top_band hot_T _ _ _ Hr)).
      rewrite length_set_rows_upto, Hlen. done.
    - intros i r. simpl. repeat case_decide; rewrite ?length_fill; done. }
  exists g. split; [|split].
  - unfold HeatPro.reapply_boundaries. fold n2.
    rewrite (ncols_Shape _ _ _ HS2 HNX). rewrite decide_False by lia. done.
  - by apply (Shape_rowwise F new).
  - intros i j Hi Hj. apply cell_opt_cell.
    destruct (Shape_lookup _ _ _ i HS Hi) as (r & Hr & Hlr).
    pose proof (Shape_cell_opt new NX NY i j HS Hi Hj) as Hc.
    unfold cell_opt in Hc. rewrite Hr in Hc. simpl in Hc.
    unfold cell_opt. rewrite (Hrow _ _ Hr). simpl. unfold F. simpl.
    rewrite lookup_sides by (repeat case_decide; rewrite ?length_fill; lia).
    assert (length (if decide (neg_start bottom_band NX ≤ i)
                    then fill hot_T (if decide (i < top_band) then fill hot_T r else r)
                    else if decide (i < top_band) then fill hot_T r else r) = NY) as ->.
    { repeat case_decide; rewrite ?length_fill; done. }
    destruct (decide (j = 0 ∨ j = NY - 1)); [done|].
    destruct (decide (i < top_band ∨ neg_start bottom_band NX ≤ i)) as [Hd|Hd].
    + destruct (decide (neg_start bottom_band NX ≤ i)) as [Hb|Hb].
      * apply lookup_fill. case_decide; rewrite ?length_fill; lia.
      * rewrite decide_True by lia. apply lookup_fill. lia.
    + rewrite !decide_False by lia. done.
Qed.

(** The four assignments, done again, change nothing. *)
Lemma reapply_boundaries_twice new NX NY :
  Shape new NX NY → 0 < NX → 0 < NY →
  ∃ g, reapply new = Ok g ∧ reapply g = Ok g.
Proof.
  intros HS HNX HNY.
  destruct (reapply_boundaries_cells new NX NY HS HNX HNY) as (g & Hg & HSg & Hcg).
  destruct (reapply_boundaries_cells g NX NY HSg HNX HNY) as (g' & Hg' & HSg' & Hcg').
  exists g. split; [done|]. rewrite Hg'. f_equal.
  apply (Shape_ext g' g NX NY HSg' HSg). intros i j Hi Hj.
  rewrite Hcg' by done. rewrite (Hcg i j Hi Hj).
  repeat case_decide; done.
Qed.

(** One step on an array with a row and a column. *)
Lemma step_heat_cells u NX NY :
  Shape u NX NY → 0 < NX → 0 < NY →
  ∃ g, step u = Ok g ∧ Shape g NX NY ∧
    ∀ i j, i < NX → j < NY →
      cell g i j
      = if decide (j = 0 ∨ j = NY - 1) then cold_T
        else if decide (i < top_band ∨ neg_start bottom_band NX ≤ i) then hot_T
        else if decide (1 ≤ i ∧ i + 1 < NX ∧ 1 ≤ j ∧ j + 1 < NY)
             then five_point dt u i j
             else cell u i j.
Proof.
  intros HS HNX HNY.
  pose proof (Shape_interior_update dt u NX NY HS) as HSi.
  destruct (reapply_boundaries_cells _ NX NY HSi HNX HNY) as (g & Hg & HSg & Hcg).
  exists g. split; [exact Hg|]. split; [done|].
  intros i j Hi Hj. rewrite (Hcg i j Hi Hj).
  by rewrite (cell_interior_update dt u NX NY HS i j Hi Hj).
Qed.
End heat_pro_facts.

(** * animate_heat.py is the step with bands of one row *)

Section animate_facts.
Context (dt hot_T cold_T : float).

Lemma alter_last_take_drop {A} (f : A → A) (l : list A) :
  alter f (length l - 1) l = take (length l - 1) l ++ (f <$> drop (length l - 1) l).
Proof.
  induction l as [|x t IH]; [done|].
  destruct t as [|y t']; [done|].
  replace (length (x :: y :: t') - 1) with (S (length (y :: t') - 1)) by (simpl; lia).
  remember (length (y :: t') - 1) as n eqn:Hn. remember (y :: t') as t eqn:Ht.
  simpl. f_equal. exact IH.
Qed.

Lemma set_row_first_band c (new : ndarray) : set_row_first c new = set_rows_upto 1 c new.
Proof. by destruct new. Qed.

Lemma set_row_last_band c (new : ndarray) : set_row_last c new = set_rows_last 1 c new.
Proof. unfold set_row_last, set_rows_last, neg_start. simpl. apply alter_last_take_drop. Qed.

Lemma animate_reapply_boundaries new :
  AnimateHeat.reapply_boundaries hot_T cold_T new
  = HeatPro.reapply_boundaries hot_T cold_T 1 1 new.
Proof.
  unfold AnimateHeat.reapply_boundaries, HeatPro.reapply_boundaries.
  rewrite set_row_first_band, set_row_last_band.
  destruct new as [|r t]; [done|]. done.
Qed.

Lemma animate_step_heat u :
  AnimateHeat.step_heat dt hot_T cold_T u = HeatPro.step_heat dt hot_T cold_T 1 1 u.
Proof. apply animate_reapply_boundaries. Qed.
End animate_facts.

(** * The loops *)

Section loop_facts.
Context (dt hot_T cold_T : float) (top_band bottom_band : nat) (NX NY : nat).
Hypothesis HNX : 0 < NX.
Hypothesis HNY : 0 < NY.

(** What every array returned by a step satisfies. *)
Lemma step_heat_boundary u :
  Shape u NX NY →
  ∃ g, HeatPro.step_heat dt hot_T cold_T top_band bottom_band u = Ok g ∧
    Shape g NX NY ∧
    ∀ i j, i < NX → j < NY →
      ((j = 0 ∨ j = NY - 1) → cell g i j = cold_T) ∧
      (0 < j → j + 1 < NY → (i < top_band ∨ NX ≤ i + bottom_band) →
       cell g i j = hot_T).
Proof.
  intros HS.
  destruct (step_heat_cells dt hot_T cold_T top_band bottom_band u NX NY HS HNX HNY)
    as (g & Hg & HSg & Hc).
  exists g. split; [done|]. split; [done|].
  intros i j Hi Hj. rewrite (Hc i j Hi Hj). split.
  - intros Hside. by rewrite decide_True.
  - intros H0 H1 Hband. rewrite decide_False by lia.
    rewrite decide_True; [done|]. unfold neg_start. case_decide; lia.
Qed.

Lemma run_loop_boundary snap_every n k u snapshots :
  0 < snap_every → Shape u NX NY →
  ∃ g snaps,
    HeatPro.run_loop dt hot_T cold_T top_band bottom_band snap_every n k u snapshots
    = Ok (g, snaps) ∧
    Shape g NX NY ∧
    (1 ≤ n →
     ∀ i j, i < NX → j < NY →
       ((j = 0 ∨ j = NY - 1) → cell g i j = cold_T) ∧
       (0 < j → j + 1 < NY → (i < top_band ∨ NX ≤ i + bottom_band) →
        cell g i j = hot_T)).
Proof.
  intros Hsnap. revert k u snapshots.
  induction n as [|n IH]; intros k u snapshots HS.
  - exists u, snapshots. split; [done|]. split; [done|]. lia.
  - destruct (step_heat_boundary u HS) as (u1 & Hu1 & HS1 & Hc1).
    simpl. rewrite Hu1. simpl. rewrite decide_False by lia.
    destruct (IH (S k) u1
                (if decide (k mod snap_every = 0) then snapshots ++ [u1] else snapshots)
                HS1) as (g & snaps & Hrun & HSg & Hcg).
    exists g, snaps. split; [done|]. split; [done|]. intros _.
    destruct n as [|n'].
    + simpl in Hrun. injection Hrun as <- _. done.
    + apply Hcg. lia.
Qed.

Lemma steps_boundary n u :
  Shape u NX NY →
  ∃ g, AnimateHeat.steps dt hot_T cold_T n u = Ok g ∧
    Shape g NX NY ∧
    (1 ≤ n →
     ∀ i j, i < NX → j < NY →
       ((j = 0 ∨ j = NY - 1) → cell g i j = cold_T) ∧
       (0 < j → j + 1 < NY → (i = 0 ∨ i = NX - 1) → cell g i j = hot_T)).
Proof.
  revert u. induction n as [|n IH]; intros u HS.
  - exists u. split; [done|]. split; [done|]. lia.
  - simpl. rewrite animate_step_heat.
    destruct (step_heat_cells dt hot_T cold_T 1 1 u NX NY HS HNX HNY)
      as (u1 & Hu1 & HS1 & Hc1).
    rewrite Hu1. simpl.
    destruct (IH u1 HS1) as (g & Hrun & HSg & Hcg).
    exists g. split; [done|]. split; [done|]. intros _.
    destruct n as [|n'].
    + simpl in Hrun. injection Hrun as <-.
      intros i j Hi Hj. rewrite (Hc1 i j Hi Hj). split.
      * intros Hside. by rewrite decide_True.
      * intros H0 H1 Hband. rewrite decide_False by lia.
        rewrite decide_True; [done|]. unfold neg_start. simpl. lia.
    + apply Hcg. lia.
Qed.
End loop_facts.

(** * The diffusion step: interior cells *)

(** C1, as the code has it.  After one [step_heat] of animate_heat.py every
    interior cell (i, j), 1 <= i < NX-1 and 1 <= j < NY-1, holds
    grid[i,j] + dt*(grid[i+1,j] + grid[i-1,j] + grid[i,j+1] + grid[i,j-1]
    - 4*grid[i,j]), every operand read from the grid of the previous step; the
    coefficient is [dt] alone.  After one [step_heat] of
    heat_pro_visualization.py the same holds for the interior cells that lie
    outside the two hot bands. *)
Theorem step_heat_interior_cell (dt hot_T cold_T : float) (top_band bottom_band : nat)
    (u : ndarray) (NX NY i j : nat) :
  Shape u NX NY → 1 ≤ i → i + 1 < NX → 1 ≤ j → j + 1 < NY →
  (∃ g, AnimateHeat.step_heat dt hot_T cold_T u = Ok g ∧
        cell g i j
        = (cell u i j
           + dt * (cell u (i + 1) j + cell u (i - 1) j + cell u i (j + 1)
                   + cell u i (j - 1) - 4 * cell u i j))%float) ∧
  (top_band ≤ i → 0 < bottom_band → i + bottom_band < NX →
   ∃ g, HeatPro.step_heat dt hot_T cold_T top_band bottom_band u = Ok g ∧
        cell g i j
        = (cell u i j
           + dt * (cell u (i + 1) j + cell u (i - 1) j + cell u i (j + 1)
                   + cell u i (j - 1) - 4 * cell u i j))%float).
Proof.
  intros HS H1 H2 H3 H4.
  assert (∀ tb bb, tb ≤ i → 0 < bb → i + bb < NX →
          ∃ g, HeatPro.step_heat dt hot_T cold_T tb bb u = Ok g ∧
               cell g i j = five_point dt u i j) as Hgen.
  { intros tb bb Ht Hb Hb'.
    destruct (step_heat_cells dt hot_T cold_T tb bb u NX NY HS) as (g & Hg & _ & Hc);
      [lia|lia|].
    exists g. split; [done|]. rewrite Hc by lia.
    rewrite decide_False by lia.
    rewrite decide_False by (unfold neg_start; case_decide; lia).
    rewrite decide_True by lia. done. }
  split.
  - rewrite animate_step_heat. apply Hgen; lia.
  - intros Ht Hb Hb'. by apply Hgen.
Qed.

Lemma step_heat_interior_cell_witness :
  (∃ g, AnimateHeat.step_heat 0.2 100 0 (constant_block 4 4 1) = Ok g ∧
        cell g 1 2
        = (cell (constant_block 4 4 1) 1 2
           + 0.2 * (cell (constant_block 4 4 1) (1 + 1) 2
                    + cell (constant_block 4 4 1) (1 - 1) 2
                    + cell (constant_block 4 4 1) 1 (2 + 1)
                    + cell (constant_block 4 4 1) 1 (2 - 1)
                    - 4 * cell (constant_block 4 4 1) 1 2))%float) ∧
  (1 ≤ 1 → 0 < 1 → 1 + 1 < 4 →
   ∃ g, HeatPro.step_heat 0.2 100 0 1 1 (constant_block 4 4 1) = Ok g ∧
        cell g 1 2
        = (cell (constant_block 4 4 1) 1 2
           + 0.2 * (cell (constant_block 4 4 1) (1 + 1) 2
                    + cell (constant_block 4 4 1) (1 - 1) 2
                    + cell (constant_block 4 4 1) 1 (2 + 1)
                    + cell (constant_block 4 4 1) 1 (2 - 1)
                    - 4 * cell (constant_block 4 4 1) 1 2))%float).
Proof.
  apply (step_heat_interior_cell 0.2 100 0 1 1 (constant_block 4 4 1) 4 4 1 2).
  - split; [reflexivity | repeat constructor].
  - lia.
  - lia.
  - lia.
  - lia.
Defined.

(** C1 as stated fails in heat_pro_visualization.py: on a 62 x 3 grid of zeros
    the interior cell (1, 1) lies in the top band of 30 rows and holds 100 after
    the step, where the stencil formula gives 0. *)
Lemma step_heat_band_cell_is_stamped :
  ∃ g, HeatPro.step_heat HeatPro.dt HeatPro.hot_T HeatPro.cold_T HeatPro.top_band
         HeatPro.bottom_band (constant_block 62 3 0) = Ok g ∧
       cell g 1 1 = 100%float ∧
       five_point HeatPro.dt (constant_block 62 3 0) 1 1 = 0%float ∧
       PrimFloat.eqb 100 0 = false.
Proof.
  eexists. split; [vm_compute; reflexivity|].
  repeat split; vm_compute; reflexivity.
Qed.

(** * The fixed edges after any number of steps *)

(** C2, as the code has it.  After n >= 1 steps, on a grid with a row and a
    column, every cell of the first and of the last column holds [cold_T], and
    every cell of the top band and of the bottom band outside these two columns
    holds [hot_T]; the cells where a band meets a side column hold [cold_T].
    This is so for the loop of heat_pro_visualization.py (bands of [top_band]
    and [bottom_band] rows) and for the steps of animate_heat.py (row 0 and
    row NX-1). *)
Theorem fixed_edges_after_steps (dt hot_T cold_T : float) (top_band bottom_band : nat)
    (snap_every n : nat) (u : ndarray) (NX NY : nat) :
  Shape u NX NY → 0 < NX → 0 < NY → 0 < snap_every → 1 ≤ n →
  (∃ g snaps,
     HeatPro.simulate dt hot_T cold_T top_band bottom_band n snap_every u = Ok (g, snaps) ∧
     ∀ i j, i < NX → j < NY →
       ((j = 0 ∨ j = NY - 1) → cell g i j = cold_T) ∧
       (0 < j → j + 1 < NY → (i < top_band ∨ NX ≤ i + bottom_band) →
        cell g i j = hot_T)) ∧
  (∃ g,
     AnimateHeat.steps dt hot_T cold_T n u = Ok g ∧
     ∀ i j, i < NX → j < NY →
       ((j = 0 ∨ j = NY - 1) → cell g i j = cold_T) ∧
       (0 < j → j + 1 < NY → (i = 0 ∨ i = NX - 1) → cell g i j = hot_T)).
Proof.
  intros HS HNX HNY Hsnap Hn. split.
  - destruct (run_loop_boundary dt hot_T cold_T top_band bottom_band NX NY HNX HNY
                snap_every n 0 u [u] Hsnap HS) as (g & snaps & Hrun & _ & Hc).
    exists g, snaps. split; [exact Hrun|]. by apply Hc.
  - destruct (steps_boundary dt hot_T cold_T NX NY HNX HNY n u HS) as (g & Hrun & _ & Hc).
    exists g. split; [exact Hrun|]. by apply Hc.
Qed.

Lemma fixed_edges_after_steps_witness :
  (∃ g snaps,
     HeatPro.simulate 0.15 100 0 2 2 3 2 (constant_block 6 4 1) = Ok (g, snaps) ∧
     ∀ i j, i < 6 → j < 4 →
       ((j = 0 ∨ j = 4 - 1) → cell g i j = 0%float) ∧
       (0 < j → j + 1 < 4 → (i < 2 ∨ 6 ≤ i + 2) → cell g i j = 100%float)) ∧
  (∃ g,
     AnimateHeat.steps 0.15 100 0 3 (constant_block 6 4 1) = Ok g ∧
     ∀ i j, i < 6 → j < 4 →
       ((j = 0 ∨ j = 4 - 1) → cell g i j = 0%float) ∧
       (0 < j → j + 1 < 4 → (i = 0 ∨ i = 6 - 1) → cell g i j = 100%float)).
Proof.
  apply (fixed_edges_after_steps 0.15 100 0 2 2 2 3 (constant_block 6 4 1) 6 4).
  - split; [reflexivity | repeat constructor].
  - lia.
  - lia.
  - lia.
  - lia.
Defined.

(** C2 as stated fails at the corners: after one step of animate_heat.py on a
    3 x 3 grid of zeros the cell (0, 0) of the top edge, whose fixed value is
    100, holds the value 0 of the left edge. *)
Lemma top_edge_corner_is_cold :
  ∃ g, AnimateHeat.step_heat AnimateHeat.dt AnimateHeat.hot_T AnimateHeat.cold_T
         (constant_block 3 3 0) = Ok g ∧
       cell g 0 0 = 0%float ∧
       cell g 0 1 = 100%float ∧
       AnimateHeat.hot_T = 100%float ∧
       PrimFloat.eqb 0 100 = false.
Proof.
  eexists. split; [vm_compute; reflexivity|].
  repeat split; vm_compute; reflexivity.
Qed.

(** * No stability check *)

(** C3, as the code has it.  Neither script checks dt: on a grid with a row and
    a column the loop of heat_pro_visualization.py (with a positive
    [snap_every]) and the steps of animate_heat.py return a grid of the same
    shape after any number of steps, whatever [dt] is. *)
Theorem run_returns_for_every_dt (dt hot_T cold_T : float) (top_band bottom_band : nat)
    (snap_every n : nat) (u : ndarray) (NX NY : nat) :
  Shape u NX NY → 0 < NX → 0 < NY → 0 < snap_every →
  (∃ g snaps,
     HeatPro.simulate dt hot_T cold_T top_band bottom_band n snap_every u = Ok (g, snaps) ∧
     Shape g NX NY) ∧
  (∃ g, AnimateHeat.steps dt hot_T cold_T n u = Ok g ∧ Shape g NX NY).
Proof.
  intros HS HNX HNY Hsnap. split.
  - destruct (run_loop_boundary dt hot_T cold_T top_band bottom_band NX NY HNX HNY
                snap_every n 0 u [u] Hsnap HS) as (g & snaps & Hrun & HSg & _).
    by exists g, snaps.
  - destruct (steps_boundary dt hot_T cold_T NX NY HNX HNY n u HS) as (g & Hrun & HSg & _).
    by exists g.
Qed.

Lemma run_returns_for_every_dt_witness :
  (∃ g snaps,
     HeatPro.simulate 0.2625 100 0 30 30 5 10 (constant_block 62 3 0) = Ok (g, snaps) ∧
     Shape g 62 3) ∧
  (∃ g, AnimateHeat.steps 0.2625 100 0 5 (constant_block 62 3 0) = Ok g ∧ Shape g 62 3).
Proof.
  apply (run_returns_for_every_dt 0.2625 100 0 30 30 10 5 (constant_block 62 3 0) 62 3).
  - split; [reflexivity | repeat constructor].
  - lia.
  - lia.
  - lia.
Defined.

(** C3 as stated fails: with dt = 0.2625, for which dt * 1 * 4 = 1.05, twenty
    steps of the loop of heat_pro_visualization.py and of animate_heat.py return
    normally, exactly as with dt = 0.2375 (dt * 1 * 4 = 0.95). *)
Lemma unstable_run_returns :
  PrimFloat.eqb (0.2625 * 1 * 4) 1.05 = true ∧
  returns (HeatPro.simulate 0.2625 HeatPro.hot_T HeatPro.cold_T HeatPro.top_band
             HeatPro.bottom_band 20 HeatPro.snap_every (constant_block 62 3 0)) = true ∧
  returns (AnimateHeat.steps 0.2625 AnimateHeat.hot_T AnimateHeat.cold_T 20
             (constant_block 5 5 0)) = true ∧
  PrimFloat.eqb (0.2375 * 1 * 4) 0.95 = true ∧
  returns (AnimateHeat.steps 0.2375 AnimateHeat.hot_T AnimateHeat.cold_T 20
             (constant_block 5 5 0)) = true.
Proof. repeat split; vm_compute; reflexivity. Qed.

(** * The order of the four boundary assignments *)

(** C7.  The boundary assignments are made in the order top, bottom, left,
    right, so the cells where a hot band meets a side column, the four corners
    among them, end with the value [cold_T] of the side assigned last, while the
    rest of each band holds [hot_T]; for heat_pro_visualization.py (thick
    bands) and for animate_heat.py (row 0 and row NX-1). *)
Theorem corners_hold_side_value (hot_T cold_T : float) (top_band bottom_band : nat)
    (new : ndarray) (NX NY : nat) :
  Shape new NX NY → 0 < NX → 0 < NY →
  (∃ g, HeatPro.reapply_boundaries hot_T cold_T top_band bottom_band new = Ok g ∧
        (∀ i, i < NX → cell g i 0 = cold_T ∧ cell g i (NY - 1) = cold_T) ∧
        (∀ i j, i < NX → 0 < j → j + 1 < NY → (i < top_band ∨ NX ≤ i + bottom_band) →
           cell g i j = hot_T)) ∧
  (∃ g, AnimateHeat.reapply_boundaries hot_T cold_T new = Ok g ∧
        cell g 0 0 = cold_T ∧ cell g 0 (NY - 1) = cold_T ∧
        cell g (NX - 1) 0 = cold_T ∧ cell g (NX - 1) (NY - 1) = cold_T ∧
        (∀ j, 0 < j → j + 1 < NY → cell g 0 j = hot_T ∧ cell g (NX - 1) j = hot_T)).
Proof.
  intros HS HNX HNY.
  assert (∀ tb bb,
    ∃ g, HeatPro.reapply_boundaries hot_T cold_T tb bb new = Ok g ∧
         (∀ i, i < NX → cell g i 0 = cold_T ∧ cell g i (NY - 1) = cold_T) ∧
         (∀ i j, i < NX → 0 < j → j + 1 < NY → (i < tb ∨ NX ≤ i + bb) →
            cell g i j = hot_T)) as Hgen.
  { intros tb bb.
    destruct (reapply_boundaries_cells hot_T cold_T tb bb new NX NY HS HNX HNY)
      as (g & Hg & _ & Hc).
    exists g. split; [done|]. split.
    - intros i Hi. rewrite !Hc by lia. rewrite !decide_True by lia. done.
    - intros i j Hi H0 H1 Hband. rewrite Hc by lia.
      rewrite decide_False by lia.
      rewrite decide_True; [done|]. unfold neg_start. case_decide; lia. }
  split; [apply Hgen|].
  rewrite animate_reapply_boundaries.
  destruct (Hgen 1 1) as (g & Hg & Hside & Hband).
  exists g. split; [done|].
  destruct (Hside 0 HNX) as [-> ->].
  destruct (Hside (NX - 1) ltac:(lia)) as [-> ->].
  repeat split; try done; apply Hband; lia.
Qed.

Lemma corners_hold_side_value_witness :
  (∃ g, HeatPro.reapply_boundaries 100 0 2 2 (constant_block 5 4 7) = Ok g ∧
        (∀ i, i < 5 → cell g i 0 = 0%float ∧ cell g i (4 - 1) = 0%float) ∧
        (∀ i j, i < 5 → 0 < j → j + 1 < 4 → (i < 2 ∨ 5 ≤ i + 2) →
           cell g i j = 100%float)) ∧
  (∃ g, AnimateHeat.reapply_boundaries 100 0 (constant_block 5 4 7) = Ok g ∧
        cell g 0 0 = 0%float ∧ cell g 0 (4 - 1) = 0%float ∧
        cell g (5 - 1) 0 = 0%float ∧ cell g (5 - 1) (4 - 1) = 0%float ∧
        (∀ j, 0 < j → j + 1 < 4 →
           cell g 0 j = 100%float ∧ cell g (5 - 1) j = 100%float)).
Proof.
  apply (corners_hold_side_value 100 0 2 2 (constant_block 5 4 7) 5 4).
  - split; [reflexivity | repeat constructor].
  - lia.
  - lia.
Defined.

(** * Idempotence of the boundary assignments *)

(** C8.  On a grid with a row and a column the four boundary assignments, made
    a second time on their own result, return that result unchanged; for both
    scripts. *)
Theorem reapply_boundaries_idempotent (hot_T cold_T : float) (top_band bottom_band : nat)
    (new : ndarray) (NX NY : nat) :
  Shape new NX NY → 0 < NX → 0 < NY →
  (∃ g, HeatPro.reapply_boundaries hot_T cold_T top_band bottom_band new = Ok g ∧
        HeatPro.reapply_boundaries hot_T cold_T top_band bottom_band g = Ok g) ∧
  (∃ g, AnimateHeat.reapply_boundaries hot_T cold_T new = Ok g ∧
        AnimateHeat.reapply_boundaries hot_T cold_T g = Ok g).
Proof.
  intros HS HNX HNY. split.
  - by apply (reapply_boundaries_twice hot_T cold_T top_band bottom_band new NX NY).
  - destruct (reapply_boundaries_twice hot_T cold_T 1 1 new NX NY HS HNX HNY)
      as (g & H1 & H2).
    exists g. by rewrite !animate_reapply_boundaries.
Qed.

Lemma reapply_boundaries_idempotent_witness :
  (∃ g, HeatPro.reapply_boundaries 100 0 2 2 (constant_block 5 4 7) = Ok g ∧
        HeatPro.reapply_boundaries 100 0 2 2 g = Ok g) ∧
  (∃ g, AnimateHeat.reapply_boundaries 100 0 (constant_block 5 4 7) = Ok g ∧
        AnimateHeat.reapply_boundaries 100 0 g = Ok g).
Proof.
  apply (reapply_boundaries_idempotent 100 0 2 2 (constant_block 5 4 7) 5 4).
  - split; [reflexivity | repeat constructor].
  - lia.
  - lia.
Defined.

(** * Facts about the string operations of load_block *)

Section string_facts.
Implicit Types (s t : string) (c : ascii).

Lemma append_nil_l s : EmptyString +:+ s = s.
Proof. reflexivity. Qed.

Lemma append_cons c s t : String c s +:+ t = String c (s +:+ t).
Proof. reflexivity. Qed.

Lemma append_nil_r s : s +:+ EmptyString = s.
Proof. induction s as [|c s IH]; [done|]. by rewrite append_cons, IH. Qed.

(** [lstrip] removes a prefix of white space and stops at the first other
    character. *)
Lemma lstrip_spec s :
  ∃ l, s = l +:+ lstrip s ∧
       Forall (λ c, py_isspace c = true) (chars l) ∧
       (lstrip s = EmptyString ∨ ∃ c t, lstrip s = String c t ∧ py_isspace c = false).
Proof.
  induction s as [|c s (l & Hl & Hsp & Hend)].
  - exists EmptyString. simpl. auto.
  - simpl. destruct (py_isspace c) eqn:Hc.
    + exists (String c l). rewrite append_cons, <- Hl. split; [done|].
      split; [by constructor|done].
    + exists EmptyString. rewrite append_nil_l. split; [done|]. split; [constructor|].
      right. by exists c, s.
Qed.

(** [rstrip] removes a suffix of white space and stops at the last other
    character. *)
Lemma rstrip_spec s :
  ∃ r, s = rstrip s +:+ r ∧
       Forall (λ c, py_isspace c = true) (chars r) ∧
       (rstrip s = EmptyString ∨
        ∃ t c, rstrip s = t +:+ String c EmptyString ∧ py_isspace c = false).
Proof.
  induction s as [|c s (r & Hr & Hsp & Hend)].
  - exists EmptyString. simpl. auto.
  - simpl. destruct (rstrip s) as [|c' t'] eqn:Hrs.
    + rewrite append_nil_l in Hr. subst r. destruct (py_isspace c) eqn:Hc.
      * exists (String c s). rewrite append_nil_l. split; [done|].
        split; [by constructor|by left].
      * exists s. rewrite append_cons, append_nil_l. split; [done|]. split; [done|].
        right. by exists EmptyString, c.
    + exists r. split; [by rewrite append_cons, <- Hr|]. split; [done|].
      right. destruct Hend as [|(t & c0 & Ht & Hc0)]; [done|].
      exists (String c t), c0. by rewrite append_cons, Ht.
Qed.

Lemma rstrip_head c t :
  py_isspace c = false → ∃ t', rstrip (String c t) = String c t'.
Proof.
  intros Hc. simpl. destruct (rstrip t).
  - rewrite Hc. by eexists.
  - by eexists.
Qed.

(** [strip]: white space removed at both ends, and nowhere else. *)
Lemma strip_spec s :
  ∃ l r, s = l +:+ strip s +:+ r ∧
         Forall (λ c, py_isspace c = true) (chars l) ∧
         Forall (λ c, py_isspace c = true) (chars r) ∧
         (strip s = EmptyString ∨
          (∃ c t, strip s = String c t ∧ py_isspace c = false) ∧
          (∃ t c, strip s = t +:+ String c EmptyString ∧ py_isspace c = false)).
Proof.
  destruct (lstrip_spec s) as (l & Hl & Hlsp & Hlend).
  destruct (rstrip_spec (lstrip s)) as (r & Hr & Hrsp & Hrend).
  exists l, r. unfold strip. split; [by rewrite <- Hr|].
  split; [done|]. split; [done|].
  destruct Hlend as [He|(c & t & Hct & Hc)].
  - left. by rewrite He.
  - right. split; [|destruct Hrend as [He|?]; [|done]].
    + rewrite Hct. destruct (rstrip_head c t Hc) as [t' ->]. by exists c, t'.
    + rewrite Hct in He. destruct (rstrip_head c t Hc) as [t' Ht']. congruence.
Qed.

(** [endswith] and [line[:-1]]. *)
Lemma endswith_true s c :
  endswith s c = true → s = drop_last s +:+ String c EmptyString.
Proof.
  induction s as [|c0 s IH]; [done|].
  destruct s as [|c1 s'].
  - simpl. intros H. apply bool_decide_eq_true in H. by subst.
  - intros H. change (endswith (String c1 s') c = true) in H.
    change (drop_last (String c0 (String c1 s')))
      with (String c0 (drop_last (String c1 s'))).
    rewrite append_cons. f_equal. exact (IH H).
Qed.

Lemma endswith_false s t c : endswith s c = false → s ≠ t +:+ String c EmptyString.
Proof.
  intros H ->. revert H. induction t as [|c0 t IH].
  - rewrite append_nil_l. simpl. intros H. apply bool_decide_eq_false in H. done.
  - rewrite append_cons. simpl. destruct (t +:+ String c EmptyString) eqn:E; [|done].
    destruct t; done.
Qed.

(** [split] never returns the empty list, its pieces hold no separator, and
    joining them with the separator gives the string back. *)
Lemma split_nonempty s c : split s c ≠ [].
Proof.
  destruct s as [|c0 s]; simpl; [done|].
  case_decide; [done|]. by destruct (split s c).
Qed.

Lemma join_cons c0 c p ps : join c (String c0 p :: ps) = String c0 (join c (p :: ps)).
Proof. by destruct ps. Qed.

Lemma join_split s c : join c (split s c) = s.
Proof.
  induction s as [|c0 s IH]; [done|]. simpl.
  pose proof (split_nonempty s c) as Hne.
  case_decide as Hc.
  - subst c0. destruct (split s c) as [|p ps]; [done|].
    change (join c (EmptyString :: p :: ps)) with (String c (join c (p :: ps))).
    by rewrite IH.
  - destruct (split s c) as [|p ps]; [done|].
    by rewrite join_cons, IH.
Qed.

Lemma split_no_sep s c : Forall (λ p, c ∉ chars p) (split s c).
Proof.
  induction s as [|c0 s IH]; simpl.
  - constructor; [|constructor]. simpl. apply not_elem_of_nil.
  - case_decide as Hc.
    + constructor; [|done]. simpl. apply not_elem_of_nil.
    + destruct (split s c) as [|p ps] eqn:E; [by destruct (split_nonempty s c)|].
      inversion IH as [|? ? Hp Hps]; subst.
      constructor; [|done]. simpl. rewrite elem_of_cons. intros [->|?]; done.
Qed.

(** A string of separators alone splits into empty pieces. *)
Lemma split_only_sep s c :
  Forall (λ c0, c0 = c) (chars s) → Forall (λ p, p = EmptyString) (split s c).
Proof.
  induction s as [|c0 s IH]; simpl; intros H.
  - by repeat constructor.
  - inversion H as [|? ? Hc Hs]; subst. rewrite decide_True by done.
    constructor; [done|]. by apply IH.
Qed.

Lemma drop_last_only_sep s c :
  Forall (λ c0, c0 = c) (chars s) → Forall (λ c0, c0 = c) (chars (drop_last s)).
Proof.
  induction s as [|c0 s IH]; [done|]. intros H.
  inversion H as [|? ? Hc Hs]; subst.
  destruct s as [|c1 s']; [constructor|].
  change (drop_last (String c (String c1 s')))
    with (String c (drop_last (String c1 s'))).
  simpl. constructor; [done|]. by apply IH.
Qed.
Lemma chars_app (s t : string) : chars (s +:+ t) = chars s ++ chars t.
Proof. induction s as [|c s IH]; [done|]. rewrite append_cons. simpl. by rewrite IH. Qed.
End string_facts.

(** * The loop of load_block *)

Section load_facts.
Context (py_float : string → option float).

Lemma floats_spec parts row :
  floats py_float parts = Ok row ↔ Forall2 (λ p x, py_float p = Some x) parts row.
Proof.
  revert row. induction parts as [|p ps IH]; intros row; simpl.
  - split.
    + intros [= <-]. constructor.
    + intros H. by inversion H.
  - destruct (py_float p) as [x|] eqn:Hp.
    + destruct (floats py_float ps) as [xs|e] eqn:Hfs.
      * split.
        -- intros [= <-]. constructor; [done|]. by apply IH.
        -- intros H. inversion H as [|? y ? ys Hy Hys]; subst.
           apply IH in Hys. congruence.
      * split; [done|].
        intros H. inversion H as [|? y ? ys Hy Hys]; subst.
        apply IH in Hys. done.
    + split; [done|]. intros H. inversion H; congruence.
Qed.

Lemma floats_total parts :
  Forall (λ p, is_Some (py_float p)) parts →
  ∃ row, floats py_float parts = Ok row ∧ length row = length parts.
Proof.
  induction 1 as [|p ps [x Hx] _ (row & Hrow & Hlen)]; simpl.
  - by exists [].
  - rewrite Hx, Hrow. exists (x :: row). simpl. by rewrite Hlen.
Qed.

(** The only exception of the list comprehension is the ValueError of a piece
    that [float] refuses. *)
Lemma floats_raise parts e :
  floats py_float parts = Raise e →
  e = ValueError ∧ ∃ p, p ∈ parts ∧ py_float p = None.
Proof.
  revert e. induction parts as [|p ps IH]; intros e; simpl; [done|].
  destruct (py_float p) as [x|] eqn:Hp.
  - destruct (floats py_float ps) as [xs|e'] eqn:Hps; [done|].
    intros [= <-]. destruct (IH e' eq_refl) as (-> & q & Hq & Hnone).
    split; [done|]. exists q. split; [by apply list_elem_of_further|done].
  - intros [= <-]. split; [done|]. exists p. split; [apply list_elem_of_here|done].
Qed.

Lemma floats_refused parts p :
  p ∈ parts → py_float p = None → floats py_float parts = Raise ValueError.
Proof.
  intros Hin Hnone. induction Hin as [p ps|p q ps _ IH]; simpl.
  - by rewrite Hnone.
  - destruct (py_float q); [|done]. by rewrite IH.
Qed.

Lemma parts_of_nonempty s : Forall (λ p, p ≠ EmptyString) (parts_of s).
Proof.
  apply Forall_forall. intros p Hp. unfold parts_of in Hp.
  by apply list_elem_of_filter in Hp as [? _].
Qed.

(** One line at a time: the rows a line contributes are put after the rows
    built so far. *)
Lemma load_loop_cons rows line rest :
  load_loop py_float rows (line :: rest)
  = match load_rows py_float [line] with
    | Ok r => load_loop py_float (rows ++ r) rest
    | Raise e => Raise e
    end.
Proof.
  unfold load_rows. simpl. case_decide.
  - by rewrite app_nil_r.
  - by destruct (floats py_float (parts_of (strip line))).
Qed.

Lemma load_loop_acc rows f :
  load_loop py_float rows f
  = match load_loop py_float [] f with
    | Ok more => Ok (rows ++ more)
    | Raise e => Raise e
    end.
Proof.
  revert rows. induction f as [|line rest IH]; intros rows.
  - simpl. by rewrite app_nil_r.
  - rewrite !load_loop_cons. destruct (load_rows py_float [line]) as [r|e]; [|done].
    rewrite (IH (rows ++ r)), (IH ([] ++ r)).
    destruct (load_loop py_float [] rest); [|done].
    simpl. by rewrite app_assoc.
Qed.

Lemma load_loop_app rows f1 f2 :
  load_loop py_float rows (f1 ++ f2)
  = match load_loop py_float rows f1 with
    | Ok r1 => load_loop py_float r1 f2
    | Raise e => Raise e
    end.
Proof.
  revert rows. induction f1 as [|line rest IH]; intros rows; [done|].
  rewrite <- app_comm_cons, !load_loop_cons.
  destruct (load_rows py_float [line]); [apply IH|done].
Qed.

(** When every non-empty field of every line is accepted by [float], the loop
    returns, with one row for each line that is not blank. *)
Lemma load_loop_total rows f :
  Forall (λ l, Forall (λ p, is_Some (py_float p)) (parts_of (strip l))) f →
  ∃ more, load_loop py_float rows f = Ok (rows ++ more) ∧
          length <$> more
          = (λ l, length (parts_of (strip l)))
              <$> filter (λ l, strip l ≠ EmptyString) f.
Proof.
  intros Hf. revert rows. induction Hf as [|line rest Hline _ IH]; intros rows.
  - exists []. simpl. by rewrite app_nil_r.
  - simpl. case_decide as Hblank.
    + destruct (IH rows) as (more & Hmore & Hlen). exists more.
      split; [done|]. by rewrite filter_cons_False by (intros ?; done).
    + destruct (floats_total _ Hline) as (row & Hrow & Hlenrow). rewrite Hrow.
      destruct (IH (rows ++ [row])) as (more & Hmore & Hlen).
      exists (row :: more). split.
      * rewrite Hmore. by rewrite <- app_assoc.
      * rewrite filter_cons_True by done. rewrite !fmap_cons. by rewrite Hlenrow, Hlen.
Qed.

(** What the loop returns for a line and the lines after it. *)
Lemma load_loop_blank rows line rest :
  strip line = EmptyString →
  load_loop py_float rows (line :: rest)
  = (more ← load_loop py_float [] rest; Ok (rows ++ more)).
Proof.
  intros Hblank. simpl. rewrite decide_True by done. rewrite load_loop_acc.
  by destruct (load_loop py_float [] rest).
Qed.

Lemma load_loop_row rows line rest row :
  strip line ≠ EmptyString →
  floats py_float (parts_of (strip line)) = Ok row →
  load_loop py_float rows (line :: rest)
  = (more ← load_loop py_float [] rest; Ok (rows ++ row :: more)).
Proof.
  intros Hline Hrow. simpl. rewrite decide_False by done. rewrite Hrow, load_loop_acc.
  destruct (load_loop py_float [] rest) as [more|e]; [|done].
  simpl. by rewrite <- app_assoc.
Qed.

(** The rows of a file: one for each line that is not blank, in the order of
    the lines, holding the values of the line's non-empty fields. *)
Lemma load_rows_spec f out :
  load_rows py_float f = Ok out ↔
  Forall2 (λ l row, Forall2 (λ p x, py_float p = Some x) (parts_of (strip l)) row)
    (filter (λ l, strip l ≠ EmptyString) f) out.
Proof.
  unfold load_rows. revert out. induction f as [|line rest IH]; intros out.
  - simpl. split.
    + intros [= <-]. constructor.
    + intros H. by inversion H.
  - destruct (decide (strip line = EmptyString)) as [Hblank|Hline].
    + rewrite filter_cons_False by (intros ?; done).
      rewrite <- IH. simpl. by rewrite decide_True.
    + rewrite filter_cons_True by done.
      destruct (floats py_float (parts_of (strip line))) as [row|e] eqn:Hfl.
      * rewrite (load_loop_row _ _ _ _ Hline Hfl).
        destruct (load_loop py_float [] rest) as [more|e] eqn:Hrest; simpl.
        -- split.
           ++ intros [= <-]. constructor; [by apply floats_spec|by apply IH].
           ++ intros H. inversion H as [|? row' ? more' Hrow' Hmore']; subst.
              apply floats_spec in Hrow'. apply IH in Hmore'. congruence.
        -- split; [done|].
           intros H. inversion H as [|? row' ? more' Hrow' Hmore']; subst.
           by apply IH in Hmore'.
      * simpl. rewrite decide_False by done. rewrite Hfl. split; [done|].
        intros H. inversion H as [|? row' ? more' Hrow' Hmore']; subst.
        apply floats_spec in Hrow'. congruence.
Qed.

(** The loop raises nothing but the ValueError of a field that [float]
    refuses, and raises it when there is such a field. *)
Lemma load_rows_raise f e :
  load_rows py_float f = Raise e →
  e = ValueError ∧ ∃ l p, l ∈ f ∧ p ∈ parts_of (strip l) ∧ py_float p = None.
Proof.
  unfold load_rows. induction f as [|line rest IH]; [done|].
  simpl. case_decide as Hblank.
  - intros He. destruct (IH He) as (-> & l & p & Hl & Hp).
    split; [done|]. exists l, p. split; [by apply list_elem_of_further|done].
  - destruct (floats py_float (parts_of (strip line))) as [row|e'] eqn:Hfl.
    + rewrite load_loop_acc.
      destruct (load_loop py_float [] rest) as [more|e'] eqn:Hrest; [done|].
      intros [= <-]. destruct (IH eq_refl) as (-> & l & p & Hl & Hp).
      split; [done|]. exists l, p. split; [by apply list_elem_of_further|done].
    + intros [= <-]. destruct (floats_raise _ _ Hfl) as (-> & p & Hp & Hnone).
      split; [done|]. exists line, p. split; [apply list_elem_of_here|done].
Qed.

Lemma load_rows_refused f l p :
  l ∈ f → p ∈ parts_of (strip l) → py_float p = None →
  load_rows py_float f = Raise ValueError.
Proof.
  unfold load_rows. intros Hl Hp Hnone.
  induction Hl as [l rest|l line rest _ IH]; simpl.
  - case_decide as Hblank.
    + rewrite Hblank in Hp. vm_compute in Hp. by apply elem_of_nil in Hp.
    + by rewrite (floats_refused _ _ Hp Hnone).
  - specialize (IH Hp). case_decide as Hblank; [done|].
    destruct (floats py_float (parts_of (strip line))) as [row|e] eqn:Hfl.
    + by rewrite load_loop_acc, IH.
    + by destruct (floats_raise _ _ Hfl) as [-> _].
Qed.

(** A line of commas alone, once stripped, has no field left. *)
Lemma parts_of_only_commas s :
  Forall (λ c, c = comma) (chars s) → parts_of s = [].
Proof.
  intros Hs. unfold parts_of.
  assert (Forall (λ c, c = comma)
            (chars (if endswith s comma then drop_last s else s))) as Hbody.
  { destruct (endswith s comma); [by apply drop_last_only_sep|done]. }
  pose proof (split_only_sep _ _ Hbody) as Hsplit.
  induction Hsplit as [|p ps Hp _ IH]; [done|].
  rewrite filter_cons_False by (intros ?; done). exact IH.
Qed.

Lemma join_empty_parts c ps :
  Forall (λ p, p = EmptyString) ps → Forall (λ c0, c0 = c) (chars (join c ps)).
Proof.
  induction 1 as [|p ps -> _ IH]; [constructor|].
  destruct ps as [|q ps]; [constructor|].
  change (join c (EmptyString :: q :: ps)) with (String c (join c (q :: ps))).
  simpl chars. by constructor.
Qed.

(** Only a line of commas alone has no field. *)
Lemma parts_of_nil s :
  parts_of s = [] → Forall (λ c, c = comma) (chars s).
Proof.
  unfold parts_of. intros Hnil.
  set (body := if endswith s comma then drop_last s else s) in *.
  assert (Forall (λ p, p = EmptyString) (split body comma)) as Hempty.
  { apply Forall_forall. intros p Hp.
    destruct (decide (p = EmptyString)) as [|Hne]; [done|].
    assert (p ∈ filter (λ p, p ≠ EmptyString) (split body comma)) as Hin
      by (by apply list_elem_of_filter).
    rewrite Hnil in Hin. by apply elem_of_nil in Hin. }
  pose proof (join_empty_parts comma _ Hempty) as Hbody.
  rewrite join_split in Hbody. subst body.
  destruct (endswith s comma) eqn:He; [|done].
  rewrite (endswith_true _ _ He), chars_app.
  apply Forall_app. split; [done|]. by repeat constructor.
Qed.
End load_facts.

(** * np.array on the rows *)

Section array_of_rows.
Implicit Types (rows : list (list float)).

Lemma np_array_rectangular rows w :
  Forall (λ r, length r = w) rows → np_array rows = Ok rows.
Proof.
  intros Hrows. destruct rows as [|r rest]; [done|]. simpl.
  inversion Hrows as [|? ? Hr Hrest]; subst.
  replace (forallb (λ r' : list float, length r' =? length r) rest) with true; [done|].
  symmetry. apply forallb_forall. intros r' Hr'. apply Nat.eqb_eq.
  apply list_elem_of_In in Hr'. exact (proj1 (Forall_forall _ _) Hrest r' Hr').
Qed.

Lemma np_array_Ok rows g :
  np_array rows = Ok g → g = rows ∧ Shape g (length g) (ncols g).
Proof.
  destruct rows as [|r rest]; simpl.
  - intros [= <-]. split; [done|]. split; [done|constructor].
  - destruct (forallb (λ r' : list float, length r' =? length r) rest) eqn:Hall; [|done].
    intros [= <-]. split; [done|]. split; [done|]. simpl.
    constructor; [done|]. apply Forall_forall. intros r' Hr'.
    apply list_elem_of_In in Hr'.
    by apply Nat.eqb_eq, (proj1 (forallb_forall _ _) Hall).
Qed.

Lemma np_array_ragged rows r1 r2 :
  r1 ∈ rows → r2 ∈ rows → length r1 ≠ length r2 → np_array rows = Raise ValueError.
Proof.
  intros H1 H2 Hne. destruct (np_array rows) as [g|e] eqn:Hg.
  - destruct (np_array_Ok _ _ Hg) as [-> [_ Hrows]].
    pose proof (proj1 (Forall_forall _ _) Hrows r1 H1) as E1.
    pose proof (proj1 (Forall_forall _ _) Hrows r2 H2) as E2.
    simpl in E1, E2. congruence.
  - destruct rows as [|r rest]; [done|]. simpl in Hg.
    destruct (forallb _ rest); [done|]. congruence.
Qed.
End array_of_rows.

(** * load_block, line by line *)

(** C5.  For every line, with the rows built so far and the lines that follow:
    the line is trimmed of white space at both ends; a line that is then empty
    is skipped and gives no row; otherwise one trailing comma, if there is one,
    is removed, the rest is split at the commas, the empty pieces are dropped,
    and every remaining piece is handed to [float]: the row of their values is
    appended, or the ValueError of a piece that [float] refuses is raised.
    What the loop returns is fixed by this: at the end of the file the rows
    built so far; for a blank line the rows of the lines after it put after the
    rows built so far, for any other line its own row put between them.  So
    the rows of a file are one row for each line that is not blank, in the
    order of the lines, each holding the values of the line's non-empty fields
    in their order; the loop raises exactly when [float] refuses a field, and
    nothing but ValueError; and the block [load_block] returns is these
    rows. *)
Theorem load_block_line (py_float : string → option float) (rows : list (list float))
    (line : string) (rest : list string) :
  (∃ l r, line = l +:+ strip line +:+ r ∧
          Forall (λ c, py_isspace c = true) (chars l) ∧
          Forall (λ c, py_isspace c = true) (chars r) ∧
          (strip line = EmptyString ∨
           (∃ c t, strip line = String c t ∧ py_isspace c = false) ∧
           (∃ t c, strip line = t +:+ String c EmptyString ∧ py_isspace c = false))) ∧
  (strip line = EmptyString →
   load_loop py_float rows (line :: rest) = load_loop py_float rows rest ∧
   load_loop py_float rows (line :: rest)
   = (more ← load_loop py_float [] rest; Ok (rows ++ more))) ∧
  (strip line ≠ EmptyString →
   ∃ body,
     (strip line = body +:+ String comma EmptyString ∨
      (body = strip line ∧ ∀ t, strip line ≠ t +:+ String comma EmptyString)) ∧
     join comma (split body comma) = body ∧
     Forall (λ p, comma ∉ chars p) (split body comma) ∧
     parts_of (strip line) = filter (λ p, p ≠ EmptyString) (split body comma) ∧
     Forall (λ p, p ≠ EmptyString) (parts_of (strip line)) ∧
     ((∃ row, Forall2 (λ p x, py_float p = Some x) (parts_of (strip line)) row ∧
              load_loop py_float rows (line :: rest)
              = load_loop py_float (rows ++ [row]) rest ∧
              load_loop py_float rows (line :: rest)
              = (more ← load_loop py_float [] rest; Ok (rows ++ row :: more))) ∨
      ((∃ p, p ∈ parts_of (strip line) ∧ py_float p = None) ∧
       load_loop py_float rows (line :: rest) = Raise ValueError))) ∧
  load_loop py_float rows [] = Ok rows ∧
  (∀ f out,
     load_rows py_float f = Ok out ↔
     Forall2 (λ l row, Forall2 (λ p x, py_float p = Some x) (parts_of (strip l)) row)
       (filter (λ l, strip l ≠ EmptyString) f) out) ∧
  (∀ f,
     load_rows py_float f = Raise ValueError ↔
     ∃ l p, l ∈ f ∧ p ∈ parts_of (strip l) ∧ py_float p = None) ∧
  (∀ f e, load_rows py_float f = Raise e → e = ValueError) ∧
  (∀ f g, load_block py_float f = Ok g → load_rows py_float f = Ok g).
Proof.
  split; [apply strip_spec|]. split; [|split; [|split; [done|split; [|split; [|split]]]]].
  - intros Hblank. split; [|by apply load_loop_blank].
    simpl. by rewrite decide_True.
  - intros Hline.
    exists (if endswith (strip line) comma then drop_last (strip line) else strip line).
    split; [|split; [apply join_split|split; [apply split_no_sep|split; [done|split]]]].
    + destruct (endswith (strip line) comma) eqn:He.
      * left. by apply endswith_true.
      * right. split; [done|]. intros t. by apply endswith_false.
    + apply parts_of_nonempty.
    + destruct (floats py_float (parts_of (strip line))) as [row|e] eqn:Hfl.
      * left. exists row. split; [by apply floats_spec|].
        split; [|by apply load_loop_row].
        simpl. rewrite decide_False by done. by rewrite Hfl.
      * right. destruct (floats_raise _ _ _ Hfl) as [-> Hp]. split; [done|].
        simpl. rewrite decide_False by done. by rewrite Hfl.
  - apply load_rows_spec.
  - intros f. split.
    + intros Hf. by destruct (load_rows_raise _ _ _ Hf) as [_ ?].
    + intros (l & p & Hl & Hp & Hnone). by apply (load_rows_refused _ f l p).
  - intros f e Hf. by destruct (load_rows_raise _ _ _ Hf) as [? _].
  - intros f g. unfold load_block.
    destruct (load_rows py_float f) as [out|e]; [|done].
    intros Hg. change (np_array out = Ok g) in Hg.
    by destruct (np_array_Ok _ _ Hg) as [-> _].
Qed.

(** The rows of a small file: a blank line gives no row, an empty field no
    entry, a trailing comma nothing. *)
Example load_block_example :
  load_block float_literal ["1,2,3," +:+ nl; nl; " 4,,5,6 " +:+ nl]
  = Ok [[1; 2; 3]; [4; 5; 6]]%float.
Proof. vm_compute. reflexivity. Qed.

(** * Lines of commas alone *)

(** C10, as the code has it.  A line that is not blank and, once trimmed,
    consists of commas only is not skipped: the loop appends a row of length
    zero for it, and among the lines that are not blank these are the only ones
    whose row is empty.  So the rows collected from a file with such a line
    contain a zero-length row.  What [load_block] does with them is what
    [np.array] does: when another line holds a number the rows have different
    lengths and [load_block] raises ValueError, returning no block; when every
    row is empty it returns them, an array with one row for each such line and
    no column, which is rectangular. *)
Theorem comma_only_line_gives_empty_row (py_float : string → option float)
    (before : list string) (line : string) (after : list string) :
  strip line ≠ EmptyString →
  Forall (λ c, c = comma) (chars (strip line)) →
  (∀ rows rest,
     load_loop py_float rows (line :: rest) = load_loop py_float (rows ++ [[]]) rest ∧
     load_loop py_float rows (line :: rest)
     = (more ← load_loop py_float [] rest; Ok (rows ++ [] :: more))) ∧
  (∀ l, strip l ≠ EmptyString →
     (parts_of (strip l) = [] ↔ Forall (λ c, c = comma) (chars (strip l)))) ∧
  (∀ out, load_rows py_float (before ++ line :: after) = Ok out →
     [] ∈ out ∧
     (∀ NX NY, 0 < NY → ¬ Shape out NX NY) ∧
     (∀ r, r ∈ out → r ≠ [] → ∃ r', r' ∈ out ∧ length r' ≠ length r) ∧
     ((∃ r, r ∈ out ∧ r ≠ []) →
      load_block py_float (before ++ line :: after) = Raise ValueError) ∧
     (Forall (λ r, r = []) out →
      load_block py_float (before ++ line :: after) = Ok out ∧
      Shape out (length out) 0)) ∧
  (Forall (λ l, Forall (λ p, is_Some (py_float p)) (parts_of (strip l)))
     (before ++ after) →
   ∃ out, load_rows py_float (before ++ line :: after) = Ok out).
Proof.
  intros Hline Hcommas.
  assert (Hstep : ∀ rows rest,
    load_loop py_float rows (line :: rest) = load_loop py_float (rows ++ [[]]) rest).
  { intros rows rest. simpl. rewrite decide_False by done.
    by rewrite (parts_of_only_commas _ Hcommas). }
  assert (Hin : ∀ out, load_rows py_float (before ++ line :: after) = Ok out → [] ∈ out).
  { intros out. unfold load_rows. rewrite load_loop_app.
    destruct (load_loop py_float [] before) as [r1|e]; [|done].
    rewrite Hstep, load_loop_acc.
    destruct (load_loop py_float [] after) as [more|e]; [|done].
    intros [= <-]. rewrite !elem_of_app. left. right. apply list_elem_of_here. }
  split; [|split; [|split]].
  - intros rows rest. split; [apply Hstep|].
    apply load_loop_row; [done|]. by rewrite (parts_of_only_commas _ Hcommas).
  - intros l _. split; [apply parts_of_nil|apply parts_of_only_commas].
  - intros out Hout. pose proof (Hin out Hout) as Hnil.
    split; [done|]. split; [|split; [|split]].
    + intros NX NY HNY [_ Hrows].
      pose proof (proj1 (Forall_forall _ _) Hrows [] Hnil) as Hlen.
      simpl in Hlen. lia.
    + intros r _ Hr. exists []. split; [done|]. destruct r; [done|]. simpl. lia.
    + intros (r & Hr & Hne). unfold load_block. rewrite Hout.
      apply (np_array_ragged out r []); [done|done|].
      destruct r; [done|]. simpl. lia.
    + intros Hempty.
      assert (Forall (λ r : list float, length r = 0) out) as Hzero.
      { eapply Forall_impl; [exact Hempty|]. by intros r ->. }
      split; [|by split].
      unfold load_block. rewrite Hout. exact (np_array_rectangular out 0 Hzero).
  - intros Hothers. apply Forall_app in Hothers as [Hb Ha].
    unfold load_rows. rewrite load_loop_app.
    destruct (load_loop_total py_float [] before Hb) as (r1 & -> & _).
    rewrite Hstep.
    destruct (load_loop_total py_float (([] ++ r1) ++ [[]]) after Ha) as (r2 & -> & _).
    by eexists.
Qed.

Lemma comma_only_line_gives_empty_row_witness :
  (∀ rows rest,
     load_loop float_literal rows ((" ,,," +:+ nl) :: rest)
     = load_loop float_literal (rows ++ [[]]) rest ∧
     load_loop float_literal rows ((" ,,," +:+ nl) :: rest)
     = (more ← load_loop float_literal [] rest; Ok (rows ++ [] :: more))) ∧
  (∀ l, strip l ≠ EmptyString →
     (parts_of (strip l) = [] ↔ Forall (λ c, c = comma) (chars (strip l)))) ∧
  (∀ out, load_rows float_literal (["1,2," +:+ nl] ++ (" ,,," +:+ nl) :: ["3,4" +:+ nl])
          = Ok out →
     [] ∈ out ∧
     (∀ NX NY, 0 < NY → ¬ Shape out NX NY) ∧
     (∀ r, r ∈ out → r ≠ [] → ∃ r', r' ∈ out ∧ length r' ≠ length r) ∧
     ((∃ r, r ∈ out ∧ r ≠ []) →
      load_block float_literal (["1,2," +:+ nl] ++ (" ,,," +:+ nl) :: ["3,4" +:+ nl])
      = Raise ValueError) ∧
     (Forall (λ r, r = []) out →
      load_block float_literal (["1,2," +:+ nl] ++ (" ,,," +:+ nl) :: ["3,4" +:+ nl])
      = Ok out ∧
      Shape out (length out) 0)) ∧
  (Forall (λ l, Forall (λ p, is_Some (float_literal p)) (parts_of (strip l)))
     (["1,2," +:+ nl] ++ ["3,4" +:+ nl]) →
   ∃ out, load_rows float_literal (["1,2," +:+ nl] ++ (" ,,," +:+ nl) :: ["3,4" +:+ nl])
          = Ok out).
Proof.
  apply (comma_only_line_gives_empty_row float_literal ["1,2," +:+ nl] (" ,,," +:+ nl)
           ["3,4" +:+ nl]).
  - vm_compute. discriminate.
  - vm_compute. repeat constructor.
Defined.

(** C10 as stated fails.  A file of two lines of commas alone gives the rows
    [[]] and [[]], and [load_block] returns the array of these two rows, of
    shape (2, 0): a rectangular numeric array.  With a line of numbers before
    the line of commas and one after it, the rows have lengths 2, 0 and 2 and
    [load_block] raises ValueError: no block is returned. *)
Lemma comma_only_file_is_rectangular :
  load_rows float_literal [",,," +:+ nl; " ," +:+ nl] = Ok [[]; []] ∧
  load_block float_literal [",,," +:+ nl; " ," +:+ nl] = Ok [[]; []] ∧
  Shape [[]; []] 2 0 ∧
  load_rows float_literal ["1,2," +:+ nl; " ,,," +:+ nl; "3,4" +:+ nl]
  = Ok [[1; 2]; []; [3; 4]]%float ∧
  load_block float_literal ["1,2," +:+ nl; " ,,," +:+ nl; "3,4" +:+ nl]
  = Raise ValueError.
Proof.
  split; [vm_compute; reflexivity|]. split; [vm_compute; reflexivity|].
  split; [split; [reflexivity|repeat constructor]|].
  split; vm_compute; reflexivity.
Qed.

(** * Rows of different lengths *)

(** C4.  [load_block] hands the rows it has parsed to [np.array], which
    refuses rows of different lengths.  So for every file whose parsed rows do
    not all have the same length [load_block] raises (numpy's ValueError) and
    returns no grid; in terms of the lines, this is every file in which [float]
    accepts all fields and two lines that are not blank differ in their number
    of non-empty fields.  A grid that [load_block] does return is the list of
    the parsed rows, none dropped and none shortened, and is rectangular. *)
Theorem load_block_rejects_ragged_rows (py_float : string → option float)
    (f : list string) :
  (∀ rows r1 r2,
     load_rows py_float f = Ok rows → r1 ∈ rows → r2 ∈ rows → length r1 ≠ length r2 →
     load_block py_float f = Raise ValueError) ∧
  (∀ l1 l2,
     Forall (λ l, Forall (λ p, is_Some (py_float p)) (parts_of (strip l))) f →
     l1 ∈ f → l2 ∈ f → strip l1 ≠ EmptyString → strip l2 ≠ EmptyString →
     length (parts_of (strip l1)) ≠ length (parts_of (strip l2)) →
     load_block py_float f = Raise ValueError) ∧
  (∀ g, load_block py_float f = Ok g →
     load_rows py_float f = Ok g ∧
     Shape g (length g) (ncols g) ∧
     Forall2 (λ l row, Forall2 (λ p x, py_float p = Some x) (parts_of (strip l)) row)
       (filter (λ l, strip l ≠ EmptyString) f) g).
Proof.
  assert (Hragged : ∀ rows r1 r2,
    load_rows py_float f = Ok rows → r1 ∈ rows → r2 ∈ rows → length r1 ≠ length r2 →
    load_block py_float f = Raise ValueError).
  { intros rows r1 r2 Hrows H1 H2 Hne. unfold load_block. rewrite Hrows.
    by apply (np_array_ragged rows r1 r2). }
  split; [exact Hragged|]. split.
  - intros l1 l2 Hf H1 H2 Hb1 Hb2 Hne.
    destruct (load_loop_total py_float [] f Hf) as (rows & Hrows & _).
    simpl in Hrows. fold (load_rows py_float f) in Hrows.
    pose proof (proj1 (load_rows_spec py_float f rows) Hrows) as Hspec.
    assert (Hrow : ∀ l, l ∈ f → strip l ≠ EmptyString →
              ∃ r, r ∈ rows ∧ length r = length (parts_of (strip l))).
    { intros l Hl Hb.
      assert (l ∈ filter (λ l, strip l ≠ EmptyString) f) as Hin
        by (by apply list_elem_of_filter).
      apply list_elem_of_lookup in Hin as [i Hi].
      destruct (Forall2_lookup_l _ _ _ _ _ Hspec Hi) as (r & Hr & Hlr).
      exists r. split; [by eapply list_elem_of_lookup_2|].
      symmetry. by eapply Forall2_length. }
    destruct (Hrow l1 H1 Hb1) as (r1 & Hr1 & E1).
    destruct (Hrow l2 H2 Hb2) as (r2 & Hr2 & E2).
    apply (Hragged rows r1 r2 Hrows Hr1 Hr2). congruence.
  - intros g Hg. unfold load_block in Hg.
    destruct (load_rows py_float f) as [rows|e] eqn:Hrows; [|done].
    change (np_array rows = Ok g) in Hg.
    destruct (np_array_Ok _ _ Hg) as [-> HS].
    split; [done|]. split; [done|]. by apply load_rows_spec.
Qed.

(** The partition of the scenario: the second line has 9 fields where its
    peers have 10. *)
Lemma load_block_rejects_ragged_rows_witness :
  load_rows float_literal
    ["1,2,3,4,5,6,7,8,9,10," +:+ nl;
     "1,2,3,4,5,6,7,8,9," +:+ nl;
     "1,2,3,4,5,6,7,8,9,10," +:+ nl]
  = Ok [[1; 2; 3; 4; 5; 6; 7; 8; 9; 10]; [1; 2; 3; 4; 5; 6; 7; 8; 9];
        [1; 2; 3; 4; 5; 6; 7; 8; 9; 10]]%float ∧
  load_block float_literal
    ["1,2,3,4,5,6,7,8,9,10," +:+ nl;
     "1,2,3,4,5,6,7,8,9," +:+ nl;
     "1,2,3,4,5,6,7,8,9,10," +:+ nl] = Raise ValueError.
Proof.
  assert (load_rows float_literal
    ["1,2,3,4,5,6,7,8,9,10," +:+ nl;
     "1,2,3,4,5,6,7,8,9," +:+ nl;
     "1,2,3,4,5,6,7,8,9,10," +:+ nl]
  = Ok [[1; 2; 3; 4; 5; 6; 7; 8; 9; 10]; [1; 2; 3; 4; 5; 6; 7; 8; 9];
        [1; 2; 3; 4; 5; 6; 7; 8; 9; 10]]%float) as Hrows
    by (vm_compute; reflexivity).
  split; [exact Hrows|].
  apply (proj1 (load_block_rejects_ragged_rows float_literal _) _
           [1; 2; 3; 4; 5; 6; 7; 8; 9; 10]%float [1; 2; 3; 4; 5; 6; 7; 8; 9]%float Hrows).
  - apply list_elem_of_here.
  - apply list_elem_of_further, list_elem_of_here.
  - simpl. lia.
Defined.

(** * The reassembly of the four blocks *)

Section assembly_facts.
Implicit Types (a b : ndarray).

Lemma Shape_hcat a b h wa wb :
  Shape a h wa → Shape b h wb → Shape (zip_with app a b) h (wa + wb).
Proof.
  intros [Ha Hra] [Hb Hrb]. apply Shape_intro.
  - rewrite length_zip_with. lia.
  - intros i r. rewrite lookup_zip_with.
    destruct (a !! i) as [ra|] eqn:Ea; simpl; [|done].
    destruct (b !! i) as [rb|] eqn:Eb; simpl; [|done].
    intros [= <-]. rewrite length_app.
    by rewrite (Forall_lookup_1 _ _ _ _ Hra Ea), (Forall_lookup_1 _ _ _ _ Hrb Eb).
Qed.

Lemma hstack_pair a b h wa wb :
  Shape a h wa → Shape b h wb → hstack [a; b] = Ok (zip_with app a b).
Proof.
  intros [Ha _] [Hb _]. unfold hstack. simpl.
  rewrite Ha, Hb, Nat.eqb_refl. done.
Qed.

Lemma vstack_pair a b ha hb w :
  Shape a ha w → Shape b hb w → 0 < ha → 0 < hb → vstack [a; b] = Ok (a ++ b).
Proof.
  intros Ha Hb Hha Hhb. unfold vstack. simpl.
  rewrite (ncols_Shape _ _ _ Ha Hha), (ncols_Shape _ _ _ Hb Hhb), Nat.eqb_refl.
  simpl. by rewrite app_nil_r.
Qed.

Lemma Shape_app a b ha hb w : Shape a ha w → Shape b hb w → Shape (a ++ b) (ha + hb) w.
Proof.
  intros [Ha Hra] [Hb Hrb]. split.
  - rewrite length_app. lia.
  - by apply Forall_app.
Qed.

Lemma Shape_constant_block h w c : Shape (constant_block h w c) h w.
Proof.
  split.
  - unfold constant_block. by rewrite length_replicate.
  - unfold constant_block. apply Forall_replicate. by rewrite length_replicate.
Qed.
End assembly_facts.

(** C6, as the code has it.  The scripts assemble the 2 x 2 mesh and no other.
    For four blocks that fit it, blocks 0 and 1 [h0] rows high, blocks 2 and 3
    [h1] rows high, blocks 0 and 2 [w0] columns wide, blocks 1 and 3 [w1]
    columns wide: each mesh row is its two blocks side by side, block of column
    0 first, and the grid is the top mesh row followed by the bottom one, so
    row [i] of the grid is row [i] of block 0 followed by row [i] of block 1,
    and row [h0 + i] is row [i] of block 2 followed by row [i] of block 3.  Two
    3 x 4 blocks of 1 and of 2 form the 3 x 8 mesh row with 1 in its left half
    and 2 in its right half. *)
Theorem full_grid_places_blocks (b0 b1 b2 b3 : ndarray) (h0 h1 w0 w1 : nat) :
  Shape b0 h0 w0 → Shape b1 h0 w1 → Shape b2 h1 w0 → Shape b3 h1 w1 →
  0 < h0 → 0 < h1 →
  (∃ top bottom g,
     top_row b0 b1 = Ok top ∧ Shape top h0 (w0 + w1) ∧
     bottom_row b2 b3 = Ok bottom ∧ Shape bottom h1 (w0 + w1) ∧
     full_grid b0 b1 b2 b3 = Ok g ∧ Shape g (h0 + h1) (w0 + w1) ∧
     g = top ++ bottom ∧
     (∀ i r0 r1, b0 !! i = Some r0 → b1 !! i = Some r1 →
        top !! i = Some (r0 ++ r1) ∧ g !! i = Some (r0 ++ r1)) ∧
     (∀ i r2 r3, b2 !! i = Some r2 → b3 !! i = Some r3 →
        bottom !! i = Some (r2 ++ r3) ∧ g !! (h0 + i) = Some (r2 ++ r3))) ∧
  top_row (constant_block 3 4 1) (constant_block 3 4 2)
  = Ok (replicate 3 (replicate 4 1%float ++ replicate 4 2%float)).
Proof.
  intros H0 H1 H2 H3 Hh0 Hh1. split; [|reflexivity].
  pose proof (Shape_hcat _ _ _ _ _ H0 H1) as Htop.
  pose proof (Shape_hcat _ _ _ _ _ H2 H3) as Hbot.
  exists (zip_with app b0 b1), (zip_with app b2 b3),
    (zip_with app b0 b1 ++ zip_with app b2 b3).
  unfold full_grid, top_row, bottom_row.
  rewrite (hstack_pair _ _ _ _ _ H0 H1), (hstack_pair _ _ _ _ _ H2 H3).
  split; [done|]. split; [done|]. split; [done|]. split; [done|].
  split; [exact (vstack_pair _ _ _ _ _ Htop Hbot Hh0 Hh1)|].
  split; [by apply Shape_app|]. split; [done|]. split.
  - intros i r0 r1 Hr0 Hr1.
    assert (zip_with app b0 b1 !! i = Some (r0 ++ r1)) as Hrow
      by (by rewrite lookup_zip_with, Hr0, Hr1).
    split; [done|]. by apply lookup_app_l_Some.
  - intros i r2 r3 Hr2 Hr3.
    assert (zip_with app b2 b3 !! i = Some (r2 ++ r3)) as Hrow
      by (by rewrite lookup_zip_with, Hr2, Hr3).
    split; [done|]. rewrite lookup_app_r; destruct Htop as [-> _]; [|lia].
    by replace (h0 + i - h0) with i by lia.
Qed.

Lemma full_grid_places_blocks_witness :
  (∃ top bottom g,
     top_row (constant_block 2 2 1) (constant_block 2 3 2) = Ok top ∧
     Shape top 2 (2 + 3) ∧
     bottom_row (constant_block 1 2 3) (constant_block 1 3 4) = Ok bottom ∧
     Shape bottom 1 (2 + 3) ∧
     full_grid (constant_block 2 2 1) (constant_block 2 3 2) (constant_block 1 2 3)
       (constant_block 1 3 4) = Ok g ∧
     Shape g (2 + 1) (2 + 3) ∧
     g = top ++ bottom ∧
     (∀ i r0 r1, constant_block 2 2 1 !! i = Some r0 →
        constant_block 2 3 2 !! i = Some r1 →
        top !! i = Some (r0 ++ r1) ∧ g !! i = Some (r0 ++ r1)) ∧
     (∀ i r2 r3, constant_block 1 2 3 !! i = Some r2 →
        constant_block 1 3 4 !! i = Some r3 →
        bottom !! i = Some (r2 ++ r3) ∧ g !! (2 + i) = Some (r2 ++ r3))) ∧
  top_row (constant_block 3 4 1) (constant_block 3 4 2)
  = Ok (replicate 3 (replicate 4 1%float ++ replicate 4 2%float)).
Proof.
  apply (full_grid_places_blocks (constant_block 2 2 1) (constant_block 2 3 2)
           (constant_block 1 2 3) (constant_block 1 3 4) 2 1 2 3).
  - split; [reflexivity | repeat constructor].
  - split; [reflexivity | repeat constructor].
  - split; [reflexivity | repeat constructor].
  - split; [reflexivity | repeat constructor].
  - lia.
  - lia.
Defined.

(** C6 as stated fails for every mesh but the 2 x 2 one, the scenario's mesh of
    one row and two columns among them: the assembly of the scripts takes four
    blocks and stacks two mesh rows.  Given the two 3 x 4 blocks of the
    scenario as blocks 0 and 1, it does not return their 3 x 8 mesh row as the
    grid, whatever stands for blocks 2 and 3: with two blocks without rows it
    raises ValueError, and a grid it returns has more than 3 rows. *)
Lemma one_mesh_row_is_no_grid :
  full_grid (constant_block 3 4 1) (constant_block 3 4 2) [] [] = Raise ValueError ∧
  (∀ b2 b3 g,
     full_grid (constant_block 3 4 1) (constant_block 3 4 2) b2 b3 = Ok g →
     3 < length g ∧
     g ≠ replicate 3 (replicate 4 1%float ++ replicate 4 2%float)).
Proof.
  split; [reflexivity|].
  intros b2 b3 g. unfold full_grid.
  change (top_row (constant_block 3 4 1) (constant_block 3 4 2))
    with (@Ok ndarray (replicate 3 (replicate 4 1%float ++ replicate 4 2%float))).
  unfold bottom_row, hstack.
  destruct (forallb (λ b : ndarray, length b =? length b2) [b3]); [|done].
  change (Ok (replicate 3 (replicate 4 1%float ++ replicate 4 2%float))
            ≫= (λ top, Ok (foldl (zip_with app) b2 [b3])
                          ≫= (λ bottom, vstack [top; bottom])))
    with (vstack [replicate 3 (replicate 4 1%float ++ replicate 4 2%float);
                  zip_with app b2 b3]).
  unfold vstack.
  destruct (zip_with app b2 b3) as [|r bottom] eqn:Hbottom; [done|].
  destruct (forallb _ _); [|done].
  intros [= <-].
  assert (3 < length (concat [replicate 3 (replicate 4 1%float ++ replicate 4 2%float);
                              r :: bottom])) as Hlen by (simpl; lia).
  split; [exact Hlen|]. intros Heq. apply (f_equal length) in Heq. simpl in Heq. lia.
Qed.

(** * fix_csv.py *)

Section fix_facts.
Lemma take_all_but_last (r : list float) n :
  length r = S n → ∃ x, r = take n r ++ [x].
Proof.
  intros Hlen. pose proof (take_drop n r) as Htd.
  destruct (drop n r) as [|x [|y t]] eqn:Hd.
  - pose proof (length_drop r n) as Hl. rewrite Hd in Hl. simpl in Hl. lia.
  - exists x. by rewrite Htd.
  - pose proof (length_drop r n) as Hl. rewrite Hd in Hl. simpl in Hl. lia.
Qed.

Lemma truncate_101 (arr : ndarray) NX :
  Shape arr NX 101 → 0 < NX →
  truncate (Matrix arr) = Ok (Matrix (take 100 <$> arr)) ∧
  Shape (take 100 <$> arr) NX 100 ∧
  Forall2 (λ r' r, ∃ x, r = r' ++ [x]) (take 100 <$> arr) arr.
Proof.
  intros HS HNX. split.
  - unfold truncate. simpl. by rewrite (ncols_Shape _ _ _ HS HNX), decide_True.
  - destruct HS as [Hlen Hrows]. split.
    + split; [by rewrite length_fmap|].
      apply Forall_fmap. eapply Forall_impl; [exact Hrows|].
      intros r Hr. simpl in Hr. unfold compose. rewrite length_take. lia.
    + apply Forall2_fmap_l. apply Forall_Forall2_diag.
      eapply Forall_impl; [exact Hrows|].
      intros r Hr. simpl in Hr. by apply take_all_but_last.
Qed.

Lemma truncate_other (arr : ndarray) NX NY :
  Shape arr NX NY → 0 < NX → NY ≠ 101 → truncate (Matrix arr) = Ok (Matrix arr).
Proof.
  intros HS HNX HNY. unfold truncate. simpl.
  by rewrite (ncols_Shape _ _ _ HS HNX), decide_False.
Qed.

Lemma truncate_one_dimension (v : list float) : truncate (Vector v) = Raise IndexError.
Proof. done. Qed.

Lemma truncate_no_dimension (x : float) : truncate (Scalar x) = Raise IndexError.
Proof. done. Qed.
End fix_facts.

(** C9, on the code.  For one rank file, [np.genfromtxt] is called with the
    comma as delimiter and 0.0 as the value of an empty field; an exception it
    raises is the script's.  When it returns an array of two dimensions, the
    script removes the last entry of every row when the array has 101 columns,
    leaving 100, and passes the array unchanged to [np.savetxt] when it has any
    other number of columns.  When it returns an array of one dimension, as it
    does for a file of one line or of one column, or an array of no dimension,
    [arr.shape[1]] raises IndexError: no column is removed and nothing is
    written, whatever the number of fields of the line. *)
Theorem fix_file_needs_two_dimensions
    (genfromtxt : list string → ascii → float → result parsed) (f : list string) :
  (∀ e, genfromtxt f comma 0%float = Raise e → fix_file genfromtxt f = Raise e) ∧
  (∀ v, genfromtxt f comma 0%float = Ok (Vector v) →
     fix_file genfromtxt f = Raise IndexError) ∧
  (∀ x, genfromtxt f comma 0%float = Ok (Scalar x) →
     fix_file genfromtxt f = Raise IndexError) ∧
  (∀ arr NX NY,
     genfromtxt f comma 0%float = Ok (Matrix arr) → Shape arr NX NY → 0 < NX →
     ∃ out, fix_file genfromtxt f = Ok (Matrix out) ∧
       (NY = 101 →
        Shape out NX 100 ∧ Forall2 (λ r' r, ∃ x, r = r' ++ [x]) out arr) ∧
       (NY ≠ 101 → out = arr)).
Proof.
  split; [|split; [|split]].
  - intros e He. unfold fix_file. by rewrite He.
  - intros v Hv. unfold fix_file. by rewrite Hv.
  - intros x Hx. unfold fix_file. by rewrite Hx.
  - intros arr NX NY Harr HS HNX. unfold fix_file. rewrite Harr.
    change (Ok (Matrix arr) ≫= truncate) with (truncate (Matrix arr)).
    destruct (decide (NY = 101)) as [->|HNY].
    + destruct (truncate_101 arr NX HS HNX) as (Ht & HSt & Hrows).
      exists (take 100 <$> arr). split; [done|]. split; [done|]. by intros ?.
    + exists arr. split; [by apply (truncate_other arr NX NY)|].
      split; [by intros ?|done].
Qed.

(** The repair on the array of a file of one line with 101 fields, which is
    one-dimensional, and on arrays of two rows with 101, 100 and 102 columns. *)
Example fix_file_examples :
  fix_file (λ _ _ filling, Ok (Vector (replicate 101 filling))) []
  = Raise IndexError ∧
  fix_file (λ _ _ filling, Ok (Matrix (constant_block 2 101 filling))) []
  = Ok (Matrix (constant_block 2 100 0)) ∧
  fix_file (λ _ _ filling, Ok (Matrix (constant_block 2 100 filling))) []
  = Ok (Matrix (constant_block 2 100 0)) ∧
  fix_file (λ _ _ filling, Ok (Matrix (constant_block 2 102 filling))) []
  = Ok (Matrix (constant_block 2 102 0)).
Proof. repeat split; vm_compute; reflexivity. Qed.

(** * Repeated steps and the loops' snapshots *)

Section iterate_facts.
Context (step : ndarray → result ndarray).

Lemma iterate_add m n u :
  iterate step (m + n) u = (u' ← iterate step m u; iterate step n u').
Proof.
  revert u. induction m as [|m IH]; intros u; simpl; [done|].
  destruct (step u) as [u1|e]; simpl; [apply IH|done].
Qed.

(** A property every step keeps holds after any number of steps, and the
    steps all return. *)
Lemma iterate_total (P : ndarray → Prop) n u :
  (∀ v, P v → ∃ g, step v = Ok g ∧ P g) → P u →
  ∃ g, iterate step n u = Ok g ∧ P g.
Proof.
  intros Hstep. revert u. induction n as [|n IH]; intros u Hu; simpl.
  - by exists u.
  - destruct (Hstep u Hu) as (u1 & -> & Hu1). simpl. by apply IH.
Qed.

Context (loop : nat → nat → nat → ndarray → list ndarray → result (ndarray * list ndarray)).
Hypothesis loop_0 : ∀ s k u snaps, loop s 0 k u snaps = Ok (u, snaps).
Hypothesis loop_S : ∀ s n k u snaps,
  loop s (S n) k u snaps
  = (u' ← step u;
     if decide (s = 0) then Raise ZeroDivisionError
     else loop s n (S k) u' (if decide (k mod s = 0) then snaps ++ [u'] else snaps)).

Lemma loop_snapshots s n k u snaps g :
  0 < s → iterate step n u = Ok g →
  ∃ extra, loop s n k u snaps = Ok (g, snaps ++ extra) ∧
    Forall2 (λ j x, k ≤ j ∧ iterate step (S (j - k)) u = Ok x)
      (filter (λ j, j mod s = 0) (seq k n)) extra.
Proof.
  intros Hs. revert k u snaps. induction n as [|n IH]; intros k u snaps Hit.
  - simpl in Hit. injection Hit as <-. exists []. rewrite loop_0, app_nil_r.
    split; [done|]. constructor.
  - simpl in Hit. destruct (step u) as [u1|e] eqn:Hu1; simpl in Hit; [|done].
    destruct (IH (S k) u1 (if decide (k mod s = 0) then snaps ++ [u1] else snaps) Hit)
      as (extra & Hloop & Hextra).
    assert (Forall2 (λ j x, k ≤ j ∧ iterate step (S (j - k)) u = Ok x)
              (filter (λ j, j mod s = 0) (seq (S k) n)) extra) as Htail.
    { eapply Forall2_impl; [exact Hextra|]. intros j x [Hj Hx]. split; [lia|].
      replace (S (j - k)) with (S (S (j - S k))) by lia.
      change (iterate step (S (S (j - S k))) u)
        with (u' ← step u; iterate step (S (j - S k)) u').
      rewrite Hu1. exact Hx. }
    rewrite loop_S, Hu1. simpl. rewrite decide_False by lia. rewrite Hloop.
    rewrite filter_cons. destruct (decide (k mod s = 0)) as [Hk|Hk].
    + exists (u1 :: extra). rewrite <- app_assoc. split; [done|].
      constructor; [|done]. split; [lia|]. rewrite Nat.sub_diag. simpl. by rewrite Hu1.
    + by exists extra.
Qed.
End iterate_facts.

Lemma length_filter_mod s n :
  0 < s → length (filter (λ j, j mod s = 0) (seq 0 n)) = (n + s - 1) / s.
Proof.
  intros Hs. induction n as [|n IH].
  - simpl. symmetry. apply Nat.div_small. lia.
  - rewrite seq_S, filter_app, length_app, IH.
    change (seq (0 + n) 1) with [n]. rewrite filter_cons, filter_nil.
    pose proof (Nat.div_mod_eq n s) as Hn.
    pose proof (Nat.mod_upper_bound n s ltac:(lia)) as Hr.
    assert (∀ a q r, r < s → a = s * q + r → a / s = q) as Hdiv.
    { intros a q r H1 H2. symmetry. by apply (Nat.div_unique a s q r). }
    rewrite (Hdiv (S n + s - 1) (S (n / s)) (n mod s)) by (done || lia).
    case_decide as H0; change (n mod s = 0) in H0 || change (n mod s ≠ 0) in H0.
    + rewrite (Hdiv (n + s - 1) (n / s) (s - 1)) by lia. simpl. lia.
    + rewrite (Hdiv (n + s - 1) (S (n / s)) (n mod s - 1)) by lia. simpl. lia.
Qed.

Section band_facts.
Implicit Types (new : ndarray).

(** The two band assignments on their own: rows of the bands are filled, the
    others kept. *)
Lemma bands_cells t b c new NX NY :
  Shape new NX NY →
  Shape (set_rows_last b c (set_rows_upto t c new)) NX NY ∧
  ∀ i j, i < NX → j < NY →
    cell (set_rows_last b c (set_rows_upto t c new)) i j
    = if decide (i < t ∨ neg_start b NX ≤ i) then c else cell new i j.
Proof.
  intros HS.
  set (F := λ (i : nat) (r : list float),
    let r1 := if decide (i < t) then fill c r else r in
    if decide (neg_start b NX ≤ i) then fill c r1 else r1).
  set (g := set_rows_last b c (set_rows_upto t c new)).
  assert (length new = NX) as Hlen by (by destruct HS).
  assert (Hrow : ∀ i r, new !! i = Some r → g !! i = Some (F i r)).
  { intros i r Hr. unfold g.
    rewrite (lookup_set_rows_last _ _ _ _ _ (lookup_set_rows_upto t c _ _ _ Hr)).
    rewrite length_set_rows_upto, Hlen. done. }
  assert (HF : ∀ i r, length (F i r) = length r).
  { intros i r. unfold F. simpl. repeat case_decide; rewrite ?length_fill; done. }
  split.
  - apply (Shape_rowwise F new); [done| |done|done].
    unfold g. by rewrite length_set_rows_last, length_set_rows_upto.
  - intros i j Hi Hj. apply cell_opt_cell.
    destruct (Shape_lookup _ _ _ i HS Hi) as (r & Hr & Hlr).
    pose proof (Shape_cell_opt new NX NY i j HS Hi Hj) as Hc.
    unfold cell_opt in Hc. rewrite Hr in Hc. simpl in Hc.
    unfold cell_opt. rewrite (Hrow _ _ Hr). simpl. unfold F. simpl.
    destruct (decide (i < t ∨ neg_start b NX ≤ i)) as [Hd|Hd].
    + destruct (decide (neg_start b NX ≤ i)) as [Hb|Hb].
      * apply lookup_fill. case_decide; rewrite ?length_fill; lia.
      * rewrite decide_True by lia. apply lookup_fill. lia.
    + rewrite !decide_False by lia. done.
Qed.
End band_facts.

Section overlay_facts.
Implicit Types (u p : ndarray).

Lemma pad_axis_spec {A} (l : list A) :
  l ≠ [] →
  ∃ l', Overlay.pad_axis l = Ok l' ∧ length l' = length l + 2 ∧
    ∀ i, i < length l + 2 → l' !! i = l !! (Nat.min (i - 1) (length l - 1)).
Proof.
  intros Hne. destruct l as [|x t]; [done|].
  eexists. split; [reflexivity|]. split.
  - simpl. rewrite length_app. simpl. lia.
  - intros i Hi. destruct i as [|i]; [done|].
    change ((x :: (x :: t) ++ [default x (last (x :: t))]) !! S i)
      with (((x :: t) ++ [default x (last (x :: t))]) !! i).
    replace (S i - 1) with i by lia.
    destruct (decide (i < length (x :: t))) as [Hlt|Hge].
    + rewrite lookup_app_l by done. f_equal. simpl in *. lia.
    + simpl in Hi. assert (i = length (x :: t)) as -> by (simpl in *; lia).
      rewrite lookup_app_r by done. rewrite Nat.sub_diag.
      replace (Nat.min (length (x :: t)) (length (x :: t) - 1))
        with (pred (length (x :: t))) by lia.
      rewrite <- last_lookup. simpl ([_] !! 0).
      destruct (last (x :: t)) as [y|] eqn:E; [done|].
      by apply last_None in E.
Qed.

Lemma mapM_pad_axis u NX NY :
  Shape u NX NY → 0 < NY →
  ∃ rows, mapM Overlay.pad_axis u = Ok rows ∧ length rows = NX ∧
    ∀ i r, u !! i = Some r →
      ∃ pr, rows !! i = Some pr ∧ length pr = NY + 2 ∧
        ∀ j, j < NY + 2 → pr !! j = r !! (Nat.min (j - 1) (NY - 1)).
Proof.
  intros [Hlen Hrows] HNY. revert NX Hlen.
  induction Hrows as [|r u Hr Hrows IH]; intros NX Hlen.
  - exists []. split; [done|]. split; [done|]. intros i r Hi. done.
  - destruct (pad_axis_spec r) as (pr & Hpr & Hlpr & Hcpr).
    { intros ->. simpl in Hr. lia. }
    destruct (IH (length u) eq_refl) as (rows & Hmap & Hlrows & Hc).
    exists (pr :: rows). split; [|split].
    + simpl. rewrite Hpr. simpl. rewrite Hmap. done.
    + simpl in *. lia.
    + intros i r' Hi. destruct i as [|i].
      * injection Hi as <-. exists pr. split; [done|]. rewrite Hr in Hlpr, Hcpr. done.
      * by apply Hc.
Qed.

Lemma pad_edge_cells u NX NY :
  Shape u NX NY → 0 < NX → 0 < NY →
  ∃ p, Overlay.pad_edge u = Ok p ∧ Shape p (NX + 2) (NY + 2) ∧
    ∀ i j, i < NX + 2 → j < NY + 2 →
      cell p i j = cell u (Nat.min (i - 1) (NX - 1)) (Nat.min (j - 1) (NY - 1)).
Proof.
  intros HS HNX HNY.
  destruct (mapM_pad_axis u NX NY HS HNY) as (rows & Hmap & Hlrows & Hrows).
  destruct (pad_axis_spec rows) as (p & Hp & Hlp & Hcp).
  { intros ->. simpl in Hlrows. lia. }
  rewrite Hlrows in Hlp, Hcp.
  assert (Hrow : ∀ i, i < NX + 2 →
    ∃ r pr, u !! (Nat.min (i - 1) (NX - 1)) = Some r ∧ p !! i = Some pr ∧
      length pr = NY + 2 ∧
      ∀ j, j < NY + 2 → pr !! j = r !! (Nat.min (j - 1) (NY - 1))).
  { intros i Hi.
    destruct (Shape_lookup _ _ _ (Nat.min (i - 1) (NX - 1)) HS) as (r & Hr & _); [lia|].
    destruct (Hrows _ _ Hr) as (pr & Hpr & Hlen & Hc).
    exists r, pr. by rewrite Hcp. }
  exists p. split; [|split].
  - unfold Overlay.pad_edge. rewrite Hmap. simpl. exact Hp.
  - apply Shape_intro; [done|]. intros i r Hr.
    pose proof (lookup_lt_Some _ _ _ Hr) as Hi. rewrite Hlp in Hi.
    destruct (Hrow i Hi) as (r0 & pr & _ & Hpr & Hlen & _). congruence.
  - intros i j Hi Hj. apply cell_opt_cell.
    destruct (Hrow i Hi) as (r0 & pr & Hr0 & Hpr & Hlen & Hc).
    unfold cell_opt. rewrite Hpr. simpl. rewrite (Hc j Hj).
    pose proof (Shape_cell_opt u NX NY (Nat.min (i - 1) (NX - 1))
                  (Nat.min (j - 1) (NY - 1)) HS ltac:(lia) ltac:(lia)) as Hcell.
    unfold cell_opt in Hcell. rewrite Hr0 in Hcell. exact Hcell.
Qed.

(** One step of visualize_ranks_overlay.py on an array with a row and a
    column. *)
Lemma overlay_step_cells dt hot_T top_band bottom_band u NX NY :
  Shape u NX NY → 0 < NX → 0 < NY →
  ∃ g, Overlay.step_heat dt hot_T top_band bottom_band u = Ok g ∧ Shape g NX NY ∧
    ∀ i j, i < NX → j < NY →
      cell g i j
      = if decide (i < top_band ∨ neg_start bottom_band NX ≤ i) then hot_T
        else mirrored_five_point dt u NX NY i j.
Proof.
  intros HS HNX HNY.
  destruct (pad_edge_cells u NX NY HS HNX HNY) as (p & Hp & HSp & Hcp).
  unfold Overlay.step_heat. rewrite Hp. simpl.
  set (lap := arr_sub _ _).
  assert (HSp' : ∀ rs cs,
    (∀ l : ndarray, length (rs l) = length l - 2) →
    (∀ (P : list float → Prop) l, Forall P l → Forall P (rs l)) →
    (∀ r : list float, length (cs r) = length r - 2) →
    Shape (slice2 rs cs p) NX NY).
  { intros rs cs H1 H2 H3.
    pose proof (Shape_slice2 rs cs p _ _ H1 H2 H3 HSp) as H.
    by replace (NX + 2 - 2) with NX in H by lia;
       replace (NY + 2 - 2) with NY in H by lia. }
  assert (Shape lap NX NY) as HSlap.
  { unfold lap, arr_add, arr_sub.
    repeat first [ apply Shape_zip_with | apply Shape_scal_mul ];
      (apply HSp';
        [ first [ apply length_mid | apply length_from2 | apply length_upto_m2 ]
        | first [ apply Forall_mid | apply Forall_from2 | apply Forall_upto_m2 ]
        | first [ apply length_mid | apply length_from2 | apply length_upto_m2 ] ]). }
  assert (Shape (arr_add u (scal_mul dt lap)) NX NY) as HSnew.
  { unfold arr_add. apply Shape_zip_with; [done|]. by apply Shape_scal_mul. }
  destruct (bands_cells top_band bottom_band hot_T _ NX NY HSnew) as [HSg Hcg].
  eexists. split; [reflexivity|]. split; [exact HSg|].
  intros i j Hi Hj. rewrite (Hcg i j Hi Hj).
  case_decide; [done|]. apply cell_opt_cell.
  unfold arr_add at 1. rewrite cell_opt_zip_with, cell_opt_scal_mul.
  rewrite (Shape_cell_opt u NX NY i j HS Hi Hj). simpl.
  unfold lap, arr_add, arr_sub.
  rewrite !cell_opt_zip_with, !cell_opt_scal_mul.
  rewrite (cell_opt_mid_mid p (NX + 2) (NY + 2) i j HSp ltac:(lia) ltac:(lia)).
  rewrite (cell_opt_upto_m2_mid p (NX + 2) (NY + 2) i j HSp ltac:(lia) ltac:(lia)).
  rewrite (cell_opt_from2_mid p (NX + 2) (NY + 2) i j HSp ltac:(lia) ltac:(lia)).
  rewrite (cell_opt_mid_upto_m2 p (NX + 2) (NY + 2) i j HSp ltac:(lia) ltac:(lia)).
  rewrite (cell_opt_mid_from2 p (NX + 2) (NY + 2) i j HSp ltac:(lia) ltac:(lia)).
  simpl. rewrite !Hcp by lia. unfold mirrored_five_point.
  replace (Nat.min (S i - 1) (NX - 1)) with i by lia.
  replace (Nat.min (S j - 1) (NY - 1)) with j by lia.
  replace (Nat.min (i - 1) (NX - 1)) with (i - 1) by lia.
  replace (Nat.min (j - 1) (NY - 1)) with (j - 1) by lia.
  replace (Nat.min (S (S i) - 1) (NX - 1)) with (Nat.min (i + 1) (NX - 1)) by lia.
  replace (Nat.min (S (S j) - 1) (NY - 1)) with (Nat.min (j + 1) (NY - 1)) by lia.
  reflexivity.
Qed.
End overlay_facts.

(** * The step with free sides *)

(** X1.  One [step_heat] of visualize_ranks_overlay.py on an array with cell
    (i, j) returns an array of the same shape.  A cell of the top or of the
    bottom band holds [hot_T], in the side columns too; every other cell, the
    side columns included, holds u[i,j] + dt*(up + down + left + right -
    4*u[i,j]) where a neighbour that would lie outside the array is replaced by
    the cell itself of that edge (the padding with edge values). *)
Theorem overlay_step_heat_mirrors_edges (dt hot_T : float) (top_band bottom_band : nat)
    (u : ndarray) (NX NY i j : nat) :
  Shape u NX NY → i < NX → j < NY →
  ∃ g, Overlay.step_heat dt hot_T top_band bottom_band u = Ok g ∧ Shape g NX NY ∧
    ((i < top_band ∨ NX ≤ i + bottom_band) → cell g i j = hot_T) ∧
    (top_band ≤ i → 0 < bottom_band → i + bottom_band < NX →
     cell g i j
     = (cell u i j
        + dt * (cell u (i - 1) j + cell u (Nat.min (i + 1) (NX - 1)) j
                + cell u i (j - 1) + cell u i (Nat.min (j + 1) (NY - 1))
                - 4 * cell u i j))%float).
Proof.
  intros HS Hi Hj.
  destruct (overlay_step_cells dt hot_T top_band bottom_band u NX NY HS)
    as (g & Hg & HSg & Hc); [lia|lia|].
  exists g. split; [done|]. split; [done|]. rewrite (Hc i j Hi Hj). split.
  - intros Hband. rewrite decide_True; [done|]. unfold neg_start. case_decide; lia.
  - intros Ht Hb Hb'. rewrite decide_False; [done|]. unfold neg_start. case_decide; lia.
Qed.

Lemma overlay_step_heat_mirrors_edges_witness :
  ∃ g, Overlay.step_heat 0.15 100 1 1
         [[1; 2; 3]; [4; 5; 6]; [7; 8; 9]; [10; 11; 12]]%float = Ok g ∧
    Shape g 4 3 ∧
    ((1 < 1 ∨ 4 ≤ 1 + 1) → cell g 1 0 = 100%float) ∧
    (1 ≤ 1 → 0 < 1 → 1 + 1 < 4 →
     cell g 1 0
     = (cell [[1; 2; 3]; [4; 5; 6]; [7; 8; 9]; [10; 11; 12]] 1 0
        + 0.15 * (cell [[1; 2; 3]; [4; 5; 6]; [7; 8; 9]; [10; 11; 12]] (1 - 1) 0
                  + cell [[1; 2; 3]; [4; 5; 6]; [7; 8; 9]; [10; 11; 12]]
                      (Nat.min (1 + 1) (4 - 1)) 0
                  + cell [[1; 2; 3]; [4; 5; 6]; [7; 8; 9]; [10; 11; 12]] 1 (0 - 1)
                  + cell [[1; 2; 3]; [4; 5; 6]; [7; 8; 9]; [10; 11; 12]] 1
                      (Nat.min (0 + 1) (3 - 1))
                  - 4 * cell [[1; 2; 3]; [4; 5; 6]; [7; 8; 9]; [10; 11; 12]] 1 0))%float).
Proof.
  apply (overlay_step_heat_mirrors_edges 0.15 100 1 1
           [[1; 2; 3]; [4; 5; 6]; [7; 8; 9]; [10; 11; 12]]%float 4 3 1 0).
  - split; [reflexivity | repeat constructor].
  - lia.
  - lia.
Defined.

(** * The snapshots of the loops *)

Section snapshot_facts.
Context (NX NY : nat).
Hypothesis HNX : 0 < NX.
Hypothesis HNY : 0 < NY.

Lemma heat_pro_iterate dt hot_T cold_T top_band bottom_band n u :
  Shape u NX NY →
  ∃ g, iterate (HeatPro.step_heat dt hot_T cold_T top_band bottom_band) n u = Ok g ∧
       Shape g NX NY.
Proof.
  apply (iterate_total _ (λ v, Shape v NX NY)). intros v Hv.
  destruct (step_heat_cells dt hot_T cold_T top_band bottom_band v NX NY Hv HNX HNY)
    as (g & Hg & HSg & _).
  by exists g.
Qed.

Lemma overlay_iterate dt hot_T top_band bottom_band n u :
  Shape u NX NY →
  ∃ g, iterate (Overlay.step_heat dt hot_T top_band bottom_band) n u = Ok g ∧
       Shape g NX NY.
Proof.
  apply (iterate_total _ (λ v, Shape v NX NY)). intros v Hv.
  destruct (overlay_step_cells dt hot_T top_band bottom_band v NX NY Hv HNX HNY)
    as (g & Hg & HSg & _).
  by exists g.
Qed.
End snapshot_facts.

(** X2.  The loops of heat_pro_visualization.py and of
    visualize_ranks_overlay.py, run for [n] steps on an array with a row and a
    column and with a positive [snap_every], return the grid after [n] steps
    and the list of snapshots: the initial grid, then, for every step index
    k < n that is a multiple of [snap_every], in order, the grid after k + 1
    steps.  There are (n + snap_every - 1) / snap_every snapshots after the
    initial one. *)
Theorem loops_snapshot_after_step_indices (dt hot_T cold_T : float)
    (top_band bottom_band snap_every n : nat) (u : ndarray) (NX NY : nat) :
  Shape u NX NY → 0 < NX → 0 < NY → 0 < snap_every →
  (∃ g tail,
     HeatPro.simulate dt hot_T cold_T top_band bottom_band n snap_every u
     = Ok (g, u :: tail) ∧
     iterate (HeatPro.step_heat dt hot_T cold_T top_band bottom_band) n u = Ok g ∧
     Forall2
       (λ k x, iterate (HeatPro.step_heat dt hot_T cold_T top_band bottom_band) (S k) u
               = Ok x)
       (filter (λ k, k mod snap_every = 0) (seq 0 n)) tail ∧
     length tail = (n + snap_every - 1) / snap_every) ∧
  (∃ g tail,
     Overlay.simulate dt hot_T top_band bottom_band n snap_every u = Ok (g, u :: tail) ∧
     iterate (Overlay.step_heat dt hot_T top_band bottom_band) n u = Ok g ∧
     Forall2
       (λ k x, iterate (Overlay.step_heat dt hot_T top_band bottom_band) (S k) u = Ok x)
       (filter (λ k, k mod snap_every = 0) (seq 0 n)) tail ∧
     length tail = (n + snap_every - 1) / snap_every).
Proof.
  intros HS HNX HNY Hsnap.
  assert (Hgen : ∀ step loop,
    (∀ s k v snaps, loop s 0 k v snaps = Ok (v, snaps)) →
    (∀ s m k v snaps,
       loop s (S m) k v snaps
       = (u' ← step v;
          if decide (s = 0) then Raise ZeroDivisionError
          else loop s m (S k) u'
                 (if decide (k mod s = 0) then snaps ++ [u'] else snaps))) →
    (∃ g, iterate step n u = Ok g) →
    ∃ g tail,
      loop snap_every n 0 u [u] = Ok (g, u :: tail) ∧
      iterate step n u = Ok g ∧
      Forall2 (λ k x, iterate step (S k) u = Ok x)
        (filter (λ k, k mod snap_every = 0) (seq 0 n)) tail ∧
      length tail = (n + snap_every - 1) / snap_every).
  { intros step loop H0 HS' [g Hg].
    destruct (loop_snapshots step loop H0 HS' snap_every n 0 u [u] g Hsnap Hg)
      as (tail & Hloop & Htail).
    exists g, tail. split; [done|]. split; [done|].
    assert (Forall2 (λ k x, iterate step (S k) u = Ok x)
              (filter (λ k, k mod snap_every = 0) (seq 0 n)) tail) as Htail'.
    { eapply Forall2_impl; [exact Htail|]. intros k x [_ Hx].
      by rewrite Nat.sub_0_r in Hx. }
    split; [done|].
    rewrite <- (Forall2_length _ _ _ Htail'). by apply length_filter_mod. }
  split.
  - apply (Hgen (HeatPro.step_heat dt hot_T cold_T top_band bottom_band)
             (HeatPro.run_loop dt hot_T cold_T top_band bottom_band)); [done|done|].
    destruct (heat_pro_iterate NX NY HNX HNY dt hot_T cold_T top_band bottom_band n u HS)
      as (g & Hg & _).
    by exists g.
  - apply (Hgen (Overlay.step_heat dt hot_T top_band bottom_band)
             (Overlay.run_loop dt hot_T top_band bottom_band)); [done|done|].
    destruct (overlay_iterate NX NY HNX HNY dt hot_T top_band bottom_band n u HS)
      as (g & Hg & _).
    by exists g.
Qed.

Lemma loops_snapshot_after_step_indices_witness :
  (∃ g tail,
     HeatPro.simulate 0.15 100 0 1 1 7 3 (constant_block 4 4 1) = Ok (g, constant_block 4 4 1 :: tail) ∧
     iterate (HeatPro.step_heat 0.15 100 0 1 1) 7 (constant_block 4 4 1) = Ok g ∧
     Forall2
       (λ k x, iterate (HeatPro.step_heat 0.15 100 0 1 1) (S k) (constant_block 4 4 1)
               = Ok x)
       (filter (λ k, k mod 3 = 0) (seq 0 7)) tail ∧
     length tail = (7 + 3 - 1) / 3) ∧
  (∃ g tail,
     Overlay.simulate 0.15 100 1 1 7 3 (constant_block 4 4 1) = Ok (g, constant_block 4 4 1 :: tail) ∧
     iterate (Overlay.step_heat 0.15 100 1 1) 7 (constant_block 4 4 1) = Ok g ∧
     Forall2
       (λ k x, iterate (Overlay.step_heat 0.15 100 1 1) (S k) (constant_block 4 4 1) = Ok x)
       (filter (λ k, k mod 3 = 0) (seq 0 7)) tail ∧
     length tail = (7 + 3 - 1) / 3).
Proof.
  apply (loops_snapshot_after_step_indices 0.15 100 0 1 1 3 7 (constant_block 4 4 1) 4 4).
  - split; [reflexivity | repeat constructor].
  - lia.
  - lia.
  - lia.
Defined.

(** * The frames of animate_heat.py *)

Lemma steps_iterate dt hot_T cold_T n u :
  AnimateHeat.steps dt hot_T cold_T n u
  = iterate (AnimateHeat.step_heat dt hot_T cold_T) n u.
Proof.
  revert u. induction n as [|n IH]; intros u; simpl; [done|].
  destruct (AnimateHeat.step_heat dt hot_T cold_T u); simpl; [apply IH|done].
Qed.

(** X3.  The solver steps of animate_heat.py compose: m + n steps are m steps
    followed by n steps on their result, an exception of the first part being
    the exception of the whole.  So [k] calls of [update] in a row leave the
    grid of k * snap_every steps. *)
Theorem animate_frames_are_steps (dt hot_T cold_T : float) :
  (∀ m n u,
     AnimateHeat.steps dt hot_T cold_T (m + n) u
     = (u' ← AnimateHeat.steps dt hot_T cold_T m u; AnimateHeat.steps dt hot_T cold_T n u')) ∧
  (∀ snap_every k u,
     animate_frames dt hot_T cold_T snap_every k u
     = AnimateHeat.steps dt hot_T cold_T (k * snap_every) u).
Proof.
  assert (Hadd : ∀ m n u,
     AnimateHeat.steps dt hot_T cold_T (m + n) u
     = (u' ← AnimateHeat.steps dt hot_T cold_T m u; AnimateHeat.steps dt hot_T cold_T n u')).
  { intros m n u. rewrite !steps_iterate, iterate_add.
    destruct (iterate _ m u); simpl; [by rewrite steps_iterate|done]. }
  split; [exact Hadd|].
  intros snap_every k. induction k as [|k IH]; intros u; simpl; [done|].
  rewrite Hadd. destruct (AnimateHeat.steps dt hot_T cold_T snap_every u); simpl; [apply IH|done].
Qed.

(** * Grids that are all boundary, and grids without interior *)

Section whole_grid_facts.
Context (dt hot_T cold_T : float) (top_band bottom_band : nat).

(** When every row lies in a band the step forgets the old grid, and its
    result is a fixed point of the step. *)
Lemma step_heat_all_band u NX NY :
  Shape u NX NY → 0 < NX → 0 < NY →
  (∀ i, i < NX → i < top_band ∨ neg_start bottom_band NX ≤ i) →
  ∃ g, HeatPro.step_heat dt hot_T cold_T top_band bottom_band u = Ok g ∧
    Shape g NX NY ∧
    (∀ i j, i < NX → j < NY →
       cell g i j = if decide (j = 0 ∨ j = NY - 1) then cold_T else hot_T) ∧
    HeatPro.step_heat dt hot_T cold_T top_band bottom_band g = Ok g.
Proof.
  intros HS HNX HNY Hband.
  assert (Hstep : ∀ v, Shape v NX NY →
    ∃ g, HeatPro.step_heat dt hot_T cold_T top_band bottom_band v = Ok g ∧
      Shape g NX NY ∧
      ∀ i j, i < NX → j < NY →
        cell g i j = if decide (j = 0 ∨ j = NY - 1) then cold_T else hot_T).
  { intros v Hv.
    destruct (step_heat_cells dt hot_T cold_T top_band bottom_band v NX NY Hv HNX HNY)
      as (g & Hg & HSg & Hc).
    exists g. split; [done|]. split; [done|]. intros i j Hi Hj.
    rewrite (Hc i j Hi Hj). case_decide; [done|].
    by rewrite decide_True by (by apply Hband). }
  destruct (Hstep u HS) as (g & Hg & HSg & Hc).
  destruct (Hstep g HSg) as (g' & Hg' & HSg' & Hc').
  exists g. split; [done|]. split; [done|]. split; [done|].
  rewrite Hg'. f_equal. apply (Shape_ext g' g NX NY HSg' HSg).
  intros i j Hi Hj. by rewrite Hc, Hc'.
Qed.

(** Without an interior the update of the interior changes nothing. *)
Lemma interior_update_no_interior u NX NY :
  Shape u NX NY → NX ≤ 2 ∨ NY ≤ 2 → interior_update dt u = u.
Proof.
  intros HS Hsmall.
  apply (Shape_ext _ _ NX NY); [by apply Shape_interior_update|done|].
  intros i j Hi Hj. rewrite (cell_interior_update dt u NX NY HS i j Hi Hj).
  by rewrite decide_False by lia.
Qed.
End whole_grid_facts.

(** X4.  In [step_heat] of heat_pro_visualization.py the bottom band is the
    slice [-bottom_band:], and [-0:] is the whole array: with a bottom band of
    thickness 0 one step leaves [hot_T] in every cell outside the first and the
    last column, whatever the grid was and whatever [top_band] is, and [cold_T]
    in these two columns; a further step changes nothing. *)
Theorem bottom_band_zero_stamps_every_row (dt hot_T cold_T : float) (top_band : nat)
    (u : ndarray) (NX NY : nat) :
  Shape u NX NY → 0 < NX → 0 < NY →
  ∃ g, HeatPro.step_heat dt hot_T cold_T top_band 0 u = Ok g ∧
    (∀ i j, i < NX → j < NY →
       cell g i j = if decide (j = 0 ∨ j = NY - 1) then cold_T else hot_T) ∧
    HeatPro.step_heat dt hot_T cold_T top_band 0 g = Ok g.
Proof.
  intros HS HNX HNY.
  destruct (step_heat_all_band dt hot_T cold_T top_band 0 u NX NY HS HNX HNY)
    as (g & Hg & _ & Hc & Hfix).
  - intros i Hi. right. unfold neg_start. simpl. lia.
  - by exists g.
Qed.

Lemma bottom_band_zero_stamps_every_row_witness :
  ∃ g, HeatPro.step_heat 0.15 100 0 1 0 (constant_block 5 4 7) = Ok g ∧
    (∀ i j, i < 5 → j < 4 →
       cell g i j = if decide (j = 0 ∨ j = 4 - 1) then 0%float else 100%float) ∧
    HeatPro.step_heat 0.15 100 0 1 0 g = Ok g.
Proof.
  apply (bottom_band_zero_stamps_every_row 0.15 100 0 1 (constant_block 5 4 7) 5 4).
  - split; [reflexivity | repeat constructor].
  - lia.
  - lia.
Defined.

(** X5.  On a grid with no more rows than the two bands together
    (NX <= top_band + bottom_band, as a grid of up to 60 rows with the script's
    bands of 30) one [step_heat] of heat_pro_visualization.py leaves nothing of
    the old grid: the first and the last column hold [cold_T], every other cell
    [hot_T], and this grid is a fixed point of the step. *)
Theorem bands_cover_small_grid (dt hot_T cold_T : float) (top_band bottom_band : nat)
    (u : ndarray) (NX NY : nat) :
  Shape u NX NY → 0 < NX → 0 < NY → NX ≤ top_band + bottom_band →
  ∃ g, HeatPro.step_heat dt hot_T cold_T top_band bottom_band u = Ok g ∧
    (∀ i j, i < NX → j < NY →
       cell g i j = if decide (j = 0 ∨ j = NY - 1) then cold_T else hot_T) ∧
    HeatPro.step_heat dt hot_T cold_T top_band bottom_band g = Ok g.
Proof.
  intros HS HNX HNY Hcover.
  destruct (step_heat_all_band dt hot_T cold_T top_band bottom_band u NX NY HS HNX HNY)
    as (g & Hg & _ & Hc & Hfix).
  - intros i Hi. unfold neg_start. case_decide; lia.
  - by exists g.
Qed.

Lemma bands_cover_small_grid_witness :
  ∃ g, HeatPro.step_heat HeatPro.dt HeatPro.hot_T HeatPro.cold_T HeatPro.top_band
         HeatPro.bottom_band (constant_block 60 3 7) = Ok g ∧
    (∀ i j, i < 60 → j < 3 →
       cell g i j = if decide (j = 0 ∨ j = 3 - 1) then HeatPro.cold_T else HeatPro.hot_T) ∧
    HeatPro.step_heat HeatPro.dt HeatPro.hot_T HeatPro.cold_T HeatPro.top_band
      HeatPro.bottom_band g = Ok g.
Proof.
  apply (bands_cover_small_grid HeatPro.dt HeatPro.hot_T HeatPro.cold_T HeatPro.top_band
           HeatPro.bottom_band (constant_block 60 3 7) 60 3).
  - apply Shape_constant_block.
  - lia.
  - lia.
  - unfold HeatPro.top_band, HeatPro.bottom_band. lia.
Defined.

(** X6.  A grid with fewer than three rows or fewer than three columns has no
    interior: the slice assignment of the stencil changes no cell, and one
    [step_heat] of heat_pro_visualization.py or of animate_heat.py is the
    boundary assignments alone, applied to the grid as it is. *)
Theorem step_heat_without_interior (dt hot_T cold_T : float) (top_band bottom_band : nat)
    (u : ndarray) (NX NY : nat) :
  Shape u NX NY → NX ≤ 2 ∨ NY ≤ 2 →
  interior_update dt u = u ∧
  HeatPro.step_heat dt hot_T cold_T top_band bottom_band u
  = HeatPro.reapply_boundaries hot_T cold_T top_band bottom_band u ∧
  AnimateHeat.step_heat dt hot_T cold_T u
  = AnimateHeat.reapply_boundaries hot_T cold_T u.
Proof.
  intros HS Hsmall.
  pose proof (interior_update_no_interior dt u NX NY HS Hsmall) as Hu.
  split; [done|]. unfold HeatPro.step_heat, AnimateHeat.step_heat. by rewrite Hu.
Qed.

Lemma step_heat_without_interior_witness :
  interior_update 0.2 [[1; 2; 3; 4]; [5; 6; 7; 8]]%float = [[1; 2; 3; 4]; [5; 6; 7; 8]]%float ∧
  HeatPro.step_heat 0.2 100 0 1 1 [[1; 2; 3; 4]; [5; 6; 7; 8]]%float
  = HeatPro.reapply_boundaries 100 0 1 1 [[1; 2; 3; 4]; [5; 6; 7; 8]]%float ∧
  AnimateHeat.step_heat 0.2 100 0 [[1; 2; 3; 4]; [5; 6; 7; 8]]%float
  = AnimateHeat.reapply_boundaries 100 0 [[1; 2; 3; 4]; [5; 6; 7; 8]]%float.
Proof.
  apply (step_heat_without_interior 0.2 100 0 1 1 [[1; 2; 3; 4]; [5; 6; 7; 8]]%float 2 4).
  - split; [reflexivity | repeat constructor].
  - left. lia.
Defined.

(** * What the assembly checks *)

Section stack_facts.
Implicit Types (a b : ndarray).

Lemma hstack_pair_mismatch a b ha hb wa wb :
  Shape a ha wa → Shape b hb wb → ha ≠ hb → hstack [a; b] = Raise ValueError.
Proof.
  intros [Ha _] [Hb _] Hne. unfold hstack. simpl.
  rewrite Ha, Hb. by rewrite (proj2 (Nat.eqb_neq hb ha)) by done.
Qed.

Lemma vstack_pair_mismatch a b ha hb wa wb :
  Shape a ha wa → Shape b hb wb → 0 < ha → 0 < hb → wa ≠ wb →
  vstack [a; b] = Raise ValueError.
Proof.
  intros Ha Hb Hha Hhb Hne. unfold vstack. simpl.
  rewrite (ncols_Shape _ _ _ Ha Hha), (ncols_Shape _ _ _ Hb Hhb).
  by rewrite (proj2 (Nat.eqb_neq wb wa)) by done.
Qed.
End stack_facts.

(** X7.  For four blocks with at least one row each, the 2 x 2 assembly
    ([np.hstack] twice, then [np.vstack]) returns exactly when the two blocks
    of each mesh row have the same number of rows and the two mesh rows have
    the same total width; it raises ValueError otherwise.  The widths of the
    blocks of one mesh column are not compared: blocks of widths 4 and 6 over
    blocks of widths 5 and 5 are assembled. *)
Theorem full_grid_checks_totals_only (b0 b1 b2 b3 : ndarray)
    (ha hb hc hd wa wb wc wd : nat) :
  Shape b0 ha wa → Shape b1 hb wb → Shape b2 hc wc → Shape b3 hd wd →
  0 < ha → 0 < hc →
  (ha = hb ∧ hc = hd ∧ wa + wb = wc + wd →
   ∃ g, full_grid b0 b1 b2 b3 = Ok g ∧ Shape g (ha + hc) (wa + wb)) ∧
  (¬ (ha = hb ∧ hc = hd ∧ wa + wb = wc + wd) →
   full_grid b0 b1 b2 b3 = Raise ValueError).
Proof.
  intros H0 H1 H2 H3 Hha Hhc. split.
  - intros (-> & -> & Hw).
    pose proof (Shape_hcat _ _ _ _ _ H0 H1) as Htop.
    pose proof (Shape_hcat _ _ _ _ _ H2 H3) as Hbot.
    rewrite <- Hw in Hbot.
    exists (zip_with app b0 b1 ++ zip_with app b2 b3).
    unfold full_grid, top_row, bottom_row.
    rewrite (hstack_pair _ _ _ _ _ H0 H1), (hstack_pair _ _ _ _ _ H2 H3). simpl.
    split; [exact (vstack_pair _ _ _ _ _ Htop Hbot Hha Hhc)|]. by apply Shape_app.
  - intros Hno. unfold full_grid, top_row, bottom_row.
    destruct (decide (ha = hb)) as [->|Hab].
    + destruct (decide (hc = hd)) as [->|Hcd].
      * rewrite (hstack_pair _ _ _ _ _ H0 H1), (hstack_pair _ _ _ _ _ H2 H3).
        apply (vstack_pair_mismatch _ _ hb hd (wa + wb) (wc + wd));
          [by apply Shape_hcat|by apply Shape_hcat|done|done|].
        intros Hw. apply Hno. done.
      * by rewrite (hstack_pair _ _ _ _ _ H0 H1),
          (hstack_pair_mismatch _ _ _ _ _ _ H2 H3 Hcd).
    + by rewrite (hstack_pair_mismatch _ _ _ _ _ _ H0 H1 Hab).
Qed.

Lemma full_grid_checks_totals_only_witness :
  (3 = 3 ∧ 2 = 2 ∧ 4 + 6 = 5 + 5 →
   ∃ g, full_grid (constant_block 3 4 1) (constant_block 3 6 2) (constant_block 2 5 3)
          (constant_block 2 5 4) = Ok g ∧ Shape g (3 + 2) (4 + 6)) ∧
  (¬ (3 = 3 ∧ 2 = 2 ∧ 4 + 6 = 5 + 5) →
   full_grid (constant_block 3 4 1) (constant_block 3 6 2) (constant_block 2 5 3)
     (constant_block 2 5 4) = Raise ValueError).
Proof.
  apply (full_grid_checks_totals_only (constant_block 3 4 1) (constant_block 3 6 2)
           (constant_block 2 5 3) (constant_block 2 5 4) 3 3 2 2 4 6 5 5).
  - apply Shape_constant_block.
  - apply Shape_constant_block.
  - apply Shape_constant_block.
  - apply Shape_constant_block.
  - lia.
  - lia.
Defined.

(** X8.  visualize_1d.py stacks the four stripes in rank order: for stripes
    with at least one row each, [full_grid_1d] returns the rows of block 0,
    then those of block 1, 2 and 3, an array of h0 + h1 + h2 + h3 rows, when
    the four widths agree, and raises ValueError when they do not. *)
Theorem full_grid_1d_stacks_in_rank_order (b0 b1 b2 b3 : ndarray)
    (h0 h1 h2 h3 w0 w1 w2 w3 : nat) :
  Shape b0 h0 w0 → Shape b1 h1 w1 → Shape b2 h2 w2 → Shape b3 h3 w3 →
  0 < h0 → 0 < h1 → 0 < h2 → 0 < h3 →
  (w1 = w0 ∧ w2 = w0 ∧ w3 = w0 →
   full_grid_1d b0 b1 b2 b3 = Ok (b0 ++ b1 ++ b2 ++ b3) ∧
   Shape (b0 ++ b1 ++ b2 ++ b3) (h0 + (h1 + (h2 + h3))) w0) ∧
  (¬ (w1 = w0 ∧ w2 = w0 ∧ w3 = w0) → full_grid_1d b0 b1 b2 b3 = Raise ValueError).
Proof.
  intros H0 H1 H2 H3 Hh0 Hh1 Hh2 Hh3.
  unfold full_grid_1d, vstack. simpl.
  rewrite (ncols_Shape _ _ _ H0 Hh0), (ncols_Shape _ _ _ H1 Hh1),
    (ncols_Shape _ _ _ H2 Hh2), (ncols_Shape _ _ _ H3 Hh3).
  split.
  - intros (-> & -> & ->). rewrite !Nat.eqb_refl. simpl. rewrite app_nil_r.
    split; [done|]. repeat apply Shape_app; done.
  - intros Hno.
    destruct (Nat.eqb_spec w1 w0) as [->|]; simpl; [|done].
    destruct (Nat.eqb_spec w2 w0) as [->|]; simpl; [|done].
    destruct (Nat.eqb_spec w3 w0) as [->|]; simpl; [|done].
    by destruct Hno.
Qed.

Lemma full_grid_1d_stacks_in_rank_order_witness :
  (5 = 5 ∧ 5 = 5 ∧ 5 = 5 →
   full_grid_1d (constant_block 1 5 1) (constant_block 2 5 2) (constant_block 1 5 3)
     (constant_block 3 5 4)
   = Ok (constant_block 1 5 1 ++ constant_block 2 5 2 ++ constant_block 1 5 3
         ++ constant_block 3 5 4) ∧
   Shape (constant_block 1 5 1 ++ constant_block 2 5 2 ++ constant_block 1 5 3
          ++ constant_block 3 5 4) (1 + (2 + (1 + 3))) 5) ∧
  (¬ (5 = 5 ∧ 5 = 5 ∧ 5 = 5) →
   full_grid_1d (constant_block 1 5 1) (constant_block 2 5 2) (constant_block 1 5 3)
     (constant_block 3 5 4) = Raise ValueError).
Proof.
  apply (full_grid_1d_stacks_in_rank_order (constant_block 1 5 1) (constant_block 2 5 2)
           (constant_block 1 5 3) (constant_block 3 5 4) 1 2 1 3 5 5 5 5).
  - apply Shape_constant_block.
  - apply Shape_constant_block.
  - apply Shape_constant_block.
  - apply Shape_constant_block.
  - lia.
  - lia.
  - lia.
  - lia.
Defined.

(** * The repair and the assembly after it *)

Section repair_facts.
Lemma Shape_truncate (arr : ndarray) NX NY :
  Shape arr NX NY → 0 < NX →
  ∃ out, truncate (Matrix arr) = Ok (Matrix out) ∧
         Shape out NX (if decide (NY = 101) then 100 else NY).
Proof.
  intros HS HNX. case_decide as HNY.
  - subst NY. destruct (truncate_101 arr NX HS HNX) as (Ht & HSt & _). by eexists.
  - exists arr. split; [by apply (truncate_other arr NX NY)|done].
Qed.
End repair_facts.

(** X9.  The repair of fix_csv.py is idempotent and never leaves 101 columns
    on the arrays of two dimensions, those [np.genfromtxt] returns for a file
    of at least two lines and two columns: the repaired array has the same
    number of rows, its width is not 101 and is at least two, and repairing it
    again changes nothing.  On an array of one dimension the repair raises
    IndexError instead. *)
Theorem truncate_idempotent (arr : ndarray) (NX NY : nat) :
  Shape arr NX NY → 2 ≤ NX → 2 ≤ NY →
  ∃ out, truncate (Matrix arr) = Ok (Matrix out) ∧
         length out = NX ∧
         ncols out ≠ 101 ∧
         2 ≤ ncols out ∧
         truncate (Matrix out) = Ok (Matrix out).
Proof.
  intros HS HNX HNY.
  destruct (Shape_truncate arr NX NY HS ltac:(lia)) as (out & Ht & HSt).
  exists out. split; [done|].
  assert (ncols out ≠ 101 ∧ 2 ≤ ncols out) as [Hw Hw2].
  { rewrite (ncols_Shape _ _ _ HSt ltac:(lia)). case_decide; lia. }
  split; [by destruct HSt|]. split; [done|]. split; [done|].
  unfold truncate. simpl. by rewrite decide_False.
Qed.

Lemma truncate_idempotent_witness :
  ∃ out, truncate (Matrix (constant_block 3 101 1)) = Ok (Matrix out) ∧
         length out = 3 ∧
         ncols out ≠ 101 ∧
         2 ≤ ncols out ∧
         truncate (Matrix out) = Ok (Matrix out).
Proof.
  apply (truncate_idempotent (constant_block 3 101 1) 3 101).
  - apply Shape_constant_block.
  - lia.
  - lia.
Defined.

(** X10.  After the repair the four rank arrays fit the 2 x 2 assembly of
    visualize2.py: if the four parsed arrays have two dimensions, the two
    arrays of each mesh row have the same number of rows, at least two, and
    every array has 100 or 101 columns, in any mixture, then every repair
    returns and the repaired arrays assemble into a grid of 200 columns. *)
Theorem repaired_blocks_assemble (a0 a1 a2 a3 : ndarray) (h0 h1 w0 w1 w2 w3 : nat) :
  Shape a0 h0 w0 → Shape a1 h0 w1 → Shape a2 h1 w2 → Shape a3 h1 w3 →
  2 ≤ h0 → 2 ≤ h1 →
  (w0 = 100 ∨ w0 = 101) → (w1 = 100 ∨ w1 = 101) →
  (w2 = 100 ∨ w2 = 101) → (w3 = 100 ∨ w3 = 101) →
  ∃ r0 r1 r2 r3 g,
    truncate (Matrix a0) = Ok (Matrix r0) ∧ truncate (Matrix a1) = Ok (Matrix r1) ∧
    truncate (Matrix a2) = Ok (Matrix r2) ∧ truncate (Matrix a3) = Ok (Matrix r3) ∧
    full_grid r0 r1 r2 r3 = Ok g ∧
    Shape g (h0 + h1) 200.
Proof.
  intros H0 H1 H2 H3 Hh0 Hh1 Hw0 Hw1 Hw2 Hw3.
  assert (∀ a h w, Shape a h w → 2 ≤ h → w = 100 ∨ w = 101 →
            ∃ r, truncate (Matrix a) = Ok (Matrix r) ∧ Shape r h 100) as Hfix.
  { intros a h w Ha Hh Hw.
    destruct (Shape_truncate a h w Ha ltac:(lia)) as (r & Hr & Ht).
    exists r. split; [done|].
    destruct Hw as [->| ->]; [by rewrite decide_False in Ht|by rewrite decide_True in Ht]. }
  destruct (Hfix _ _ _ H0 Hh0 Hw0) as (r0 & E0 & T0).
  destruct (Hfix _ _ _ H1 Hh0 Hw1) as (r1 & E1 & T1).
  destruct (Hfix _ _ _ H2 Hh1 Hw2) as (r2 & E2 & T2).
  destruct (Hfix _ _ _ H3 Hh1 Hw3) as (r3 & E3 & T3).
  pose proof (Shape_hcat _ _ _ _ _ T0 T1) as Htop.
  pose proof (Shape_hcat _ _ _ _ _ T2 T3) as Hbot.
  exists r0, r1, r2, r3, (zip_with app r0 r1 ++ zip_with app r2 r3).
  split; [done|]. split; [done|]. split; [done|]. split; [done|].
  unfold full_grid, top_row, bottom_row.
  rewrite (hstack_pair _ _ _ _ _ T0 T1), (hstack_pair _ _ _ _ _ T2 T3). simpl.
  split; [apply (vstack_pair _ _ _ _ _ Htop Hbot); lia|].
  by apply (Shape_app _ _ h0 h1 200).
Qed.

Lemma repaired_blocks_assemble_witness :
  ∃ r0 r1 r2 r3 g,
    truncate (Matrix (constant_block 2 101 1)) = Ok (Matrix r0) ∧
    truncate (Matrix (constant_block 2 100 2)) = Ok (Matrix r1) ∧
    truncate (Matrix (constant_block 3 100 3)) = Ok (Matrix r2) ∧
    truncate (Matrix (constant_block 3 101 4)) = Ok (Matrix r3) ∧
    full_grid r0 r1 r2 r3 = Ok g ∧
    Shape g (2 + 3) 200.
Proof.
  apply (repaired_blocks_assemble (constant_block 2 101 1) (constant_block 2 100 2)
           (constant_block 3 100 3) (constant_block 3 101 4) 2 3 101 100 100 101).
  - apply Shape_constant_block.
  - apply Shape_constant_block.
  - apply Shape_constant_block.
  - apply Shape_constant_block.
  - lia.
  - lia.
  - right. reflexivity.
  - left. reflexivity.
  - left. reflexivity.
  - right. reflexivity.
Defined.

(** * More on the parser: fields, blank files, concatenated files *)

Section field_facts.
Implicit Types (s t p : string) (c : ascii).

Lemma split_snoc_sep t c :
  split (t +:+ String c EmptyString) c = split t c ++ [EmptyString].
Proof.
  induction t as [|c0 t IH].
  - rewrite append_nil_l. simpl. by rewrite decide_True.
  - rewrite append_cons. simpl. rewrite IH. case_decide; [done|].
    destruct (split t c) as [|p ps] eqn:E; [by destruct (split_nonempty t c)|]. done.
Qed.

Lemma split_without_sep p c : c ∉ chars p → split p c = [p].
Proof.
  induction p as [|c0 p IH]; [done|]. simpl. intros Hc.
  apply not_elem_of_cons in Hc as [Hne Hc].
  rewrite decide_False by done. by rewrite IH.
Qed.

Lemma split_app_sep p t c :
  c ∉ chars p → split (p +:+ String c t) c = p :: split t c.
Proof.
  induction p as [|c0 p IH].
  - intros _. rewrite append_nil_l. simpl. by rewrite decide_True.
  - intros Hc. simpl in Hc. apply not_elem_of_cons in Hc as [Hne Hc].
    rewrite append_cons. simpl. rewrite decide_False by done. by rewrite IH.
Qed.

Lemma split_join ps c :
  ps ≠ [] → Forall (λ p, c ∉ chars p) ps → split (join c ps) c = ps.
Proof.
  intros Hne Hps. induction Hps as [|p ps Hp Hps IH]; [done|].
  destruct ps as [|q ps].
  - simpl. by apply split_without_sep.
  - change (join c (p :: q :: ps)) with (p +:+ String c (join c (q :: ps))).
    rewrite split_app_sep by done. by rewrite IH.
Qed.

(** Removing one trailing comma is subsumed by dropping the empty fields. *)
Lemma parts_of_filter s : parts_of s = filter (λ p, p ≠ EmptyString) (split s comma).
Proof.
  unfold parts_of. destruct (endswith s comma) eqn:He; [|done].
  rewrite (endswith_true _ _ He) at 2.
  rewrite split_snoc_sep, filter_app.
  rewrite (filter_cons_False _ EmptyString) by (by intros H).
  by rewrite filter_nil, app_nil_r.
Qed.
End field_facts.

(** X11.  In [load_block] the removal of one trailing comma changes nothing
    that dropping the empty fields would not: for every stripped line the
    fields are the non-empty pieces of the line split at the commas, and a
    line with a further comma at its end has the same fields. *)
Theorem trailing_commas_never_matter (s : string) :
  parts_of s = filter (λ p, p ≠ EmptyString) (split s comma) ∧
  parts_of (s +:+ String comma EmptyString) = parts_of s.
Proof.
  split; [apply parts_of_filter|].
  rewrite !parts_of_filter, split_snoc_sep, filter_app.
  rewrite (filter_cons_False _ EmptyString) by (by intros H).
  by rewrite filter_nil, app_nil_r.
Qed.

(** X12.  Writing and reading back a row of fields: for at least one field,
    each non-empty and without a comma, the fields joined by commas, with or
    without a comma after the last one, are split by [load_block] into these
    fields again, in order. *)
Theorem parts_of_join (ps : list string) :
  ps ≠ [] → Forall (λ p, p ≠ EmptyString ∧ comma ∉ chars p) ps →
  parts_of (join comma ps) = ps ∧
  parts_of (join comma ps +:+ String comma EmptyString) = ps.
Proof.
  intros Hne Hps.
  assert (parts_of (join comma ps) = ps) as Hparts.
  { rewrite parts_of_filter, split_join; [|done|].
    - clear Hne. induction Hps as [|p ps [Hp _] _ IH]; [done|].
      by rewrite filter_cons_True, IH.
    - eapply Forall_impl; [exact Hps|]. by intros p [_ ?]. }
  split; [done|].
  rewrite !parts_of_filter, split_snoc_sep, filter_app.
  rewrite (filter_cons_False _ EmptyString) by (by intros H).
  by rewrite filter_nil, app_nil_r, <- parts_of_filter.
Qed.

Lemma parts_of_join_witness :
  parts_of (join comma ["1.5"; "-2"; "30"]) = ["1.5"; "-2"; "30"] ∧
  parts_of (join comma ["1.5"; "-2"; "30"] +:+ String comma EmptyString)
  = ["1.5"; "-2"; "30"].
Proof.
  apply (parts_of_join ["1.5"; "-2"; "30"]).
  - discriminate.
  - repeat constructor; try discriminate;
      simpl; rewrite ?not_elem_of_cons; repeat split;
      try (unfold comma; discriminate); apply not_elem_of_nil.
Defined.

Section file_facts.
Context (py_float : string → option float).

Lemma load_rows_blank f :
  Forall (λ l, strip l = EmptyString) f → load_rows py_float f = Ok [].
Proof.
  unfold load_rows. induction 1 as [|l f Hl _ IH]; [done|].
  simpl. by rewrite decide_True.
Qed.

Lemma load_rows_nil_blank f :
  load_rows py_float f = Ok [] → Forall (λ l, strip l = EmptyString) f.
Proof.
  unfold load_rows. induction f as [|l f IH]; [constructor|].
  simpl. case_decide as Hl.
  - intros H. constructor; [done|]. by apply IH.
  - destruct (floats py_float (parts_of (strip l))) as [row|e]; [|done].
    rewrite load_loop_acc.
    destruct (load_loop py_float [] f) as [more|e]; [|done].
    simpl. discriminate.
Qed.

Lemma load_rows_app f1 f2 :
  load_rows py_float (f1 ++ f2)
  = (r1 ← load_rows py_float f1; r2 ← load_rows py_float f2; Ok (r1 ++ r2)).
Proof.
  unfold load_rows. rewrite load_loop_app.
  destruct (load_loop py_float [] f1) as [r1|e]; [|done]. simpl.
  rewrite load_loop_acc. by destruct (load_loop py_float [] f2).
Qed.
End file_facts.

(** X13.  [load_block] collects no row exactly from the files whose lines are
    all blank (the empty file among them): its loop returns the empty list of
    rows if and only if every line is empty once trimmed, whatever [float]
    accepts. *)
Theorem load_rows_empty_iff_blank (py_float : string → option float) (f : list string) :
  load_rows py_float f = Ok [] ↔ Forall (λ l, strip l = EmptyString) f.
Proof. split; [apply load_rows_nil_blank|apply load_rows_blank]. Qed.

(** X14.  The loop of [load_block] works line by line: the rows of two files
    read one after the other are the rows of the first followed by the rows of
    the second, and the ValueError of a field of the first file is raised
    whatever the second holds. *)
Theorem load_rows_of_concatenation (py_float : string → option float)
    (f1 f2 : list string) :
  load_rows py_float (f1 ++ f2)
  = (r1 ← load_rows py_float f1; r2 ← load_rows py_float f2; Ok (r1 ++ r2)) ∧
  (∀ e, load_rows py_float f1 = Raise e → load_rows py_float (f1 ++ f2) = Raise e).
Proof.
  split; [apply load_rows_app|].
  intros e He. by rewrite load_rows_app, He.
Qed.

(** * File names *)

Section name_facts.
Implicit Types (s t p old new : string) (c : ascii).

Lemma append_assoc s t p : (s +:+ t) +:+ p = s +:+ (t +:+ p).
Proof. induction s as [|c s IH]; [done|]. by rewrite !append_cons, IH. Qed.

Lemma prefix_app p s : String.prefix p (p +:+ s) = true.
Proof.
  induction p as [|c p IH]; [by destruct s|].
  rewrite append_cons. simpl. by destruct (ascii_dec c c).
Qed.

Lemma prefix_true old s : String.prefix old s = true → ∃ t, s = old +:+ t.
Proof.
  revert s. induction old as [|a old IH]; intros s H.
  - by exists s.
  - destruct s as [|c s]; [done|]. simpl in H.
    destruct (ascii_dec a c) as [->|]; [|done].
    destruct (IH s H) as [t ->]. by exists t.
Qed.

Lemma str_endswith_app s suffix : str_endswith (s +:+ suffix) suffix = true.
Proof.
  induction s as [|c s IH].
  - rewrite append_nil_l. destruct suffix as [|a suf]; [done|].
    change (str_endswith (String a suf) (String a suf))
      with ((String a suf =? String a suf)%string || str_endswith suf (String a suf)).
    by rewrite String.eqb_refl.
  - rewrite append_cons.
    change (str_endswith (String c (s +:+ suffix)) suffix)
      with ((String c (s +:+ suffix) =? suffix)%string || str_endswith (s +:+ suffix) suffix).
    rewrite IH. apply orb_true_r.
Qed.

(** A string without an occurrence of [old] is returned as it is. *)
Lemma replace_from_no_occurrence s old new :
  (∀ a b, s ≠ a +:+ old +:+ b) → replace_from 0 s old new = s.
Proof.
  induction s as [|c s IH]; [done|]. intros Hno.
  change (replace_from 0 (String c s) old new)
    with (if String.prefix old (String c s)
          then new +:+ replace_from (String.length old - 1) s old new
          else String c (replace_from 0 s old new)).
  destruct (String.prefix old (String c s)) eqn:Hp.
  - destruct (prefix_true _ _ Hp) as [t Ht].
    by destruct (Hno EmptyString t).
  - rewrite IH; [done|]. intros a b ->. by destruct (Hno (String c a) b).
Qed.

(** The characters before the first character of [old] are kept. *)
Lemma replace_from_stem stem a old new t :
  a ∉ chars stem →
  replace_from 0 (stem +:+ t) (String a old) new
  = stem +:+ replace_from 0 t (String a old) new.
Proof.
  induction stem as [|c stem IH]; [done|]. intros Hc. simpl in Hc.
  apply not_elem_of_cons in Hc as [Hne Hc].
  rewrite !append_cons. simpl.
  destruct (ascii_dec a c) as [->|]; [done|]. by rewrite IH.
Qed.
End name_facts.

(** X15.  The name fix_csv.py writes to is the name it read with every
    occurrence of ".csv" replaced by "_fixed.csv": a name made of a stem
    without a dot and the ending ".csv" gives the stem followed by
    "_fixed.csv"; a name in which ".csv" does not occur is returned unchanged,
    so that the output file is the input file; and the four names of the
    script give, in order, the four names visualize2.py reads. *)
Theorem out_file_names (stem f : string) :
  ("." % char ∉ chars stem →
   out_file (stem +:+ ".csv") = stem +:+ "_fixed.csv") ∧
  ((∀ a b, f ≠ a +:+ ".csv" +:+ b) → out_file f = f) ∧
  out_file <$> fix_csv_files = visualize2_files.
Proof.
  split; [|split].
  - intros Hstem. unfold out_file, str_replace.
    by rewrite replace_from_stem.
  - intros Hno. unfold out_file, str_replace. by apply replace_from_no_occurrence.
  - reflexivity.
Qed.

(** * The step number in a file name *)

Section step_facts.
Implicit Types (s t : string) (c : ascii) (d : Decimal.uint).

Lemma string_of_uint_digits d :
  Forall (λ c, is_Some (digit_of c)) (chars (NilEmpty.string_of_uint d)).
Proof. induction d; simpl; constructor; try done; by eexists. Qed.

Lemma zeros_digits k : Forall (λ c, is_Some (digit_of c)) (chars (zeros k)).
Proof. induction k; simpl; constructor; [by eexists|done]. Qed.

Lemma format_04d_digits n : Forall (λ c, is_Some (digit_of c)) (chars (format_04d n)).
Proof.
  unfold format_04d. rewrite chars_app. apply Forall_app.
  split; [apply zeros_digits|apply string_of_uint_digits].
Qed.

Lemma to_uint_nonnil n : Nat.to_uint n ≠ Decimal.Nil.
Proof.
  intros H. pose proof (Unsigned.of_to n) as Hn. rewrite H in Hn.
  simpl in Hn. subst n. discriminate.
Qed.

Lemma format_04d_nonempty n : format_04d n ≠ EmptyString.
Proof.
  unfold format_04d. pose proof (to_uint_nonnil n) as Hn.
  destruct (Nat.to_uint n); try done; simpl;
    by destruct (zeros _).
Qed.

(** A character that is a digit is none of the others the code looks for. *)
Lemma digit_not c c' :
  is_Some (digit_of c) → digit_of c' = None → c ≠ c'.
Proof. intros [d Hd] Hc' ->. congruence. Qed.

Lemma digits_without s c' :
  Forall (λ c, is_Some (digit_of c)) (chars s) → digit_of c' = None → c' ∉ chars s.
Proof.
  intros Hs Hc' Hin. apply (proj1 (Forall_forall _ _) Hs) in Hin.
  by apply (digit_not c' c' Hin).
Qed.

Lemma digits_no_space c : is_Some (digit_of c) → py_isspace c = false.
Proof.
  intros [d Hd]. unfold digit_of in Hd. unfold py_isspace.
  destruct (48 <=? nat_of_ascii c) eqn:H1; [|done].
  destruct (nat_of_ascii c <=? 57) eqn:H2; [|done].
  apply Nat.leb_le in H1, H2.
  repeat match goal with
  | |- context [?a <=? ?b] =>
      destruct (Nat.leb_spec a b); try lia
  | |- context [?a =? ?b] =>
      destruct (Nat.eqb_spec a b); try lia
  end; done.
Qed.

Lemma lstrip_digits s :
  Forall (λ c, is_Some (digit_of c)) (chars s) → lstrip s = s.
Proof.
  destruct s as [|c s]; [done|]. intros H. inversion H as [|? ? Hc _]; subst.
  simpl. by rewrite (digits_no_space c Hc).
Qed.

Lemma rstrip_digits s :
  Forall (λ c, is_Some (digit_of c)) (chars s) → rstrip s = s.
Proof.
  induction s as [|c s IH]; [done|]. intros H. inversion H as [|? ? Hc Hs]; subst.
  simpl. rewrite (IH Hs). destruct s; [|done]. by rewrite (digits_no_space c Hc).
Qed.

Lemma strip_digits s :
  Forall (λ c, is_Some (digit_of c)) (chars s) → strip s = s.
Proof. intros H. unfold strip. by rewrite lstrip_digits, rstrip_digits. Qed.

Lemma digits_value_uint d acc b :
  d ≠ Decimal.Nil ∨ b = true →
  digits_value (NilEmpty.string_of_uint d) (Z.of_nat acc) b
  = Some (Z.of_nat (Nat.of_uint_acc d acc)).
Proof.
  revert acc b. induction d as [|d IH|d IH|d IH|d IH|d IH|d IH|d IH|d IH|d IH|d IH];
    intros acc b Hd;
    [by destruct Hd as [? | ->]|..];
    (simpl; rewrite Nat.tail_mul_spec;
     match goal with
     | |- digits_value _ ?z true = Some (Z.of_nat (Nat.of_uint_acc _ ?m)) =>
         replace z with (Z.of_nat m) by lia
     end;
     apply IH; by right).
Qed.

Lemma digits_value_zeros k s b :
  digits_value (zeros k +:+ s) 0 b
  = digits_value s 0 (if decide (k = 0) then b else true).
Proof.
  revert b. induction k as [|k IH]; intros b; [done|].
  simpl zeros. rewrite append_cons. simpl. rewrite IH. by destruct k.
Qed.

Lemma digits_value_format_04d n b :
  digits_value (format_04d n) 0 b = Some (Z.of_nat n).
Proof.
  unfold format_04d. rewrite digits_value_zeros.
  change 0%Z with (Z.of_nat 0).
  rewrite digits_value_uint by (left; apply to_uint_nonnil).
  change (Nat.of_uint_acc (Nat.to_uint n) 0) with (Nat.of_uint (Nat.to_uint n)).
  by rewrite Unsigned.of_to.
Qed.

Lemma py_int_format_04d n : py_int (format_04d n) = Some (Z.of_nat n).
Proof.
  unfold py_int. rewrite (strip_digits _ (format_04d_digits n)).
  pose proof (format_04d_digits n) as Hd. pose proof (digits_value_format_04d n false) as Hv.
  destruct (format_04d n) as [|c t] eqn:E; [by destruct (format_04d_nonempty n)|].
  simpl in Hd. inversion Hd as [|? ? Hc _]; subst.
  rewrite decide_False by (by apply (digit_not c "-")).
  rewrite decide_False by (by apply (digit_not c "+")).
  exact Hv.
Qed.

Lemma step_num_step_file n : step_num (step_file n) = Some (format_04d n).
Proof.
  unfold step_num, step_file.
  change ("output_step_" +:+ format_04d n +:+ ".txt")
    with ("output" +:+ String "_" ("step" +:+ String "_" (format_04d n +:+ ".txt"))).
  assert ("_" % char ∉ chars (format_04d n +:+ ".txt")) as H1.
  { rewrite chars_app. apply not_elem_of_app. split.
    - by apply digits_without; [apply format_04d_digits|].
    - simpl. rewrite !not_elem_of_cons. repeat split; try discriminate.
      apply not_elem_of_nil. }
  rewrite split_app_sep.
  2:{ simpl. rewrite !not_elem_of_cons. repeat split; try discriminate.
      apply not_elem_of_nil. }
  rewrite split_app_sep.
  2:{ simpl. rewrite !not_elem_of_cons. repeat split; try discriminate.
      apply not_elem_of_nil. }
  rewrite (split_without_sep _ _ H1). simpl.
  change (format_04d n +:+ ".txt") with (format_04d n +:+ String "." "txt").
  rewrite split_app_sep; [done|].
  by apply digits_without; [apply format_04d_digits|].
Qed.
End step_facts.

(** X16.  A file name written as [f"output_step_{step:04d}.txt"] is kept by
    the filter of [create_animation], the piece
    [filename.split('_')[2].split('.')[0]] read from it is the step written
    with at least four digits, and [int] of that piece is the step: the step
    number survives the way through the file name, for every step. *)
Theorem step_number_round_trip (step : nat) :
  is_step_file (step_file step) = true ∧
  step_num (step_file step) = Some (format_04d step) ∧
  step_of_file (step_file step) = Some (Z.of_nat step).
Proof.
  split; [|split].
  - unfold is_step_file, startswith, step_file.
    rewrite prefix_app. simpl.
    rewrite <- append_assoc. apply str_endswith_app.
  - apply step_num_step_file.
  - unfold step_of_file. rewrite step_num_step_file. simpl.
    apply py_int_format_04d.
Qed.

(** * The order of the step files *)

Set Warnings "-abstract-large-number".

Section order_facts.
Implicit Types (s t p : string) (c e : ascii).

Lemma ascii_compare_refl c : Ascii.compare c c = Eq.
Proof. unfold Ascii.compare. apply N.compare_refl. Qed.

Lemma compare_app_prefix p s t : String.compare (p +:+ s) (p +:+ t) = String.compare s t.
Proof.
  induction p as [|c p IH]; [done|].
  rewrite !append_cons. simpl. by rewrite ascii_compare_refl.
Qed.

(** The code of a digit character. *)
Lemma digit_of_code c d : digit_of c = Some d → (N_of_ascii c = 48 + Z.to_N d)%N ∧ (0 ≤ d ≤ 9)%Z.
Proof.
  unfold digit_of, nat_of_ascii.
  destruct (48 <=? N.to_nat (N_of_ascii c)) eqn:H1; [|done].
  destruct (N.to_nat (N_of_ascii c) <=? 57) eqn:H2; [|done].
  apply Nat.leb_le in H1, H2. simpl. intros [= <-]. lia.
Qed.

(** The value of a string of digits read after an accumulator. *)
Lemma digits_value_split s :
  Forall (λ c, is_Some (digit_of c)) (chars s) →
  ∃ v, (0 ≤ v < 10 ^ Z.of_nat (String.length s))%Z ∧
    ∀ acc, digits_value s acc true
           = Some (acc * 10 ^ Z.of_nat (String.length s) + v)%Z.
Proof.
  induction s as [|c s IH]; intros Hs.
  - exists 0%Z. split; [simpl; lia|]. intros acc. simpl. f_equal. lia.
  - simpl in Hs. inversion Hs as [|? ? [d Hd] Hs']; subst.
    destruct (IH Hs') as (v & Hv & Hval).
    destruct (digit_of_code c d Hd) as [_ Hd9].
    exists (d * 10 ^ Z.of_nat (String.length s) + v)%Z.
    assert (10 ^ Z.of_nat (String.length (String c s))
            = 10 * 10 ^ Z.of_nat (String.length s))%Z as Hpow.
    { simpl String.length. rewrite Nat2Z.inj_succ, Z.pow_succ_r by lia. done. }
    split; [rewrite Hpow; nia|].
    intros acc. simpl digits_value. rewrite Hd, Hval, Hpow. f_equal. lia.
Qed.

Lemma compare_digit_strings s t r1 r2 vs vt :
  String.length s = String.length t →
  Forall (λ c, is_Some (digit_of c)) (chars s) →
  Forall (λ c, is_Some (digit_of c)) (chars t) →
  digits_value s 0 true = Some vs → digits_value t 0 true = Some vt →
  (vs < vt)%Z →
  String.compare (s +:+ r1) (t +:+ r2) = Lt.
Proof.
  revert t vs vt. induction s as [|c s IH]; intros t vs vt Hlen Hs Ht Hvs Hvt Hlt.
  - destruct t; [|done]. simpl in Hvs, Hvt.
    injection Hvs as <-. injection Hvt as <-. lia.
  - destruct t as [|e t]; [done|]. simpl in Hlen. injection Hlen as Hlen.
    simpl in Hs, Ht.
    inversion Hs as [|? ? [dc Hdc] Hs']; subst.
    inversion Ht as [|? ? [de Hde] Ht']; subst.
    destruct (digits_value_split s Hs') as (v1 & Hv1 & Hval1).
    destruct (digits_value_split t Ht') as (v2 & Hv2 & Hval2).
    simpl in Hvs, Hvt. rewrite Hdc, Hval1 in Hvs. rewrite Hde, Hval2 in Hvt.
    injection Hvs as <-. injection Hvt as <-. rewrite <- Hlen in *.
    destruct (digit_of_code c dc Hdc) as [Hc Hdc9].
    destruct (digit_of_code e de Hde) as [He Hde9].
    rewrite !append_cons. simpl. unfold Ascii.compare. rewrite Hc, He.
    set (P := (10 ^ Z.of_nat (String.length s))%Z) in *.
    destruct (Z.lt_trichotomy dc de) as [Hd|[Hd|Hd]].
    + rewrite (proj2 (N.compare_lt_iff _ _)) by lia. done.
    + subst de. rewrite N.compare_refl.
      apply (IH t v1 v2).
      * done.
      * done.
      * done.
      * rewrite (Hval1 0%Z). f_equal; lia.
      * rewrite (Hval2 0%Z). f_equal; lia.
      * lia.
    + exfalso. nia.
Qed.

Lemma format_04d_length n : n < 10000 → String.length (format_04d n) = 4.
Proof.
  intros Hn.
  assert (forallb (λ k, String.length (format_04d k) =? 4) (seq 0 10000) = true) as Hall
    by (vm_compute; reflexivity).
  rewrite forallb_forall in Hall.
  apply Nat.eqb_eq. apply Hall. apply in_seq. lia.
Qed.
End order_facts.

(** X17.  The step files are put in order by [sort] on their names, Python's
    order of strings: character by character, by character code, which is
    [String.ltb].  For two
    steps a < b below 10000 the name of the file of step a comes before the
    name of the file of step b, so the sorted list is in step order; from
    10000 steps on this is lost: the file of step 10000 comes before the file
    of step 2000. *)
Theorem step_files_sort_in_step_order (a b : nat) :
  a < b → b < 10000 →
  String.ltb (step_file a) (step_file b) = true ∧
  String.ltb (step_file 10000) (step_file 2000) = true.
Proof.
  intros Hab Hb. split; [|by vm_compute].
  unfold String.ltb, step_file. rewrite compare_app_prefix.
  rewrite (compare_digit_strings (format_04d a) (format_04d b) ".txt" ".txt"
             (Z.of_nat a) (Z.of_nat b)); try done.
  - rewrite !format_04d_length by lia. done.
  - apply format_04d_digits.
  - apply format_04d_digits.
  - apply digits_value_format_04d.
  - apply digits_value_format_04d.
  - lia.
Qed.

Lemma step_files_sort_in_step_order_witness :
  String.ltb (step_file 100) (step_file 1000) = true ∧
  String.ltb (step_file 10000) (step_file 2000) = true.
Proof.
  apply (step_files_sort_in_step_order 100 1000).
  - lia.
  - apply Nat.ltb_lt. vm_compute. reflexivity.
Defined.

(** * What every snapshot satisfies *)

Section snapshot_invariant.
Context (step : ndarray → result ndarray).
Context (loop : nat → nat → nat → ndarray → list ndarray → result (ndarray * list ndarray)).
Hypothesis loop_0 : ∀ s k u snaps, loop s 0 k u snaps = Ok (u, snaps).
Hypothesis loop_S : ∀ s n k u snaps,
  loop s (S n) k u snaps
  = (u' ← step u;
     if decide (s = 0) then Raise ZeroDivisionError
     else loop s n (S k) u' (if decide (k mod s = 0) then snaps ++ [u'] else snaps)).
Context (P : ndarray → Prop).
Hypothesis step_P : ∀ v, P v → ∃ g, step v = Ok g ∧ P g.

(** A grid reached after at least one step is the result of a step on a grid
    that satisfies the invariant. *)
Lemma iterate_S_inv k u x :
  P u → iterate step (S k) u = Ok x → ∃ v, P v ∧ step v = Ok x.
Proof.
  intros Hu. replace (S k) with (k + 1) by lia. rewrite iterate_add.
  destruct (iterate_total step P k u step_P Hu) as (v & -> & Hv). simpl.
  destruct (step v) as [x'|e] eqn:Hx; simpl; [|done].
  intros [= <-]. by exists v.
Qed.

Lemma loop_snapshots_are_steps s n u :
  0 < s → P u →
  ∃ g tail, loop s n 0 u [u] = Ok (g, u :: tail) ∧
    Forall (λ x, ∃ v, P v ∧ step v = Ok x) tail.
Proof.
  intros Hs Hu.
  destruct (iterate_total step P n u step_P Hu) as (g & Hg & _).
  destruct (loop_snapshots step loop loop_0 loop_S s n 0 u [u] g Hs Hg)
    as (tail & Hloop & Htail).
  exists g, tail. split; [done|].
  apply Forall_forall. intros x Hx.
  destruct (proj1 (list_elem_of_lookup _ _) Hx) as [m Hm].
  destruct (Forall2_lookup_r _ _ _ _ _ Htail Hm) as (k & _ & _ & Hk).
  by apply (iterate_S_inv (k - 0) u x).
Qed.
End snapshot_invariant.

(** X18.  Every snapshot the loops take after the initial one is the result of
    a step, so it has the shape of the initial grid and the fixed cells of that
    script: in heat_pro_visualization.py [cold_T] in the first and last column
    and [hot_T] in the bands outside these columns; in
    visualize_ranks_overlay.py [hot_T] in the bands, in every column. *)
Theorem snapshots_keep_the_fixed_cells (dt hot_T cold_T : float)
    (top_band bottom_band snap_every n : nat) (u : ndarray) (NX NY : nat) :
  Shape u NX NY → 0 < NX → 0 < NY → 0 < snap_every →
  (∃ g tail,
     HeatPro.simulate dt hot_T cold_T top_band bottom_band n snap_every u
     = Ok (g, u :: tail) ∧
     Forall (λ x, Shape x NX NY ∧
               ∀ i j, i < NX → j < NY →
                 ((j = 0 ∨ j = NY - 1) → cell x i j = cold_T) ∧
                 (0 < j → j + 1 < NY → (i < top_band ∨ NX ≤ i + bottom_band) →
                  cell x i j = hot_T)) tail) ∧
  (∃ g tail,
     Overlay.simulate dt hot_T top_band bottom_band n snap_every u = Ok (g, u :: tail) ∧
     Forall (λ x, Shape x NX NY ∧
               ∀ i j, i < NX → j < NY → (i < top_band ∨ NX ≤ i + bottom_band) →
                 cell x i j = hot_T) tail).
Proof.
  intros HS HNX HNY Hsnap. split.
  - destruct (loop_snapshots_are_steps
                (HeatPro.step_heat dt hot_T cold_T top_band bottom_band)
                (HeatPro.run_loop dt hot_T cold_T top_band bottom_band)
                ltac:(done) ltac:(done) (λ v, Shape v NX NY)) with (s := snap_every)
                (n := n) (u := u) as (g & tail & Hrun & Htail); [|done|done|].
    { intros v Hv.
      destruct (step_heat_cells dt hot_T cold_T top_band bottom_band v NX NY Hv HNX HNY)
        as (g & Hg & HSg & _).
      by exists g. }
    exists g, tail. split; [exact Hrun|].
    eapply Forall_impl; [exact Htail|]. intros x (v & Hv & Hx).
    destruct (step_heat_boundary dt hot_T cold_T top_band bottom_band NX NY HNX HNY v Hv)
      as (x' & Hx' & HSx & Hc).
    rewrite Hx in Hx'. injection Hx' as <-. by split.
  - destruct (loop_snapshots_are_steps
                (Overlay.step_heat dt hot_T top_band bottom_band)
                (Overlay.run_loop dt hot_T top_band bottom_band)
                ltac:(done) ltac:(done) (λ v, Shape v NX NY)) with (s := snap_every)
                (n := n) (u := u) as (g & tail & Hrun & Htail); [|done|done|].
    { intros v Hv.
      destruct (overlay_step_cells dt hot_T top_band bottom_band v NX NY Hv HNX HNY)
        as (g & Hg & HSg & _).
      by exists g. }
    exists g, tail. split; [exact Hrun|].
    eapply Forall_impl; [exact Htail|]. intros x (v & Hv & Hx).
    destruct (overlay_step_cells dt hot_T top_band bottom_band v NX NY Hv HNX HNY)
      as (x' & Hx' & HSx & Hc).
    rewrite Hx in Hx'. injection Hx' as <-. split; [done|].
    intros i j Hi Hj Hband. rewrite (Hc i j Hi Hj).
    rewrite decide_True; [done|]. unfold neg_start. case_decide; lia.
Qed.

Lemma snapshots_keep_the_fixed_cells_witness :
  (∃ g tail,
     HeatPro.simulate 0.15 100 0 1 1 7 3 (constant_block 4 4 1)
     = Ok (g, constant_block 4 4 1 :: tail) ∧
     Forall (λ x, Shape x 4 4 ∧
               ∀ i j, i < 4 → j < 4 →
                 ((j = 0 ∨ j = 4 - 1) → cell x i j = 0%float) ∧
                 (0 < j → j + 1 < 4 → (i < 1 ∨ 4 ≤ i + 1) →
                  cell x i j = 100%float)) tail) ∧
  (∃ g tail,
     Overlay.simulate 0.15 100 1 1 7 3 (constant_block 4 4 1)
     = Ok (g, constant_block 4 4 1 :: tail) ∧
     Forall (λ x, Shape x 4 4 ∧
               ∀ i j, i < 4 → j < 4 → (i < 1 ∨ 4 ≤ i + 1) →
                 cell x i j = 100%float) tail).
Proof.
  apply (snapshots_keep_the_fixed_cells 0.15 100 0 1 1 3 7 (constant_block 4 4 1) 4 4).
  - apply Shape_constant_block.
  - lia.
  - lia.
  - lia.
Defined.

(** * The merge of the configuration *)

Section config_facts.
Implicit Types (d u : list (string * json)) (key k : string) (v value : json).

Lemma dict_get_set_eq key v d : dict_get key (dict_set key v d) = Some v.
Proof.
  induction d as [|[k0 v0] d IH]; simpl.
  - by rewrite decide_True.
  - destruct (decide (k0 = key)) as [->|Hne]; simpl.
    + by rewrite decide_True.
    + by rewrite decide_False.
Qed.

Lemma dict_get_set_ne key k v d : key ≠ k → dict_get k (dict_set key v d) = dict_get k d.
Proof.
  intros Hne. induction d as [|[k0 v0] d IH]; simpl.
  - by rewrite decide_False.
  - destruct (decide (k0 = key)) as [->|Hne0]; simpl.
    + by rewrite !decide_False.
    + by rewrite IH.
Qed.

Lemma dict_set_same key v d : dict_get key d = Some v → dict_set key v d = d.
Proof.
  induction d as [|[k0 v0] d IH]; simpl; [done|].
  destruct (decide (k0 = key)) as [->|Hne].
  - by intros [= ->].
  - intros H. by rewrite IH.
Qed.

Lemma dict_get_not_key key u : key ∉ u.*1 → dict_get key u = None.
Proof.
  induction u as [|[k0 v0] u IH]; [done|]. simpl. intros Hk.
  apply not_elem_of_cons in Hk as [Hne Hk].
  rewrite decide_False by done. by apply IH.
Qed.

Lemma merge_configs_nil default : merge_configs default (JDict []) = Merged default.
Proof. reflexivity. Qed.

(** One item of [user] at a time. *)
Lemma merge_configs_cons d key value rest :
  merge_configs (JDict d) (JDict ((key, value) :: rest))
  = match value, dict_get key d with
    | JDict _, Some sub =>
        match merge_configs sub value with
        | Merged sub' => merge_configs (JDict (dict_set key sub' d)) (JDict rest)
        | e => e
        end
    | _, _ => merge_configs (JDict (dict_set key value d)) (JDict rest)
    end.
Proof. reflexivity. Qed.

Lemma merge_configs_no_dict default item rest :
  (∀ d, default ≠ JDict d) →
  merge_configs default (JDict (item :: rest)) = TypeError.
Proof. intros Hd. destruct item as [key value]. destruct default; try done. by destruct (Hd items). Qed.

(** The value one item leaves under its key, and the rest of the merge. *)
Lemma merge_configs_item d key value rest r :
  merge_configs (JDict d) (JDict ((key, value) :: rest)) = Merged r →
  ∃ x, merge_configs (JDict (dict_set key x d)) (JDict rest) = Merged r ∧
    match value, dict_get key d with
    | JDict _, Some sub => merge_configs sub value = Merged x
    | _, _ => x = value
    end.
Proof.
  rewrite merge_configs_cons.
  destruct value; try (intros H; eexists; split; [exact H|]; by destruct (dict_get key d)).
  destruct (dict_get key d) as [sub|]; [|intros H; eexists; by split].
  destruct (merge_configs sub (JDict items)) as [sub'| |]; try done.
  intros H. by exists sub'.
Qed.

Lemma merged_lookup d u r :
  NoDup (u.*1) → merge_configs (JDict d) (JDict u) = Merged r →
  ∃ d', r = JDict d' ∧
    ∀ k, match dict_get k u with
         | None => dict_get k d' = dict_get k d
         | Some v =>
             match v, dict_get k d with
             | JDict _, Some sub =>
                 ∃ sub', merge_configs sub v = Merged sub' ∧ dict_get k d' = Some sub'
             | _, _ => dict_get k d' = Some v
             end
         end.
Proof.
  intros Hnd. revert d. induction u as [|[key value] u IH]; intros d Hm.
  - rewrite merge_configs_nil in Hm. injection Hm as <-. by exists d.
  - rewrite fmap_cons in Hnd. apply NoDup_cons in Hnd as [Hkey Hnd]. simpl in Hkey.
    destruct (merge_configs_item d key value u r Hm) as (x & Hrest & Hx).
    destruct (IH Hnd _ Hrest) as (d' & -> & Hd').
    exists d'. split; [done|]. intros k. simpl.
    destruct (decide (key = k)) as [<-|Hne].
    + pose proof (Hd' key) as Hk. rewrite (dict_get_not_key _ _ Hkey) in Hk.
      rewrite dict_get_set_eq in Hk.
      destruct value; try (by destruct (dict_get key d); subst x).
      destruct (dict_get key d) as [sub|]; [by exists x|by subst x].
    + pose proof (Hd' k) as Hk. by rewrite (dict_get_set_ne key k) in Hk.
Qed.
End config_facts.

(** X19.  What [merge_configs] leaves under every key, for a default that is
    a dict and user items with distinct keys, when the merge returns: the
    result is a dict; a key the user does not give keeps the default's value;
    a key the user gives with a dict, where the default has a value too, holds
    the merge of that value with the user's dict; every other key the user
    gives holds the user's value.  So no key of the default is lost. *)
Theorem merge_configs_lookup (d u : list (string * json)) (r : json) :
  NoDup (u.*1) → merge_configs (JDict d) (JDict u) = Merged r →
  ∃ d', r = JDict d' ∧
    (∀ k, match dict_get k u with
          | None => dict_get k d' = dict_get k d
          | Some v =>
              match v, dict_get k d with
              | JDict _, Some sub =>
                  ∃ sub', merge_configs sub v = Merged sub' ∧ dict_get k d' = Some sub'
              | _, _ => dict_get k d' = Some v
              end
          end) ∧
    (∀ k, is_Some (dict_get k d) → is_Some (dict_get k d')).
Proof.
  intros Hnd Hm. destruct (merged_lookup d u r Hnd Hm) as (d' & -> & Hd').
  exists d'. split; [done|]. split; [exact Hd'|].
  intros k [v0 Hk]. pose proof (Hd' k) as H. rewrite Hk in H.
  destruct (dict_get k u) as [v|]; [|by rewrite H].
  destruct v; try (by rewrite H). by destruct H as (sub' & _ & ->).
Qed.

Lemma merge_configs_lookup_witness :
  ∃ d', JDict [("a", JInt 7); ("b", JDict [("x", JInt 1); ("y", JInt 3)]); ("c", JStr "s")]
        = JDict d' ∧
    (∀ k, match dict_get k [("a", JInt 7); ("b", JDict [("y", JInt 3)]); ("c", JStr "s")] with
          | None => dict_get k d' = dict_get k [("a", JInt 1); ("b", JDict [("x", JInt 1)])]
          | Some v =>
              match v, dict_get k [("a", JInt 1); ("b", JDict [("x", JInt 1)])] with
              | JDict _, Some sub =>
                  ∃ sub', merge_configs sub v = Merged sub' ∧ dict_get k d' = Some sub'
              | _, _ => dict_get k d' = Some v
              end
          end) ∧
    (∀ k, is_Some (dict_get k [("a", JInt 1); ("b", JDict [("x", JInt 1)])]) →
          is_Some (dict_get k d')).
Proof.
  apply (merge_configs_lookup [("a", JInt 1); ("b", JDict [("x", JInt 1)])]
           [("a", JInt 7); ("b", JDict [("y", JInt 3)]); ("c", JStr "s")]).
  - simpl. repeat constructor; rewrite ?not_elem_of_cons; repeat split;
      try discriminate; apply not_elem_of_nil.
  - reflexivity.
Defined.

(** X20.  The edges of [merge_configs].  An empty user dict changes nothing,
    whatever the default is.  A user dict with an item, merged into a default
    that is no dict, raises a TypeError; so does a user dict with an item
    given under a key whose default is no dict, while an empty dict given under
    such a key is ignored and the default kept.  A user configuration that is
    no dict raises an AttributeError, and without a configuration file
    [load_config] returns the defaults. *)
Theorem merge_configs_edges (default : json) (d : list (string * json)) (key : string)
    (sub : json) (item : string * json) (items rest : list (string * json)) :
  merge_configs default (JDict []) = Merged default ∧
  ((∀ d0, default ≠ JDict d0) →
   merge_configs default (JDict (item :: rest)) = TypeError) ∧
  (dict_get key d = Some sub → (∀ d0, sub ≠ JDict d0) →
   merge_configs (JDict d) (JDict ((key, JDict (item :: items)) :: rest)) = TypeError ∧
   merge_configs (JDict d) (JDict ((key, JDict []) :: rest))
   = merge_configs (JDict d) (JDict rest)) ∧
  ((∀ d0, default ≠ JDict d0) → load_config (Some default) = AttributeError) ∧
  load_config None = Merged default_config ∧
  load_config (Some (JDict [])) = Merged default_config.
Proof.
  split; [apply merge_configs_nil|]. split; [apply merge_configs_no_dict|].
  split; [|split; [|done]].
  - intros Hsub Hno. rewrite !merge_configs_cons, Hsub. split.
    + by rewrite merge_configs_no_dict.
    + by rewrite merge_configs_nil, dict_set_same.
  - intros Hno. unfold load_config. destruct default; try done. by destruct (Hno items0).
Qed.

(** * The axes of the comparison plot *)

Section axes_facts.
Implicit Types (loaded : list bool) (axes : list axis).

Lemma filter_replicate_true k :
  filter (λ b : bool, b = true) (replicate k true) = replicate k true.
Proof.
  induction k as [|k IH]; [done|].
  change (replicate (S k) true) with (true :: replicate k true).
  by rewrite filter_cons_True, IH.
Qed.

Lemma filter_replicate_false m : filter (λ b : bool, b = true) (replicate m false) = [].
Proof.
  induction m as [|m IH]; [done|].
  change (replicate (S m) false) with (false :: replicate m false).
  by rewrite filter_cons_False.
Qed.

Lemma plot_steps_spec loaded idx axes n :
  idx + length loaded ≤ length axes →
  ∃ axes', plot_steps idx loaded axes n
           = (axes', n + length (filter (λ b, b = true) loaded)) ∧
    length axes' = length axes ∧
    ∀ i, axes' !! i
         = if decide (idx ≤ i ∧ loaded !! (i - idx) = Some true)
           then (λ a, {| has_image := true; visible := visible a |}) <$> axes !! i
           else axes !! i.
Proof.
  revert idx axes n. induction loaded as [|ok rest IH]; intros idx axes n Hlen.
  - exists axes. simpl. split; [by rewrite Nat.add_0_r|]. split; [done|].
    intros i. rewrite decide_False; [done|]. intros [_ H]. done.
  - simpl in Hlen. simpl plot_steps. rewrite decide_False by lia.
    destruct ok.
    + destruct (IH (S idx)
                  (alter (λ a, {| has_image := true; visible := visible a |}) idx axes)
                  (S n)) as (axes' & Hrun & Hl & Hc).
      { rewrite length_alter. lia. }
      exists axes'. rewrite Hrun. rewrite filter_cons_True by done.
      split; [f_equal; simpl; lia|]. rewrite length_alter in Hl. split; [done|].
      intros i. rewrite Hc.
      destruct (decide (i = idx)) as [->|Hne].
      * rewrite decide_False by lia. rewrite list_lookup_alter_eq.
        rewrite decide_True; [done|]. split; [lia|]. by rewrite Nat.sub_diag.
      * rewrite list_lookup_alter_ne by (intros ?; by subst).
        destruct (decide (idx ≤ i)) as [Hle|Hgt].
        -- replace (i - idx) with (S (i - S idx)) by lia. simpl.
           destruct (decide (S idx ≤ i ∧ rest !! (i - S idx) = Some true)) as [[? H]|H].
           ++ by rewrite decide_True.
           ++ rewrite decide_False; [done|]. intros [_ H']. apply H. split; [lia|done].
        -- by rewrite !decide_False by lia.
    + destruct (IH (S idx) axes n) as (axes' & Hrun & Hl & Hc); [lia|].
      exists axes'. rewrite Hrun. rewrite filter_cons_False by done.
      split; [done|]. split; [done|].
      intros i. rewrite Hc.
      destruct (decide (i = idx)) as [->|Hne].
      * rewrite decide_False by lia. rewrite decide_False; [done|].
        rewrite Nat.sub_diag. simpl. by intros [_ H].
      * destruct (decide (idx ≤ i)) as [Hle|Hgt].
        -- replace (i - idx) with (S (i - S idx)) by lia. simpl.
           destruct (decide (S idx ≤ i ∧ rest !! (i - S idx) = Some true)) as [[? H]|H].
           ++ by rewrite decide_True.
           ++ rewrite decide_False; [done|]. intros [_ H']. apply H. split; [lia|done].
        -- by rewrite !decide_False by lia.
Qed.

Lemma lookup_hide_unused n axes i :
  hide_unused n axes !! i
  = if decide (i < n) then axes !! i
    else (λ a, {| has_image := has_image a; visible := false |}) <$> axes !! i.
Proof.
  unfold hide_unused. destruct (decide (i < n)) as [Hlt|Hge].
  - destruct (decide (i < length axes)) as [Hi|Hi].
    + rewrite lookup_app_l by (rewrite length_take; lia). by rewrite lookup_take_lt.
    + rewrite !lookup_ge_None_2; [done|lia|].
      rewrite length_app, length_fmap, length_take, length_drop. lia.
  - destruct (decide (n ≤ length axes)) as [Hn|Hn].
    + rewrite lookup_app_r by (rewrite length_take; lia).
      rewrite length_take, list_lookup_fmap, lookup_drop.
      do 2 f_equal. lia.
    + rewrite !lookup_ge_None_2; [done|lia|].
      rewrite length_app, length_fmap, length_take, length_drop. lia.
Qed.

Lemma comparison_plot_axes loaded i a :
  length loaded ≤ 6 → create_comparison_plot loaded !! i = Some a →
  i < 6 ∧
  has_image a = bool_decide (loaded !! i = Some true) ∧
  visible a = bool_decide (i < length (filter (λ b, b = true) loaded)).
Proof.
  intros Hlen. unfold create_comparison_plot.
  destruct (plot_steps_spec loaded 0
              (replicate 6 {| has_image := false; visible := true |}) 0)
    as (axes' & -> & Hl & Hc); [by rewrite length_replicate|].
  rewrite length_replicate in Hl. simpl.
  rewrite lookup_hide_unused, Hc, Nat.sub_0_r. intros Ha.
  assert (i < 6) as Hi.
  { destruct (decide (i < 6)); [done|]. exfalso.
    rewrite (proj1 (lookup_replicate_None 6 _ i)) in Ha by lia.
    by repeat case_decide. }
  split; [done|].
  rewrite (lookup_replicate_2 6) in Ha by done.
  destruct (decide (0 ≤ i ∧ loaded !! i = Some true)) as [[_ Ht]|Hf];
    destruct (decide (i < length (filter (λ b : bool, b = true) loaded))) as [Hv|Hv];
    simpl in Ha; injection Ha as <-; simpl;
    rewrite ?(bool_decide_eq_true_2 _ Ht), ?(bool_decide_eq_true_2 _ Hv),
      ?(bool_decide_eq_false_2 _ Hv); try done;
    (rewrite bool_decide_eq_false_2; [done|]; intros H; apply Hf; split; [lia|done]).
Qed.
End axes_facts.

(** X21.  The comparison plot puts the image of step number i (of at most six)
    on axis i when its file was loaded, counts the loaded files, and then hides
    the axes from that count on.  So axis i holds an image exactly when file i
    was loaded, and it is visible exactly when i is less than the number of
    loaded files: an image is hidden as soon as a file before it is missing,
    and an empty axis is shown in its place.  When the loaded files are the
    first k, the visible axes are the axes with an image. *)
Theorem comparison_plot_hides_by_count (loaded : list bool) (i : nat) (a : axis) :
  length loaded ≤ 6 → create_comparison_plot loaded !! i = Some a →
  has_image a = bool_decide (loaded !! i = Some true) ∧
  visible a = bool_decide (i < length (filter (λ b, b = true) loaded)) ∧
  (∀ k m, loaded = replicate k true ++ replicate m false → visible a = has_image a).
Proof.
  intros Hlen Ha.
  destruct (comparison_plot_axes loaded i a Hlen Ha) as (Hi & Him & Hvis).
  split; [done|]. split; [done|].
  intros k m ->. rewrite Him, Hvis.
  assert (length (filter (λ b : bool, b = true) (replicate k true ++ replicate m false)) = k)
    as ->.
  { rewrite filter_app, length_app.
    rewrite filter_replicate_true, filter_replicate_false, length_replicate.
    simpl. lia. }
  destruct (decide (i < k)) as [Hk|Hk].
  - rewrite !bool_decide_eq_true_2; [done| |done].
    rewrite lookup_app_l by (by rewrite length_replicate).
    by apply lookup_replicate_2.
  - rewrite !bool_decide_eq_false_2; [done| |done].
    rewrite lookup_app_r by (rewrite length_replicate; lia).
    intros H. apply lookup_replicate_1 in H as [H _]. done.
Qed.

Lemma comparison_plot_hides_by_count_witness :
  has_image {| has_image := true; visible := false |}
  = bool_decide ([false; true; false; false; false] !! 1 = Some true) ∧
  visible {| has_image := true; visible := false |}
  = bool_decide (1 < length (filter (λ b, b = true) [false; true; false; false; false])) ∧
  (∀ k m, [false; true; false; false; false] = replicate k true ++ replicate m false →
          visible {| has_image := true; visible := false |}
          = has_image {| has_image := true; visible := false |}).
Proof.
  apply (comparison_plot_hides_by_count [false; true; false; false; false] 1
           {| has_image := true; visible := false |}).
  - simpl. lia.
  - reflexivity.
Defined.

(** * The loaded values are not used *)

Section initial_facts.
Lemma fill_rows_constant (c : float) (g : ndarray) NX NY :
  Shape g NX NY → fill c <$> g = constant_block NX NY c.
Proof.
  intros [Hlen Hrows]. subst NX. unfold constant_block.
  induction Hrows as [|r g Hr _ IH]; [done|].
  rewrite fmap_cons, IH. simpl. f_equal.
  unfold fill. rewrite <- Hr. clear. induction r as [|x r IH]; [done|].
  simpl. by rewrite <- IH.
Qed.
End initial_facts.

(** X22.  heat_pro_visualization.py and visualize_ranks_overlay.py use the
    grid rebuilt from the rank files for its shape only: the initial condition
    overwrites every value, so two loaded grids of the same shape give the
    same initial grid, the same final grid and the same snapshots, and the
    initial grid is the one built from a grid of zeros. *)
Theorem scripts_use_only_the_shape (dt hot_T cold_T : float)
    (top_band bottom_band steps_total snap_every : nat) (g1 g2 : ndarray) (NX NY : nat) :
  Shape g1 NX NY → Shape g2 NX NY →
  heat_pro_initial hot_T cold_T top_band bottom_band g1
  = HeatPro.reapply_boundaries hot_T cold_T top_band bottom_band (constant_block NX NY 0) ∧
  heat_pro_script dt hot_T cold_T top_band bottom_band steps_total snap_every g1
  = heat_pro_script dt hot_T cold_T top_band bottom_band steps_total snap_every g2 ∧
  overlay_script dt hot_T top_band bottom_band steps_total snap_every g1
  = overlay_script dt hot_T top_band bottom_band steps_total snap_every g2.
Proof.
  intros H1 H2.
  unfold heat_pro_script, overlay_script, heat_pro_initial, overlay_initial.
  by rewrite (fill_rows_constant _ g1 NX NY H1), (fill_rows_constant _ g2 NX NY H2).
Qed.

Lemma scripts_use_only_the_shape_witness :
  heat_pro_initial 100 0 1 1 [[1; 2; 3]; [4; 5; 6]; [7; 8; 9]]%float
  = HeatPro.reapply_boundaries 100 0 1 1 (constant_block 3 3 0) ∧
  heat_pro_script 0.15 100 0 1 1 4 2 [[1; 2; 3]; [4; 5; 6]; [7; 8; 9]]%float
  = heat_pro_script 0.15 100 0 1 1 4 2 (constant_block 3 3 50) ∧
  overlay_script 0.15 100 1 1 4 2 [[1; 2; 3]; [4; 5; 6]; [7; 8; 9]]%float
  = overlay_script 0.15 100 1 1 4 2 (constant_block 3 3 50).
Proof.
  apply (scripts_use_only_the_shape 0.15 100 0 1 1 4 2
           [[1; 2; 3]; [4; 5; 6]; [7; 8; 9]]%float (constant_block 3 3 50) 3 3).
  - split; [reflexivity | repeat constructor].
  - apply Shape_constant_block.
Defined.

(** * Merging twice *)

Section idempotence_facts.
Implicit Types (d u items rest : list (string * json)) (key k : string) (v value : json).

Lemma json_size_item k v items : (k, v) ∈ items → json_size v < json_size (JDict items).
Proof.
  intros Hin. simpl. induction items as [|[k0 v0] items IH]; [by apply elem_of_nil in Hin|].
  apply elem_of_cons in Hin as [[= <- <-]|Hin]; simpl; [lia|].
  specialize (IH Hin). lia.
Qed.

Lemma dict_get_item k v items : NoDup (items.*1) → (k, v) ∈ items → dict_get k items = Some v.
Proof.
  induction items as [|[k0 v0] items IH]; intros Hnd Hin; [by apply elem_of_nil in Hin|].
  rewrite fmap_cons in Hnd. apply NoDup_cons in Hnd as [Hk0 Hnd]. simpl in Hk0.
  apply elem_of_cons in Hin as [[= <- <-]|Hin]; simpl.
  - by rewrite decide_True.
  - rewrite decide_False; [by apply IH|].
    intros ->. apply Hk0. apply list_elem_of_fmap. by exists (k, v).
Qed.

(** A pass over items that each leave the dict as it is leaves it as it is. *)
Lemma merge_configs_fixed d rest :
  (∀ k v, (k, v) ∈ rest →
     match v, dict_get k d with
     | JDict _, Some sub => merge_configs sub v = Merged sub
     | _, _ => dict_get k d = Some v
     end) →
  merge_configs (JDict d) (JDict rest) = Merged (JDict d).
Proof.
  induction rest as [|[k v] rest IH]; intros Hfix; [done|].
  rewrite merge_configs_cons.
  pose proof (Hfix k v ltac:(apply list_elem_of_here)) as Hk.
  assert (merge_configs (JDict d) (JDict rest) = Merged (JDict d)) as Hrest.
  { apply IH. intros k' v' Hin. apply Hfix. by apply list_elem_of_further. }
  destruct v; try (destruct (dict_get k d) eqn:E; [|done]; injection Hk as ->;
                   by rewrite (dict_set_same _ _ _ E)).
  destruct (dict_get k d) as [sub|] eqn:E; [|done].
  rewrite Hk. by rewrite (dict_set_same _ _ _ E).
Qed.

Lemma merge_configs_idem_size n :
  ∀ u, json_size (JDict u) ≤ n → json_wf (JDict u) →
    merge_configs (JDict u) (JDict u) = Merged (JDict u) ∧
    ∀ default r, merge_configs default (JDict u) = Merged r →
                 merge_configs r (JDict u) = Merged r.
Proof.
  induction n as [|n IH]; intros u Hsize Hwf; [simpl in Hsize; lia|].
  inversion Hwf as [| | | | | |? Hnd Hitems]; subst.
  assert (Hsub : ∀ k its, (k, JDict its) ∈ u →
            merge_configs (JDict its) (JDict its) = Merged (JDict its) ∧
            ∀ default r, merge_configs default (JDict its) = Merged r →
                         merge_configs r (JDict its) = Merged r).
  { intros k its Hin. apply IH.
    - pose proof (json_size_item _ _ _ Hin). lia.
    - exact (proj1 (Forall_forall _ _) Hitems _ Hin). }
  split.
  - apply merge_configs_fixed. intros k v Hin.
    rewrite (dict_get_item _ _ _ Hnd Hin).
    destruct v; try done. by apply (Hsub k).
  - intros default r Hm.
    destruct u as [|item u'] eqn:Eu; [by rewrite merge_configs_nil in Hm |- *; injection Hm as <-|].
    rewrite <- Eu in *.
    destruct default as [| | | | | |d];
      try (by rewrite Eu, merge_configs_no_dict in Hm).
    destruct (merged_lookup d u r Hnd Hm) as (d' & -> & Hd').
    apply merge_configs_fixed. intros k v Hin.
    pose proof (Hd' k) as Hk. rewrite (dict_get_item _ _ _ Hnd Hin) in Hk.
    destruct v; try (by rewrite Hk).
    destruct (dict_get k d) as [sub|].
    + destruct Hk as (sub' & Hsub' & ->). by apply (proj2 (Hsub k _ Hin) sub).
    + rewrite Hk. by apply (Hsub k).
Qed.
End idempotence_facts.

(** X23.  [merge_configs] is idempotent: with a user dict as [json.load]
    builds it (every key once, at every depth), merging it a second time into
    the result of a merge changes nothing, whatever the default was; and
    merging such a dict into itself returns it unchanged. *)
Theorem merge_configs_idempotent (default r : json) (u : list (string * json)) :
  json_wf (JDict u) → merge_configs default (JDict u) = Merged r →
  merge_configs r (JDict u) = Merged r ∧
  merge_configs (JDict u) (JDict u) = Merged (JDict u).
Proof.
  intros Hwf Hm.
  destruct (merge_configs_idem_size (json_size (JDict u)) u ltac:(done) Hwf) as [Hself Hidem].
  split; [by apply (Hidem default)|done].
Qed.

Lemma merge_configs_idempotent_witness :
  merge_configs
    (JDict [("a", JInt 7); ("b", JDict [("x", JInt 1); ("y", JInt 3)]); ("c", JStr "s")])
    (JDict [("a", JInt 7); ("b", JDict [("y", JInt 3)]); ("c", JStr "s")])
  = Merged
      (JDict [("a", JInt 7); ("b", JDict [("x", JInt 1); ("y", JInt 3)]); ("c", JStr "s")]) ∧
  merge_configs (JDict [("a", JInt 7); ("b", JDict [("y", JInt 3)]); ("c", JStr "s")])
    (JDict [("a", JInt 7); ("b", JDict [("y", JInt 3)]); ("c", JStr "s")])
  = Merged (JDict [("a", JInt 7); ("b", JDict [("y", JInt 3)]); ("c", JStr "s")]).
Proof.
  apply (merge_configs_idempotent (JDict [("a", JInt 1); ("b", JDict [("x", JInt 1)])])).
  - constructor.
    + simpl. repeat constructor; rewrite ?not_elem_of_cons; repeat split;
        try discriminate; apply not_elem_of_nil.
    + repeat constructor. simpl. repeat constructor. apply not_elem_of_nil.
  - reflexivity.
Defined.
